(** * SiteScanner.AI: the issue lifecycle core

    A shallow embedding of the record store ([supabase/schema.sql]), the
    worker ([backend/worker.js]), the scanner's insertion loop
    ([backend/scanner.js]) and the portal's action gate
    ([portal/app/issues/page.tsx]), followed by the properties of the
    lifecycle specification.

    Conventions.  A [text] column is a [string]; a nullable column is an
    [option]; [timestamptz] is an integer count of clock ticks; [uuid] is
    the textual form the JavaScript clients see.  [now()] and [auth.uid()]
    are read from an explicit [session]. *)

From Stdlib Require Import ZArith List String Ascii Bool Lia DecimalString
  Permutation.
Import ListNotations.

(* ================================================================== *)
(** * supabase/schema.sql *)
(* ================================================================== *)

Module Schema.

Definition uuid := string.
Definition timestamptz := Z.

(** [create table public.issues]. *)
Record issues := mk_issues {
  id : uuid;
  created_at : timestamptz;
  updated_at : timestamptz;
  source_url : option string;
  title : string;
  description : option string;
  manual_instructions : option string;
  status : string;
  pr_url : option string;
  error_message : option string;
  created_by : option uuid;
  approved_by : option uuid;
  approved_at : option timestamptz;
  claimed_by : option string;
  claimed_at : option timestamptz
}.

(** The table is the list of its rows in physical order. *)
Definition table := list issues.

(** What a statement reads from its session: [now()] and [auth.uid()]. *)
Record session := mk_session {
  now : timestamptz;
  auth_uid : option uuid
}.

(** The status literals that occur in the repository. *)
Definition reported := "reported"%string.
Definition approved := "approved"%string.
Definition rejected := "rejected"%string.
Definition in_progress := "in_progress"%string.
Definition pr_raised := "pr_raised"%string.
Definition failed := "failed"%string.
Definition done := "done"%string.

(** Column assignments of the [set] clauses. *)
Definition set_updated_at (t : timestamptz) (r : issues) : issues :=
  mk_issues (id r) (created_at r) t (source_url r) (title r)
    (description r) (manual_instructions r) (status r) (pr_url r)
    (error_message r) (created_by r) (approved_by r) (approved_at r)
    (claimed_by r) (claimed_at r).

Definition set_status (s : string) (r : issues) : issues :=
  mk_issues (id r) (created_at r) (updated_at r) (source_url r) (title r)
    (description r) (manual_instructions r) s (pr_url r)
    (error_message r) (created_by r) (approved_by r) (approved_at r)
    (claimed_by r) (claimed_at r).

Definition set_pr_url (u : option string) (r : issues) : issues :=
  mk_issues (id r) (created_at r) (updated_at r) (source_url r) (title r)
    (description r) (manual_instructions r) (status r) u
    (error_message r) (created_by r) (approved_by r) (approved_at r)
    (claimed_by r) (claimed_at r).

Definition set_error_message (m : option string) (r : issues) : issues :=
  mk_issues (id r) (created_at r) (updated_at r) (source_url r) (title r)
    (description r) (manual_instructions r) (status r) (pr_url r)
    m (created_by r) (approved_by r) (approved_at r)
    (claimed_by r) (claimed_at r).

Definition set_created_by (u : option uuid) (r : issues) : issues :=
  mk_issues (id r) (created_at r) (updated_at r) (source_url r) (title r)
    (description r) (manual_instructions r) (status r) (pr_url r)
    (error_message r) u (approved_by r) (approved_at r)
    (claimed_by r) (claimed_at r).

Definition set_approved (by_ : option uuid) (at_ : option timestamptz)
    (r : issues) : issues :=
  mk_issues (id r) (created_at r) (updated_at r) (source_url r) (title r)
    (description r) (manual_instructions r) (status r) (pr_url r)
    (error_message r) (created_by r) by_ at_
    (claimed_by r) (claimed_at r).

Definition set_claimed (by_ : option string) (at_ : option timestamptz)
    (r : issues) : issues :=
  mk_issues (id r) (created_at r) (updated_at r) (source_url r) (title r)
    (description r) (manual_instructions r) (status r) (pr_url r)
    (error_message r) (created_by r) (approved_by r) (approved_at r)
    by_ at_.

(** Trigger [set_issues_updated_at]: [before update ... for each row
    execute function moddatetime()]. *)
Definition moddatetime (ses : session) (new : issues) : issues :=
  set_updated_at (now ses) new.

(** Trigger [set_issue_creator_before_insert]. *)
Definition set_issue_creator (ses : session) (new : issues) : issues :=
  match created_by new with
  | None => set_created_by (auth_uid ses) new
  | Some _ => new
  end.

(** [update public.issues set ... where ... returning *]: every row that
    satisfies the condition gets the assignments and then the
    before-update trigger; the statement yields the new table and the
    updated rows. *)
Definition sql_update (ses : session) (where_ : issues -> bool)
    (set_ : issues -> issues) (tbl : table) : table * list issues :=
  (map (fun r => if where_ r then moddatetime ses (set_ r) else r) tbl,
   map (fun r => moddatetime ses (set_ r)) (filter where_ tbl)).

(** [order by created_at]: a stable insertion sort, ascending. *)
Fixpoint insert_by_created_at (x : issues) (l : list issues) : list issues :=
  match l with
  | [] => [x]
  | y :: l' =>
      if (created_at x <=? created_at y)%Z then x :: l
      else y :: insert_by_created_at x l'
  end.

Definition order_by_created_at (l : list issues) : list issues :=
  fold_right insert_by_created_at [] l.

(** [limit n]. *)
Definition limit (n : nat) (l : list issues) : list issues := firstn n l.

(** A comparison with a scalar subquery: no row gives SQL NULL, and
    [id = NULL] holds for no row. *)
Definition id_eq_scalar (sub : list issues) (r : issues) : bool :=
  match sub with
  | [] => false
  | t :: _ => (id r =? id t)%string
  end.

(** A function declared [returns public.issues] yields the first row of
    its final statement, or NULL (here [None]) when there is none. *)
Definition returns_issues (rows : list issues) : option issues := hd_error rows.

(** [claim_issue(worker_id text)], run alone (no other transaction holds a
    row lock, so [skip locked] skips nothing). *)
Definition claim_issue (worker_id : string) (ses : session) (tbl : table)
    : option issues * table :=
  let sub :=
    limit 1 (order_by_created_at
               (filter (fun r => (status r =? approved)%string) tbl)) in
  let '(tbl', returning) :=
    sql_update ses (id_eq_scalar sub)
      (fun r => set_claimed (Some worker_id) (Some (now ses))
                  (set_status in_progress r))
      tbl in
  (returns_issues returning, tbl').

(** [approve_issue(issue_id uuid)]. *)
Definition approve_issue (issue_id : uuid) (ses : session) (tbl : table)
    : option issues * table :=
  let '(tbl', returning) :=
    sql_update ses (fun r => (id r =? issue_id)%string)
      (fun r => set_approved (auth_uid ses) (Some (now ses))
                  (set_status approved r))
      tbl in
  (returns_issues returning, tbl').

(** [reject_issue(issue_id uuid)]. *)
Definition reject_issue (issue_id : uuid) (ses : session) (tbl : table)
    : option issues * table :=
  let '(tbl', returning) :=
    sql_update ses (fun r => (id r =? issue_id)%string)
      (set_status rejected)
      tbl in
  (returns_issues returning, tbl').

(** The rows the clients insert: [from("issues").insert(payload)], with
    the columns the scanner and the form send.  [None] is a column left
    out of the payload: a nullable column is then NULL, [status] takes its
    default, and [title], which has no default, violates [not null] (as an
    explicit [null] title does).  The row-level policies admit every
    caller and are left out. *)
Record payload := mk_payload {
  p_source_url : option string;
  p_title : option string;
  p_description : option string;
  p_manual_instructions : option string;
  p_status : option string
}.

Inductive pg_error :=
| not_null_violation (column : string)
| unique_violation (constraint_name : string).

Definition column_default (d : string) (v : option string) : string :=
  match v with Some s => s | None => d end.

(** [insert into public.issues]: [title text not null] is the only
    constraint on the title; [id] defaults to [gen_random_uuid()] and is
    the primary key; [status] defaults to ['reported']. *)
Definition insert (gen_random_uuid : uuid) (ses : session) (p : payload)
    (tbl : table) : pg_error + table :=
  match p_title p with
  | None => inl (not_null_violation "title")
  | Some t =>
      let new :=
        set_issue_creator ses
          (mk_issues gen_random_uuid (now ses) (now ses) (p_source_url p) t
             (p_description p) (p_manual_instructions p)
             (column_default reported (p_status p))
             None None None None None None None) in
      if existsb (fun r => (id r =? id new)%string) tbl
      then inl (unique_violation "issues_pkey")
      else inr (tbl ++ [new])
  end.

(** [from("issues").update(patch).eq("id", id)]: the columns the worker
    patches. *)
Record patch := mk_patch {
  patch_status : option string;
  patch_pr_url : option string;
  patch_error_message : option string
}.

Definition apply_patch (p : patch) (r : issues) : issues :=
  let r1 := match patch_status p with Some s => set_status s r | None => r end in
  let r2 := match patch_pr_url p with Some u => set_pr_url (Some u) r1 | None => r1 end in
  match patch_error_message p with
  | Some m => set_error_message (Some m) r2
  | None => r2
  end.

Definition update_eq_id (i : uuid) (p : patch) (ses : session) (tbl : table)
    : table :=
  fst (sql_update ses (fun r => (id r =? i)%string) (apply_patch p) tbl).

(** Row lookup by primary key. *)
Definition find_by_id (i : uuid) (tbl : table) : option issues :=
  find (fun r => (id r =? i)%string) tbl.

(** The row [claim_issue] leaves behind for the row [r] it claims. *)
Definition claimed (worker_id : string) (ses : session) (r : issues) : issues :=
  moddatetime ses
    (set_claimed (Some worker_id) (Some (now ses)) (set_status in_progress r)).

(** Ascending order, stated on the list itself. *)
Fixpoint ascending (l : list issues) : Prop :=
  match l with
  | [] => True
  | x :: l' => (forall y, In y l' -> (created_at x <= created_at y)%Z)
               /\ ascending l'
  end.

(** Claims made one after the other: the ids returned, and the table
    left. *)
Fixpoint claim_sequence (calls : list (string * session)) (t : table)
    : list (option uuid) * table :=
  match calls with
  | [] => ([], t)
  | (worker_id, ses) :: rest =>
      let '(r, t') := claim_issue worker_id ses t in
      let '(rs, t'') := claim_sequence rest t' in
      (option_map id r :: rs, t'')
  end.

End Schema.

(* ================================================================== *)
(** * The JavaScript values and string methods the services use *)
(* ================================================================== *)

Module Js.

(** A string is its sequence of code units, those below 256. *)
Definition dq : string := String (ascii_of_nat 34) EmptyString.
Definition nl : string := String (ascii_of_nat 10) EmptyString.

(** An [Error] object. *)
Record Error := mk_Error { message : string }.

(** [String(error)], that is [Error.prototype.toString] with the name
    ["Error"]. *)
Definition String_of (e : Error) : string :=
  if (message e =? "")%string then "Error"%string
  else ("Error: " ++ message e)%string.

(** [a ?? b]. *)
Definition nullish {A} (a : option A) (b : option A) : option A :=
  match a with Some _ => a | None => b end.

Definition nullish_or {A} (a : option A) (b : A) : A :=
  match a with Some x => x | None => b end.

(** White space, for [trim] and [\s]. *)
Definition is_ws (c : ascii) : bool :=
  let n := nat_of_ascii c in
  (n =? 32)%nat || ((9 <=? n)%nat && (n <=? 13)%nat) || (n =? 160)%nat.

(** [\w]. *)
Definition is_word (c : ascii) : bool :=
  let n := nat_of_ascii c in
  ((48 <=? n)%nat && (n <=? 57)%nat) || ((65 <=? n)%nat && (n <=? 90)%nat)
  || ((97 <=? n)%nat && (n <=? 122)%nat) || (n =? 95)%nat.

Fixpoint trimStart (s : string) : string :=
  match s with
  | EmptyString => EmptyString
  | String c s' => if is_ws c then trimStart s' else s
  end.

Fixpoint rev_append (s acc : string) : string :=
  match s with
  | EmptyString => acc
  | String c s' => rev_append s' (String c acc)
  end.

Definition rev (s : string) : string := rev_append s EmptyString.

(** [s.trim()]. *)
Definition trim (s : string) : string := rev (trimStart (rev (trimStart s))).

(** [s.slice(0, n)]. *)
Definition slice_0 (n : nat) (s : string) : string := substring 0 n s.

(** [s.includes(sub)]. *)
Fixpoint includes (sub s : string) : bool :=
  prefix sub s ||
  match s with
  | EmptyString => false
  | String _ s' => includes sub s'
  end.

(** [s.split("\n")]. *)
Fixpoint split_nl (s : string) : list string :=
  match s with
  | EmptyString => [EmptyString]
  | String c s' =>
      if (nat_of_ascii c =? 10)%nat then EmptyString :: split_nl s'
      else match split_nl s' with
           | [] => [String c EmptyString]
           | l :: ls => String c l :: ls
           end
  end.

(** [xs.join(sep)]. *)
Fixpoint join (sep : string) (xs : list string) : string :=
  match xs with
  | [] => EmptyString
  | [x] => x
  | x :: rest => (x ++ sep ++ join sep rest)%string
  end.

(** Truthiness of a string: the empty string is falsy. *)
Definition truthy (s : string) : bool := negb (s =? "")%string.

Definition lower (c : ascii) : ascii :=
  let n := nat_of_ascii c in
  if ((65 <=? n)%nat && (n <=? 90)%nat)%bool then ascii_of_nat (n + 32) else c.

(** Does [s] start with [p], ignoring ASCII case? *)
Fixpoint starts_with_ci (p s : string) : bool :=
  match p, s with
  | EmptyString, _ => true
  | String a p', String b s' =>
      (nat_of_ascii (lower a) =? nat_of_ascii (lower b))%nat
      && starts_with_ci p' s'
  | String _ _, EmptyString => false
  end.

(** [s.replace(/\bP\w*\d*\w*/gi, "")] for a word [P]: at a word boundary
    the word [P] and every word character after it are dropped. *)
Fixpoint drop_words_from (p : string) (prev_word skipping : bool)
    (s : string) : string :=
  match s with
  | EmptyString => EmptyString
  | String c s' =>
      if skipping && is_word c then drop_words_from p true true s'
      else if negb prev_word && starts_with_ci p s
           then drop_words_from p true true s'
           else String c (drop_words_from p (is_word c) false s')
  end.

Definition replace_word (p : string) (s : string) : string :=
  match p with
  | EmptyString => s
  | _ => drop_words_from p false false s
  end.

(** [s.replace(/\s+/g, " ")]. *)
Fixpoint collapse_ws (in_ws : bool) (s : string) : string :=
  match s with
  | EmptyString => EmptyString
  | String c s' =>
      if is_ws c
      then if in_ws then collapse_ws true s'
           else String " "%char (collapse_ws true s')
      else String c (collapse_ws false s')
  end.

(** The decimal form of an integer in a template literal. *)
Definition of_Z (z : Z) : string := DecimalString.NilZero.string_of_int (Z.to_int z).

End Js.

(* ================================================================== *)
(** * What the services reach outside themselves *)
(* ================================================================== *)

Module Outside.
Import Schema Js.

(** How a request to the store client settles: the promise is fulfilled
    with [error] unset, fulfilled with [error] set, or rejected. *)
Inductive answer :=
| fulfilled
| fulfilled_error (error : string)
| rejected (e : Error).

(** How the spawned [codex] child ends: the ["close"] event with its exit
    code ([None] for [null]), or the ["error"] event. *)
Inductive child_end :=
| close (code : option Z)
| child_error (err : Error).

(** The collaborators: the shell, the codex process, the store's
    transport, the server clock and [JSON.stringify]. Each reads and
    advances a world of its own. *)
Class Collaborators (World : Type) := {
  execSync : string -> World -> (Error + string) * World;
  spawn_codex : list string -> World -> child_end * World;
  supabase : World -> answer * World;
  gen_random_uuid : World -> uuid * World;
  clock : World -> timestamptz;
  JSON_stringify : issues -> string
}.

(** What an observer sees a service do. *)
Inductive event :=
| ev_exec (cmd : string)
| ev_codex (args : list string)
| ev_rpc (fn : string)
| ev_select
| ev_insert (p : payload)
| ev_update (i : uuid) (p : patch)
| ev_sleep (ms : Z).

(** The whole system a service runs against. *)
Record Sys (World : Type) := mk_Sys {
  db : table;
  world : World;
  trace : list event
}.
Arguments mk_Sys {World}.
Arguments db {World}.
Arguments world {World}.
Arguments trace {World}.

(** An [async] computation: it completes normally or throws. *)
Inductive completion (A : Type) :=
| Normal (a : A)
| Throw (e : Error).
Arguments Normal {A}.
Arguments Throw {A}.

Definition Async (World A : Type) : Type :=
  Sys World -> completion A * Sys World.

Section Monad.
Context {World : Type}.

Definition ret {A} (a : A) : Async World A := fun s => (Normal a, s).

Definition throw {A} (e : Error) : Async World A := fun s => (Throw e, s).

Definition bind {A B} (m : Async World A) (k : A -> Async World B)
      : Async World B :=
    fun s =>
      match m s with
      | (Normal a, s') => k a s'
      | (Throw e, s') => (Throw e, s')
      end.

  (** [try { body } catch (error) { handler }]. *)
Definition try_catch {A} (body : Async World A)
      (handler : Error -> Async World A) : Async World A :=
    fun s =>
      match body s with
      | (Normal a, s') => (Normal a, s')
      | (Throw e, s') => handler e s'
      end.

Definition emit (e : event) : Async World unit :=
    fun s => (Normal tt, mk_Sys (db s) (world s) (trace s ++ [e])).

  (** Run a collaborator on the world. *)
Definition ask {A} (f : World -> A * World) : Async World A :=
    fun s => let '(a, w) := f (world s) in
             (Normal a, mk_Sys (db s) w (trace s)).

  (** Run a statement on the table. *)
Definition on_db {A} (f : table -> A * table) : Async World A :=
    fun s => let '(a, t) := f (db s) in
             (Normal a, mk_Sys t (world s) (trace s)).

  (** [await new Promise(resolve => setTimeout(resolve, ms))]. *)
Definition sleep (ms : Z) : Async World unit := emit (ev_sleep ms).
End Monad.

Definition is_update (e : event) : bool :=
  match e with
  | ev_update _ _ => true
  | _ => false
  end.

(** A computation that leaves the table as it is and sends the store no
    update. *)
Definition quiet {World A} (m : Async World A) : Prop :=
  forall s,
    db (snd (m s)) = db s
    /\ exists evs,
         trace (snd (m s)) = trace s ++ evs
         /\ forallb (fun e => negb (is_update e)) evs = true.

Declare Scope async_scope.
Delimit Scope async_scope with async.
Notation "x <- m ;; k" := (bind m (fun x => k))
  (at level 61, m at next level, right associativity) : async_scope.
Notation "m ;;; k" := (bind m (fun _ => k))
  (at level 61, right associativity) : async_scope.

End Outside.

(* ================================================================== *)
(** * backend/worker.js *)
(* ================================================================== *)

Module Worker.
Import Schema Js Outside.
Local Open Scope string_scope.
Local Open Scope async_scope.

(** The environment variables, after their defaults. *)
Record config := mk_config {
  WORKER_ID : string;
  REPO_DIR : string;
  BASE_BRANCH : string;
  EMPTY_SLEEP_MS : Z;
  ERROR_SLEEP_MS : Z
}.

(** A JSON object for an issue as the RPC hands it over: a row, or the
    object whose fields are all [null]. *)
Inductive js_issue :=
| all_null
| row (r : issues).

(** The [data] field of an RPC answer. *)
Inductive rpc_data :=
| data_null
| data_object (o : js_issue)
| data_array (l : list js_issue).

Definition to_json (r : option issues) : js_issue :=
  match r with Some x => row x | None => all_null end.

Definition no_changes_message : string :=
  "No changes were produced by Codex for this issue.".

Section Worker.
Context {World : Type} {C : Collaborators World} (cfg : config).

  (** The service-role connection: [now()] is the server clock and there
      is no [auth.uid()]. *)
Definition with_session {A} (f : session -> Async World A) : Async World A :=
    fun s => f (mk_session (clock (world s)) None) s.

  (** [run(cmd)]. *)
Definition run (cmd : string) : Async World string :=
    emit (ev_exec cmd) ;;;
    r <- ask (execSync cmd) ;;
    match r with
    | inl e => throw e
    | inr out => ret (trim out)
    end.

  (** [cleanupGitLock()]. *)
Definition cleanupGitLock : Async World unit :=
    let lockPath := REPO_DIR cfg ++ "/.git/index.lock" in
    try_catch
      (emit (ev_exec ("rm -f " ++ lockPath)) ;;;
       r <- ask (execSync ("rm -f " ++ lockPath)) ;;
       match r with
       | inl e => throw e
       | inr _ => ret tt
       end)
      (fun _ => ret tt).

Definition codex_args (prompt : string) : list string :=
    ["exec"; "--skip-git-repo-check";
     "--dangerously-bypass-approvals-and-sandbox";
     "--enable"; "web_search_request"; "-s"; "workspace-write"; prompt].

  (** [runCodex(prompt)]. *)
Definition runCodex (prompt : string) : Async World unit :=
    emit (ev_codex (codex_args prompt)) ;;;
    r <- ask (spawn_codex (codex_args prompt)) ;;
    match r with
    | close (Some Z0) => ret tt
    | close (Some code) =>
        throw (mk_Error ("Codex exited with code " ++ of_Z code))
    | close None => throw (mk_Error "Codex exited with code null")
    | child_error err =>
        throw (mk_Error ("Failed to spawn codex: " ++ message err))
    end.

  (** [supabase.rpc("claim_issue", { worker_id: WORKER_ID })]: the pair
      [{ data, error }]. *)
Definition rpc_claim_issue : Async World (rpc_data * option string) :=
    emit (ev_rpc "claim_issue") ;;;
    a <- ask supabase ;;
    match a with
    | fulfilled =>
        r <- with_session (fun ses => on_db (claim_issue (WORKER_ID cfg) ses)) ;;
        ret (data_object (to_json r), None)
    | fulfilled_error e => ret (data_null, Some e)
    | rejected e => throw e
    end.

  (** [claimIssue()]: [null] is [None]. *)
Definition claimIssue : Async World (option js_issue) :=
    de <- rpc_claim_issue ;;
    match snd de with
    | Some _ => ret None
    | None =>
        match fst de with
        | data_array l =>
            ret (match l with x :: _ => Some x | [] => None end)
        | data_object o => ret (Some o)
        | data_null => ret None
        end
    end.

  (** [updateIssue(id, patch)]. *)
Definition updateIssue (i : uuid) (p : patch) : Async World unit :=
    emit (ev_update i p) ;;;
    a <- ask supabase ;;
    match a with
    | fulfilled =>
        with_session (fun ses => on_db (fun t => (tt, update_eq_id i p ses t)))
    | fulfilled_error _ => ret tt
    | rejected e => throw e
    end.

Definition branchName (issue : issues) : string := "auto/" ++ id issue.

Definition prompt (issue : issues) : string :=
    nl ++ "You are maintaining the website repo at " ++ REPO_DIR cfg ++ "." ++ nl ++
    "You have access to web_search to verify facts before making changes." ++ nl ++
    nl ++
    "Issue JSON:" ++ nl ++
    JSON_stringify issue ++ nl ++
    nl ++
    "Manual instructions (if any):" ++ nl ++
    nullish_or (manual_instructions issue) "None." ++ nl ++
    nl ++
    "Task:" ++ nl ++
    "- Understand the SPECIFIC issue described above. Use web_search if you need to verify facts or get current information." ++ nl ++
    "- Make minimal, high-quality changes to fix ONLY this specific issue." ++ nl ++
    "- DO NOT investigate or fix other issues you may notice - stay focused on the reported issue only." ++ nl ++
    "- Keep your changes minimal and targeted to the specific problem." ++ nl.

Definition pr_create_command (issue : issues) : string :=
    "gh pr create --head " ++ branchName issue ++ " --base " ++ BASE_BRANCH cfg
    ++ " --title " ++ dq ++ "Fix: " ++ title issue ++ dq
    ++ " --body " ++ dq ++ "Automatically generated fix for issue "
    ++ id issue ++ "." ++ dq.

  (** [prOutput.split("\n").find(line => line.includes("http")) ?? prOutput]. *)
Definition extract_pr_url (prOutput : string) : string :=
    nullish_or (find (includes "http") (split_nl prOutput)) prOutput.

  (** The [try] block of [processIssue], up to the inspection of the
    working copy. *)
Definition prepare (issue : issues) : Async World unit :=
    run "git fetch origin" ;;;
    run ("git checkout " ++ BASE_BRANCH cfg) ;;;
    run ("git pull origin " ++ BASE_BRANCH cfg) ;;;
    run ("git checkout -B " ++ branchName issue) ;;;
    runCodex (prompt issue) ;;;
    cleanupGitLock.

(** The [try] block after the inspection found changes. *)
Definition publish (issue : issues) : Async World unit :=
    run "git add ." ;;;
    run ("git commit -m " ++ dq ++ "Fix issue " ++ id issue ++ ": "
         ++ title issue ++ dq) ;;;
    run ("git push -u origin " ++ branchName issue) ;;;
    prOutput <- run (pr_create_command issue) ;;
    updateIssue (id issue)
      (mk_patch (Some pr_raised) (Some (extract_pr_url prOutput)) None).

(** The [try] block of [processIssue]. *)
Definition pipeline (issue : issues) : Async World unit :=
    prepare issue ;;;
    status <- run "git status --porcelain" ;;
    if negb (truthy status) then
      updateIssue (id issue)
        (mk_patch (Some failed) None (Some no_changes_message))
    else
      publish issue.

(** [processIssue(issue)]. *)
Definition processIssue (issue : issues) : Async World unit :=
    try_catch (pipeline issue)
      (fun error =>
         updateIssue (id issue)
           (mk_patch (Some failed) None
              (Some (slice_0 2000 (String_of error))))).

  (** What one turn of the [while (true)] loop did. *)
Inductive turn :=
  | idle
  | processed (i : uuid)
  | loop_error (err : Error).

  (** [!issue || !issue.id] is false exactly on a row with a truthy id. *)
Definition claimed_row (issue : option js_issue) : option issues :=
    match issue with
    | Some (row r) => if truthy (id r) then Some r else None
    | Some all_null => None
    | None => None
    end.

  (** The body of the loop in [main]. *)
Definition main_turn : Async World turn :=
    try_catch
      (issue <- claimIssue ;;
       match claimed_row issue with
       | None => sleep (EMPTY_SLEEP_MS cfg) ;;; ret idle
       | Some r => processIssue r ;;; ret (processed (id r))
       end)
      (fun err => sleep (ERROR_SLEEP_MS cfg) ;;; ret (loop_error err)).

  (** [main()], cut after [n] turns of its endless loop. *)
Fixpoint main (n : nat) : Async World (list turn) :=
    match n with
    | O => ret []
    | S n' => t <- main_turn ;; ts <- main n' ;; ret (t :: ts)
    end.
End Worker.

End Worker.

(* ================================================================== *)
(** * backend/scanner.js *)
(* ================================================================== *)

Module Scanner.
Import Schema Js Outside.
Local Open Scope string_scope.
Local Open Scope async_scope.

(** A row of [select("title, source_url, status")]. *)
Record existing_issue := mk_existing {
  e_title : string;
  e_source_url : option string;
  e_status : string
}.

(** A value [JSON.parse] yields.  An object is given by its members, and
    reading a key finds the first member of that name.  Numbers are given
    as integers: the loop looks at a number only to see whether it is 0. *)
#[warnings="-register-all"]
Inductive json :=
| JNull
| JBool (b : bool)
| JNum (n : Z)
| JStr (s : string)
| JArr (elements : list json)
| JObj (members : list (string * json)).

(** One element of the [issues] array of the extracted JSON: any value
    [JSON.parse] yields. *)
Definition finding := json.

(** [if (v)] on a JSON value. *)
Definition truthy_value (v : json) : bool :=
  match v with
  | JNull => false
  | JBool b => b
  | JNum n => negb (n =? 0)%Z
  | JStr s => truthy s
  | JArr _ => true
  | JObj _ => true
  end.

Fixpoint member (key : string) (members : list (string * json))
    : option json :=
  match members with
  | [] => None
  | (k, v) :: rest => if k =? key then Some v else member key rest
  end.

(** [finding.key] as [??] sees it, for a finding that is not [null]: the
    member of that name of an object, unless it is [null].  A number, a
    boolean, a string or an array has none of the keys the loop reads
    ([link] of a string is a method, which [JSON.stringify] leaves out of
    the request, so that the column is NULL as it is for [null]). *)
Definition prop (key : string) (f : finding) : option json :=
  match f with
  | JObj members =>
      match member key members with
      | Some JNull => None
      | x => x
      end
  | _ => None
  end.

(** A [TypeError]; the scanner does not look at the name of what it
    throws. *)
Definition TypeError (msg : string) : Error := mk_Error msg.

(** [const payload]: the values the loop puts under [source_url],
    [title], [description] and [manual_instructions]; [None] is [null].
    The status is always ["reported"]. *)
Record js_payload := mk_js_payload {
  js_source_url : option json;
  js_title : json;
  js_description : option json;
  js_manual_instructions : option json
}.

(** How the scanning [codex] child ends, with the standard output
    gathered until then. *)
Inductive scan_end :=
| scan_close (raw : string) (code : option Z)
| scan_error (err : Error).

(** The detector's side: the codex child, the extraction call (its
    [choices[0]?.message?.content]) and [JSON.parse] followed by the look
    at [parsed?.issues] ([None] when that is no array); and the text the
    store keeps in a text column for a JSON value that is no string. *)
Class Detector (World : Type) := {
  spawn_scan : list string -> World -> scan_end * World;
  openai_extract : string -> World -> (Error + option string) * World;
  JSON_parse_issues : string -> Error + option (list finding);
  text_of_json : json -> string
}.

Definition select_projection (r : issues) : existing_issue :=
  mk_existing (title r) (source_url r) (status r).

Definition existing_line (i : existing_issue) : string :=
  "- " ++ dq ++ e_title i ++ dq ++ " at "
  ++ nullish_or (e_source_url i) "null"
  ++ " (status: " ++ e_status i ++ ")".

Definition existingIssuesList (existingIssues : list existing_issue) : string :=
  match existingIssues with
  | [] => ""
  | _ => nl ++ nl ++ "EXISTING ISSUES (DO NOT REPORT THESE AGAIN):" ++ nl
         ++ join nl (map existing_line existingIssues)
  end.

Definition instruction (siteUrl : string)
    (existingIssues : list existing_issue) : string :=
  nl ++ "You are an autonomous QA bot with access to web search." ++ nl ++
  "- Use your web_search tool to investigate " ++ siteUrl ++ " and research recent information about the site's content." ++ nl ++
  "- Look for outdated information, incorrect content, broken messaging, or obvious inconsistencies." ++ nl ++
  "- Focus on the main content pages and articles, not just headers/footers." ++ nl ++
  existingIssuesList existingIssues ++ nl ++
  "- For every concrete issue you find, append it to the " ++ dq ++ "issues" ++ dq ++ " array of the JSON object described by the provided schema. Each issue needs:" ++ nl ++
  "  - " ++ dq ++ "title" ++ dq ++ ": short slug in sentence case" ++ nl ++
  "  - " ++ dq ++ "description" ++ dq ++ ": why it is wrong, with evidence from your search" ++ nl ++
  "  - " ++ dq ++ "source_url" ++ dq ++ ": the specific URL where the issue exists" ++ nl ++
  "  - " ++ dq ++ "manualInstructions" ++ dq ++ ": optional hints for the fixer (null if none)" ++ nl ++
  "- DO NOT report issues that are already listed above in EXISTING ISSUES." ++ nl ++
  "- Your final response MUST strictly match the JSON schema provided (an object with an " ++ dq ++ "issues" ++ dq ++ " array)." ++ nl ++
  "- Return {" ++ dq ++ "issues" ++ dq ++ ": []} if nothing is wrong or all issues are already reported." ++ nl.

Definition scan_args (instruction : string) : list string :=
  ["exec"; "--skip-git-repo-check";
   "--dangerously-bypass-approvals-and-sandbox";
   "--enable"; "web_search_request";
   "-c"; "sandbox_workspace_write.network_access=true"; instruction].

(** The citation markers are stripped from a truthy description. *)
Definition strip_citations (description : string) : string :=
  trim (collapse_ws false
          (replace_word "search"
             (replace_word "view"
                (replace_word "turn"
                   (replace_word "cite" description))))).

(** The body of the loop up to [const payload].  Reading a key of
    [null] throws, and so does [description.replace] when the description
    is truthy and no string. *)
Definition normalize (f : finding) : Error + js_payload :=
  match f with
  | JNull => inl (TypeError "Cannot read properties of null (reading 'title')")
  | _ =>
      let title :=
        nullish_or
          (nullish (nullish (prop "title" f) (prop "Title" f)) (prop "name" f))
          (JStr "Unlabeled issue") in
      let description :=
        nullish (nullish (prop "description" f) (prop "Description" f))
          (prop "details" f) in
      let sourceUrl :=
        nullish
          (nullish (nullish (prop "source_url" f) (prop "sourceUrl" f))
             (prop "url" f))
          (prop "link" f) in
      let manualInstructions :=
        nullish
          (nullish (prop "manualInstructions" f)
             (prop "manual_instructions" f))
          (prop "instructions" f) in
      match description with
      | Some d =>
          if truthy_value d then
            match d with
            | JStr text =>
                inr (mk_js_payload sourceUrl title
                       (Some (JStr (strip_citations text)))
                       manualInstructions)
            | _ => inl (TypeError "description.replace is not a function")
            end
          else inr (mk_js_payload sourceUrl title (Some d) manualInstructions)
      | None => inr (mk_js_payload sourceUrl title None manualInstructions)
      end
  end.



(** The rows a run asked the store to insert, in order. *)
Fixpoint inserts_of (evs : list event) : list payload :=
  match evs with
  | [] => []
  | ev_insert p :: rest => p :: inserts_of rest
  | _ :: rest => inserts_of rest
  end.

Section Scanner.
Context {World : Type} {C : Collaborators World} {D : Detector World}.
Context (SITE_URL : string).

Definition extraction_failed (err : Error) : Error :=
  mk_Error ("Failed to extract issues via GPT-5-mini: " ++ message err).

Definition no_valid_json : Error :=
  mk_Error "Codex response did not contain valid issue JSON".

(** [runCodexScan(siteUrl, existingIssues)]: the [issues] array of the
    object the promise resolves with. *)
Definition runCodexScan (siteUrl : string)
    (existingIssues : list existing_issue) : Async World (list finding) :=
  emit (ev_codex (scan_args (instruction siteUrl existingIssues))) ;;;
  r <- ask (spawn_scan (scan_args (instruction siteUrl existingIssues))) ;;
  match r with
  | scan_error err =>
      throw (mk_Error ("Failed to spawn codex: " ++ message err))
  | scan_close raw _ =>
      x <- ask (openai_extract raw) ;;
      match x with
      | inl err => throw (extraction_failed err)
      | inr None => throw no_valid_json
      | inr (Some extracted) =>
          if truthy extracted then
            match JSON_parse_issues extracted with
            | inl err => throw (extraction_failed err)
            | inr (Some issues) => ret issues
            | inr None => throw no_valid_json
            end
          else throw no_valid_json
      end
  end.

(** [supabase.from("issues").select("title, source_url, status")]: the
    pair [{ data, error }]. *)
Definition select_existing
    : Async World (option (list existing_issue) * option string) :=
  emit ev_select ;;;
  a <- ask supabase ;;
  match a with
  | fulfilled => fun s => (Normal (Some (map select_projection (db s)), None), s)
  | fulfilled_error e => ret (None, Some e)
  | rejected e => throw e
  end.

(** [supabase.from("issues").insert(payload)]: its [error]. *)
Definition insert_issue (p : payload) : Async World (option string) :=
  emit (ev_insert p) ;;;
  a <- ask supabase ;;
  match a with
  | fulfilled =>
      u <- ask gen_random_uuid ;;
      fun s =>
        match insert u (mk_session (clock (world s)) None) p (db s) with
        | inl (not_null_violation c) =>
            (Normal (Some ("null value in column " ++ c)), s)
        | inl (unique_violation c) =>
            (Normal (Some ("duplicate key value violates " ++ c)), s)
        | inr t => (Normal None, mk_Sys t (world s) (trace s))
        end
  | fulfilled_error e => ret (Some e)
  | rejected e => throw e
  end.

(** The row the store makes of the payload. *)
Definition column (v : json) : string :=
  match v with
  | JStr text => text
  | _ => text_of_json v
  end.

Definition to_payload (p : js_payload) : payload :=
  mk_payload (option_map column (js_source_url p))
    (Some (column (js_title p)))
    (option_map column (js_description p))
    (option_map column (js_manual_instructions p))
    (Some reported).

(** The [for (const finding of issues)] loop. *)
Fixpoint insert_findings (issues : list finding) : Async World unit :=
  match issues with
  | [] => ret tt
  | finding :: rest =>
      match normalize finding with
      | inl e => throw e
      | inr p =>
          insert_issue (to_payload p) ;;;
          insert_findings rest
      end
  end.

(** [main()]. *)
Definition main : Async World unit :=
  fe <- select_existing ;;
  match snd fe with
  | Some _ => ret tt
  | None =>
      issues <- runCodexScan SITE_URL
                  (match fst fe with Some l => l | None => [] end) ;;
      match issues with
      | [] => ret tt
      | _ => insert_findings issues
      end
  end.
End Scanner.

End Scanner.

(* ================================================================== *)
(** * portal/app/issues: the board and the new-issue form *)
(* ================================================================== *)

Module Portal.
Import Schema Js.
Local Open Scope string_scope.

Inductive action := approve | reject.

(** [const rpc = action === "approve" ? "approve_issue" : "reject_issue"]. *)
Definition rpc_of (a : action) : string :=
  match a with
  | approve => "approve_issue"
  | reject => "reject_issue"
  end.

(** The actions the card of an issue offers: approve and reject when the
    status is ["reported"], re-approve when it is ["failed"], none
    otherwise. *)
Definition buttons (issue_status : string) : list action :=
  if issue_status =? "reported" then [approve; reject]
  else if issue_status =? "failed" then [approve]
  else [].

(** [handle(action, id)]: the stored function it calls, on the table. *)
Definition handle (a : action) (i : uuid) (ses : session) (tbl : table)
    : table :=
  match a with
  | approve => snd (approve_issue i ses tbl)
  | reject => snd (reject_issue i ses tbl)
  end.

(** [x || null]. *)
Definition or_null (x : string) : option string :=
  if truthy x then Some x else None.

(** The row [onSubmit] inserts from the form fields. *)
Definition form_payload (title sourceUrl description instructions : string)
    : payload :=
  mk_payload (or_null sourceUrl) (Some title) (or_null description)
    (or_null instructions) (Some "reported").

(** The title input is [required]: the browser submits the form only
    when it is not empty. *)
Definition form_valid (title : string) : bool := truthy title.

End Portal.

(* ================================================================== *)
(** * The lifecycle: the operations the services perform on the table *)
(* ================================================================== *)

Module Lifecycle.
Import Schema Js.

(** How a claimed issue's run of [processIssue] ends when its write is
    applied. *)
Inductive outcome :=
| no_changes
| pr_created (prUrl : string)
| threw (error : Error).

(** The patch [processIssue] writes for each outcome. *)
Definition terminal_patch (o : outcome) : patch :=
  match o with
  | no_changes =>
      mk_patch (Some failed) None (Some Worker.no_changes_message)
  | pr_created prUrl => mk_patch (Some pr_raised) (Some prUrl) None
  | threw error =>
      mk_patch (Some failed) None (Some (slice_0 2000 (String_of error)))
  end.

(** The operations: the clients' insert, the two stored functions the
    portal calls, the worker's claim, and the terminal write of the worker
    that holds a claimed issue. *)
Inductive op :=
| op_insert (gen_random_uuid : uuid) (p : payload)
| op_approve (i : uuid)
| op_reject (i : uuid)
| op_claim (worker_id : string)
| op_finish (i : uuid) (o : outcome).

(** The table, and the issues that workers have claimed and not yet
    written back. *)
Record state := mk_state {
  tbl : table;
  in_flight : list uuid
}.

Definition initial : state := mk_state [] [].

Definition status_of (i : uuid) (t : table) : option string :=
  option_map status (find_by_id i t).

Definition holds (i : uuid) (l : list uuid) : bool :=
  existsb (String.eqb i) l.

(** One operation, as the store and the worker carry it out. *)
Definition step (ses : session) (o : op) (s : state) : state :=
  match o with
  | op_insert u p =>
      match insert u ses p (tbl s) with
      | inl _ => s
      | inr t => mk_state t (in_flight s)
      end
  | op_approve i => mk_state (snd (approve_issue i ses (tbl s))) (in_flight s)
  | op_reject i => mk_state (snd (reject_issue i ses (tbl s))) (in_flight s)
  | op_claim w =>
      match claim_issue w ses (tbl s) with
      | (Some r, t) =>
          mk_state t (if truthy (id r) then id r :: in_flight s else in_flight s)
      | (None, t) => mk_state t (in_flight s)
      end
  | op_finish i o =>
      if holds i (in_flight s)
      then mk_state (update_eq_id i (terminal_patch o) ses (tbl s))
             (filter (fun j => negb (String.eqb i j)) (in_flight s))
      else s
  end.

(** The record an operation writes, if any. *)
Definition written (ses : session) (o : op) (s : state) : option uuid :=
  match o with
  | op_insert u p =>
      match insert u ses p (tbl s) with
      | inl _ => None
      | inr _ => Some u
      end
  | op_approve i => option_map id (fst (approve_issue i ses (tbl s)))
  | op_reject i => option_map id (fst (reject_issue i ses (tbl s)))
  | op_claim w => option_map id (fst (claim_issue w ses (tbl s)))
  | op_finish i o =>
      if holds i (in_flight s)
      then option_map id (find_by_id i (tbl s))
      else None
  end.

(** Is the operation one the clients issue in this state?  The scanner
    and the form insert with status ["reported"]; the board calls a
    stored function only through a button it shows for the issue's current
    status. *)
Definition offered (o : op) (s : state) : bool :=
  match o with
  | op_insert _ p =>
      match p_status p with
      | Some st => (st =? reported)%string
      | None => true
      end
  | op_approve i =>
      match status_of i (tbl s) with
      | Some st => existsb (fun a => match a with Portal.approve => true | _ => false end)
                     (Portal.buttons st)
      | None => false
      end
  | op_reject i =>
      match status_of i (tbl s) with
      | Some st => existsb (fun a => match a with Portal.reject => true | _ => false end)
                     (Portal.buttons st)
      | None => false
      end
  | op_claim _ => true
  | op_finish _ _ => true
  end.

Fixpoint run_ops (ops : list (session * op)) (s : state) : state :=
  match ops with
  | [] => s
  | (ses, o) :: rest => run_ops rest (step ses o s)
  end.

(** Every operation of the sequence is offered in the state it meets. *)
Fixpoint all_offered (ops : list (session * op)) (s : state) : bool :=
  match ops with
  | [] => true
  | (ses, o) :: rest => offered o s && all_offered rest (step ses o s)
  end.

(** The statuses record [i] takes: one entry for each operation that
    writes it, in order. *)
Fixpoint status_history (i : uuid) (ops : list (session * op)) (s : state)
    : list string :=
  match ops with
  | [] => []
  | (ses, o) :: rest =>
      let s' := step ses o s in
      match written ses o s with
      | Some j =>
          if (j =? i)%string
          then match status_of i (tbl s') with
               | Some st => st :: status_history i rest s'
               | None => status_history i rest s'
               end
          else status_history i rest s'
      | None => status_history i rest s'
      end
  end.

(** The transition table. *)
Definition transition_table : list (string * string) :=
  [ (reported, approved); (reported, rejected); (approved, in_progress);
    (in_progress, pr_raised); (in_progress, failed); (failed, approved) ].

Definition allowed (a b : string) : bool :=
  existsb (fun p => (fst p =? a)%string && (snd p =? b)%string)
    transition_table.

Fixpoint chain (a : string) (l : list string) : bool :=
  match l with
  | [] => true
  | b :: l' => allowed a b && chain b l'
  end.

(** A path of the table that starts at ["reported"]. *)
Definition is_path (l : list string) : bool :=
  match l with
  | [] => true
  | a :: l' => (a =? reported)%string && chain a l'
  end.

(** [pr_url] is set exactly on the rows whose status is ["pr_raised"]. *)
Definition pr_url_iff_pr_raised (r : issues) : bool :=
  Bool.eqb (match pr_url r with Some _ => true | None => false end)
           (status r =? pr_raised)%string.

(** What holds of every state the operations reach: the primary key;
    an issue in flight has status ["in_progress"]; [pr_url] is set exactly
    on the ["pr_raised"] rows. *)
Definition well_formed (s : state) : Prop :=
  NoDup (map id (tbl s))
  /\ (forall i, holds i (in_flight s) = true ->
                status_of i (tbl s) = Some in_progress)
  /\ (forall r, In r (tbl s) -> pr_url_iff_pr_raised r = true).

(** What one operation does to the statuses: the record it writes takes
    a status that follows from its former one, and no other record changes
    status. *)
Definition effect (s s' : state) (w : option uuid) : Prop :=
  forall i,
    (w = Some i /\
     exists st', status_of i (tbl s') = Some st' /\
       match status_of i (tbl s) with
       | Some st => allowed st st' = true
       | None => st' = reported
       end)
    \/ (w <> Some i /\ status_of i (tbl s') = status_of i (tbl s)).

(** A computation that applies at most one write to the table, a
    terminal patch of the issue [i], and then completes normally. *)
Definition writes_once {World A} (i : uuid) (m : Outside.Async World A) : Prop :=
  forall s,
    Outside.db (snd (m s)) = Outside.db s
    \/ (exists a, fst (m s) = Outside.Normal a)
       /\ exists o ses,
            Outside.db (snd (m s))
            = update_eq_id i (terminal_patch o) ses (Outside.db s).

(** A history that continues from the current status of the record, or
    starts the record when there is none yet. *)
Definition follows (current : option string) (l : list string) : bool :=
  match current with
  | Some st => chain st l
  | None => is_path l
  end.

End Lifecycle.

(* ================================================================== *)
(** * claim_issue under concurrent callers *)
(* ================================================================== *)

Module Concurrent.
Import Schema.

(** A transaction that runs [claim_issue]: it has not yet run its
    subquery; or its subquery has locked the row it selected ([for
    update]) and the update is still to come; or it has committed, which
    releases the lock, with the row the function returns. *)
Inductive txn :=
| begun (worker_id : string) (ses : session)
| locked (worker_id : string) (ses : session) (target : uuid)
| committed (result : option issues).

Record conc := mk_conc {
  rows : table;
  txns : list txn
}.

(** The row locks held. *)
Definition lock_of (x : txn) : list uuid :=
  match x with
  | locked _ _ i => [i]
  | _ => []
  end.

Definition row_locks (ts : list txn) : list uuid := flat_map lock_of ts.

Definition is_locked (locks : list uuid) (r : issues) : bool :=
  existsb (String.eqb (id r)) locks.

(** [select id from public.issues where status = 'approved' order by
    created_at for update skip locked limit 1]. *)
Definition select_for_update_skip_locked (locks : list uuid) (t : table)
    : list issues :=
  limit 1
    (filter (fun r => negb (is_locked locks r))
       (order_by_created_at
          (filter (fun r => (status r =? approved)%string) t))).

(** The next action of one transaction. *)
Definition advance (x : txn) (locks : list uuid) (t : table) : txn * table :=
  match x with
  | begun w ses =>
      match select_for_update_skip_locked locks t with
      | [] => (committed None, t)
      | r :: _ => (locked w ses (id r), t)
      end
  | locked w ses target =>
      let '(t', returning) :=
        sql_update ses (fun r => (id r =? target)%string)
          (fun r => set_claimed (Some w) (Some (now ses))
                      (set_status in_progress r))
          t in
      (committed (returns_issues returning), t')
  | committed r => (x, t)
  end.

Fixpoint replace_nth (k : nat) (x : txn) (l : list txn) : list txn :=
  match l, k with
  | [], _ => []
  | _ :: l', O => x :: l'
  | y :: l', S k' => y :: replace_nth k' x l'
  end.

(** The scheduler lets transaction [k] take its next action. *)
Definition schedule_step (k : nat) (s : conc) : conc :=
  match nth_error (txns s) k with
  | None => s
  | Some x =>
      let '(x', t') := advance x (row_locks (txns s)) (rows s) in
      mk_conc t' (replace_nth k x' (txns s))
  end.

Fixpoint run_schedule (schedule : list nat) (s : conc) : conc :=
  match schedule with
  | [] => s
  | k :: rest => run_schedule rest (schedule_step k s)
  end.

Definition start (callers : list (string * session)) (t : table) : conc :=
  mk_conc t (map (fun c => begun (fst c) (snd c)) callers).

Definition is_committed (x : txn) : bool :=
  match x with committed _ => true | _ => false end.

(** The ids the finished calls returned. *)
Definition returned_of (x : txn) : list uuid :=
  match x with
  | committed (Some r) => [id r]
  | _ => []
  end.

Definition returned_ids (ts : list txn) : list uuid := flat_map returned_of ts.

(** The calls that returned none. *)
Definition is_none (x : txn) : bool :=
  match x with
  | committed None => true
  | _ => false
  end.

Definition returned_none (ts : list txn) : nat := List.length (filter is_none ts).

Definition approved_rows (t : table) : list issues :=
  filter (fun r => (status r =? approved)%string) t.

(** How many actions a transaction still has to take. *)
Definition steps_left (x : txn) : nat :=
  match x with
  | begun _ _ => 2
  | locked _ _ _ => 1
  | committed _ => 0
  end.

(** What holds of every state the scheduler reaches from the table [t0]:
    the primary key; no row is locked twice and locked rows are approved;
    no id was returned twice, and a returned id belongs to a row that was
    approved in [t0] and is now in progress; approved and returned rows
    together are as many as [t0] had approved; once a call has returned
    none, every approved row is locked; and an approved row is a row of
    [t0]. *)
Definition consistent (t0 : table) (s : conc) : Prop :=
  NoDup (map id (rows s))
  /\ NoDup (row_locks (txns s))
  /\ (forall i, In i (row_locks (txns s)) ->
        exists r, In r (rows s) /\ id r = i /\ status r = approved)
  /\ NoDup (returned_ids (txns s))
  /\ (forall i, In i (returned_ids (txns s)) ->
        (exists r, In r (rows s) /\ id r = i /\ status r = in_progress)
        /\ (exists r0, In r0 t0 /\ id r0 = i /\ status r0 = approved))
  /\ List.length (approved_rows (rows s)) + List.length (returned_ids (txns s))
     = List.length (approved_rows t0)
  /\ (returned_none (txns s) <> 0 ->
      forall r, In r (rows s) -> status r = approved ->
                In (id r) (row_locks (txns s)))
  /\ (forall r, In r (rows s) -> status r = approved -> In r t0).

End Concurrent.

(* ================================================================== *)
(** * Sample data *)
(* ================================================================== *)

Module Samples.
Import Schema Js Outside Lifecycle.
Local Open Scope string_scope.

Definition at_ (t : Z) : session := mk_session t None.

Definition draft (title : string) : payload :=
  mk_payload None (Some title) None None (Some reported).

(** Three issues created in the order a, b, c and approved in the order
    c, b, a. *)
Definition approved_in_reverse : list (session * op) :=
  [ (at_ 1, op_insert "a" (draft "Stale year in footer"));
    (at_ 2, op_insert "b" (draft "Broken link"));
    (at_ 3, op_insert "c" (draft "Old phone number"));
    (at_ 4, op_approve "c");
    (at_ 5, op_approve "b");
    (at_ 6, op_approve "a") ].

Definition backlog : table := tbl (run_ops approved_in_reverse initial).

Definition issue_a : issues :=
  mk_issues "a" 1%Z 6%Z None "Stale year in footer" None None approved None None
    None None (Some 6%Z) None None.

Definition issue_b : issues :=
  mk_issues "b" 2%Z 5%Z None "Broken link" None None approved None None
    None None (Some 5%Z) None None.

Definition issue_c : issues :=
  mk_issues "c" 3%Z 4%Z None "Old phone number" None None approved None None
    None None (Some 4%Z) None None.

Definition issue_with_pr : issues :=
  mk_issues "a" 1%Z 4%Z None "Stale year in footer" None None pr_raised
    (Some "https://github.com/o/r/pull/1") None
    None None (Some 2%Z) (Some "worker-1") (Some 3%Z).

Definition raise_pr : list (session * op) :=
  [ (at_ 1, op_insert "a" (draft "Stale year in footer"));
    (at_ 2, op_approve "a");
    (at_ 3, op_claim "worker-1");
    (at_ 4, op_finish "a" (pr_created "https://github.com/o/r/pull/1")) ].

(** Two workers call [claim_issue] at once; the scheduler lets both run
    their subquery before either updates. *)
Definition two_callers : list (string * session) :=
  [ ("worker-1", at_ 7); ("worker-2", at_ 7) ].

Definition interleaved : list nat := [0; 1; 1; 0]%nat.

Definition one_approved : table := [issue_a].

Definition three_callers : list (string * session) :=
  [ ("worker-1", at_ 7); ("worker-1", at_ 8); ("worker-1", at_ 9) ].

(** A rejected issue approved through the stored function. *)
Definition approve_rejected : list (session * op) :=
  [ (at_ 1, op_insert "a" (draft "Stale year in footer"));
    (at_ 2, op_reject "a");
    (at_ 3, op_approve "a") ].

(** An issue taken to a pull request and then approved again through the
    stored function. *)
Definition approve_after_pr : list (session * op) :=
  [ (at_ 1, op_insert "a" (draft "Stale year in footer"));
    (at_ 2, op_approve "a");
    (at_ 3, op_claim "worker-1");
    (at_ 4, op_finish "a" (pr_created "https://github.com/o/r/pull/1"));
    (at_ 5, op_approve "a") ].

(** The scenario of the specification: report, approve, claim, no diff,
    re-approve. *)
Definition scenario : list (session * op) :=
  [ (at_ 1, op_insert "a" (draft "Stale year in footer"));
    (at_ 2, op_approve "a");
    (at_ 3, op_claim "worker-1");
    (at_ 4, op_finish "a" no_changes);
    (at_ 5, op_approve "a") ].

(** The worker's configuration with its defaults. *)
Definition worker_cfg : Worker.config :=
  Worker.mk_config "worker-1" "/repo" "main" 60000 10000.

(** An issue a worker has claimed. *)
Definition claimed_issue : issues :=
  mk_issues "a" 1%Z 3%Z None "Stale year in footer" None None in_progress
    None None None None (Some 2%Z) (Some "worker-1") (Some 3%Z).

(** A world where the remediation tool changes nothing: every command
    prints nothing, codex exits with 0, the store applies every request. *)
Definition nothing_changes : Collaborators unit :=
  {| execSync := fun _ w => (inr "", w);
     spawn_codex := fun _ w => (close (Some 0%Z), w);
     supabase := fun w => (fulfilled, w);
     gen_random_uuid := fun w => ("n", w);
     clock := fun _ => 10%Z;
     JSON_stringify := fun _ => "{}" |}.

(** A world where every command fails. *)
Definition commands_fail : Collaborators unit :=
  {| execSync := fun cmd w => (inl (mk_Error ("Command failed: " ++ cmd)), w);
     spawn_codex := fun _ w => (close (Some 0%Z), w);
     supabase := fun w => (fulfilled, w);
     gen_random_uuid := fun w => ("n", w);
     clock := fun _ => 10%Z;
     JSON_stringify := fun _ => "{}" |}.

(** A world where the store answers every request with an error. *)
Definition store_errors : Collaborators unit :=
  {| execSync := fun _ w => (inr "", w);
     spawn_codex := fun _ w => (close (Some 0%Z), w);
     supabase := fun w => (fulfilled_error "connection refused", w);
     gen_random_uuid := fun w => ("n", w);
     clock := fun _ => 10%Z;
     JSON_stringify := fun _ => "{}" |}.

Definition system (t : table) : Sys unit := mk_Sys t tt [].

(** An issue the store already holds, and a scan whose extracted JSON
    reports it once more. *)
Definition known_issue : issues :=
  mk_issues "a" 1%Z 1%Z (Some "https://example.com/about")
    "Stale year in footer" (Some "The footer says 2019.") None reported
    None None None None None None None.

Definition known_finding : Scanner.finding :=
  Scanner.JObj
    [ ("title", Scanner.JStr "Stale year in footer");
      ("description", Scanner.JStr "The footer still says 2019.");
      ("source_url", Scanner.JStr "https://example.com/about");
      ("manualInstructions", Scanner.JNull) ].

Definition reports_known_issue : Scanner.Detector unit :=
  {| Scanner.spawn_scan := fun _ w => (Scanner.scan_close "done" (Some 0%Z), w);
     Scanner.openai_extract := fun _ w => (inr (Some "{...}"), w);
     Scanner.JSON_parse_issues := fun _ => inr (Some [known_finding]);
     Scanner.text_of_json := fun _ => "" |}.

End Samples.

(* ================================================================== *)
(** * portal/app/issues/page.tsx: the query of the board *)
(* ================================================================== *)

Module Board.
Import Schema Outside.
Local Open Scope string_scope.

(** [type Issue]: the columns the board selects. *)
Record Issue := mk_Issue {
  i_id : string;
  i_title : string;
  i_status : string;
  i_source_url : option string;
  i_pr_url : option string;
  i_description : option string;
  i_manual_instructions : option string;
  i_error_message : option string;
  i_created_at : timestamptz
}.

(** [const statuses]. *)
Definition statuses : list string :=
  ["all"; "reported"; "approved"; "rejected"; "in_progress"; "pr_raised";
   "done"; "failed"].

(** [select("id, title, status, source_url, pr_url, description,
    manual_instructions, error_message, created_at")]. *)
Definition select_columns (r : issues) : Issue :=
  mk_Issue (id r) (title r) (status r) (source_url r) (pr_url r)
    (description r) (manual_instructions r) (error_message r) (created_at r).

(** [order("created_at", { ascending: false })]: a stable insertion sort,
    descending. *)
Fixpoint insert_newest_first (x : issues) (l : list issues) : list issues :=
  match l with
  | [] => [x]
  | y :: l' =>
      if (created_at y <=? created_at x)%Z then x :: l
      else y :: insert_newest_first x l'
  end.

Definition order_newest_first (l : list issues) : list issues :=
  fold_right insert_newest_first [] l.

(** The query [loadIssues] builds: the filter [eq("status", statusFilter)]
    is added unless the filter is ["all"]. *)
Definition query (statusFilter : string) (t : table) : list Issue :=
  map select_columns
    (order_newest_first
       (if statusFilter =? "all" then t
        else filter (fun r => status r =? statusFilter) t)).

(** [loadIssues]: the list the board shows afterwards.  With an error the
    data are [null] and the list is emptied ([data ?? []]); when the
    promise is rejected [setIssues] is not reached. *)
Definition loadIssues (a : answer) (statusFilter : string) (t : table)
    (shown : list Issue) : list Issue :=
  match a with
  | fulfilled => query statusFilter t
  | fulfilled_error _ => []
  | rejected _ => shown
  end.

(** Newest first, stated on the list itself. *)
Fixpoint newest_first (l : list Issue) : Prop :=
  match l with
  | [] => True
  | x :: l' => (forall y, In y l' -> (i_created_at y <= i_created_at x)%Z)
               /\ newest_first l'
  end.

(** The status an action of the board asks for. *)
Definition target (a : Portal.action) : string :=
  match a with
  | Portal.approve => Schema.approved
  | Portal.reject => Schema.rejected
  end.

End Board.

(* ================================================================== *)
(** * What the operations keep of a record *)
(* ================================================================== *)

Module Keeping.
Import Schema Lifecycle.

(** The columns no statement assigns after the insert. *)
Definition same_data (r r' : issues) : Prop :=
  id r' = id r
  /\ created_at r' = created_at r
  /\ title r' = title r
  /\ source_url r' = source_url r
  /\ description r' = description r
  /\ manual_instructions r' = manual_instructions r
  /\ created_by r' = created_by r.

Definition is_set {A} (x : option A) : bool :=
  match x with Some _ => true | None => false end.

(** The columns that are only ever assigned a value, never NULL. *)
Definition keeps_marks (r r' : issues) : Prop :=
  (is_set (pr_url r) = true -> is_set (pr_url r') = true)
  /\ (is_set (error_message r) = true -> is_set (error_message r') = true)
  /\ (is_set (claimed_by r) = true -> is_set (claimed_by r') = true)
  /\ (is_set (claimed_at r) = true -> is_set (claimed_at r') = true)
  /\ (is_set (approved_at r) = true -> is_set (approved_at r') = true).

(** Every insert of the sequence carries ['reported'] or no status. *)
Fixpoint inserts_reported (ops : list (session * op)) : bool :=
  match ops with
  | [] => true
  | (_, op_insert _ p) :: rest =>
      match p_status p with
      | Some st => (st =? reported)%string
      | None => true
      end && inserts_reported rest
  | _ :: rest => inserts_reported rest
  end.

(** The statuses the services write. *)
Definition written_statuses : list string :=
  [reported; approved; rejected; in_progress; pr_raised; failed].

Definition implb (a b : bool) : bool := if a then b else true.

(** A row whose status is one the services write and that carries the
    columns its status comes with. *)
Definition row_ok (r : issues) : bool :=
  existsb (String.eqb (status r)) written_statuses
  && implb (status r =? approved)%string (is_set (approved_at r))
  && implb (status r =? in_progress)%string
       (is_set (claimed_by r) && is_set (claimed_at r))
  && implb (status r =? failed)%string (is_set (error_message r))
  && implb (status r =? pr_raised)%string (is_set (pr_url r)).

(** Assignments that leave the data of a row alone, clear no mark, stamp
    [updated_at] and yield a row that is [row_ok]. *)
Definition good_update (ses : session) (g : issues -> issues) : Prop :=
  forall r,
    same_data r (g r) /\ keeps_marks r (g r)
    /\ row_ok (g r) = true /\ updated_at (g r) = now ses.

(** A computation that completes normally after it has applied one
    terminal patch to the issue [i], or throws with the table as it was. *)
Definition settles {World A} (i : uuid) (m : Outside.Async World A) : Prop :=
  forall s,
    ((exists a, fst (m s) = Outside.Normal a)
     /\ exists o ses,
          Outside.db (snd (m s))
          = update_eq_id i (terminal_patch o) ses (Outside.db s))
    \/ ((exists e, fst (m s) = Outside.Throw e)
        /\ Outside.db (snd (m s)) = Outside.db s).

(** Every character of the string is white space. *)
Fixpoint all_ws (s : string) : bool :=
  match s with
  | EmptyString => true
  | String c s' => Js.is_ws c && all_ws s'
  end.

(** The row an accepted insert of the scanner appends. *)
Definition scanned_row {World : Type} {D : Scanner.Detector World}
    (fs : list Scanner.finding) (r : issues) : Prop :=
  status r = reported
  /\ (pr_url r, error_message r, claimed_by r, approved_at r)
     = (None, None, None, None)
  /\ exists f p,
       In f fs
       /\ Scanner.normalize f = inr p
       /\ p_title (Scanner.to_payload p) = Some (title r)
       /\ source_url r = p_source_url (Scanner.to_payload p)
       /\ description r = p_description (Scanner.to_payload p)
       /\ manual_instructions r = p_manual_instructions (Scanner.to_payload p).

(** What a call of [claim_issue] has to show against the table [t]: as
    long as it runs it carries its caller's name and session; and once it
    has returned a row, the table holds that row as returned, in progress
    and under the caller's name and time. *)
Definition call_kept (t : table) (c : string * session) (x : Concurrent.txn)
    : Prop :=
  match x with
  | Concurrent.begun w ses => (w, ses) = c
  | Concurrent.locked w ses _ => (w, ses) = c
  | Concurrent.committed (Some r) =>
      find_by_id (id r) t = Some r
      /\ status r = in_progress
      /\ claimed_by r = Some (fst c)
      /\ claimed_at r = Some (now (snd c))
  | Concurrent.committed None => True
  end.

Definition calls_kept (callers : list (string * session))
    (s : Concurrent.conc) : Prop :=
  Forall2 (call_kept (Concurrent.rows s)) callers (Concurrent.txns s).

(** The positions the first [min n m] of [n] sequential claims fill. *)
Definition expected_results (ids : list uuid) (n : nat) : list (option uuid) :=
  map Some ids ++ repeat None (n - List.length ids).

End Keeping.

(* ================================================================== *)
(** * More sample data *)
(* ================================================================== *)

Module MoreSamples.
Import Schema Js Outside Lifecycle.
Local Open Scope string_scope.

(** A world where the remediation tool edits a file and every command
    succeeds; [gh] prints the link of the pull request. *)
Definition changes_made : Collaborators unit :=
  {| execSync := fun cmd w =>
       if cmd =? "git status --porcelain" then (inr (" M index.html" ++ nl), w)
       else if prefix "gh pr create" cmd
            then (inr ("https://github.com/o/r/pull/7" ++ nl), w)
            else (inr "", w);
     spawn_codex := fun _ w => (close (Some 0%Z), w);
     supabase := fun w => (fulfilled, w);
     gen_random_uuid := fun w => ("n", w);
     clock := fun _ => 10%Z;
     JSON_stringify := fun _ => "{}" |}.

(** A world where every promise of the store client is rejected. *)
Definition store_rejects : Collaborators unit :=
  {| execSync := fun _ w => (inr "", w);
     spawn_codex := fun _ w => (close (Some 0%Z), w);
     supabase := fun w => (rejected (mk_Error "fetch failed"), w);
     gen_random_uuid := fun w => ("n", w);
     clock := fun _ => 10%Z;
     JSON_stringify := fun _ => "{}" |}.

(** A world where codex exits with code 1. *)
Definition codex_fails : Collaborators unit :=
  {| execSync := fun _ w => (inr "", w);
     spawn_codex := fun _ w => (close (Some 1%Z), w);
     supabase := fun w => (fulfilled, w);
     gen_random_uuid := fun w => ("n", w);
     clock := fun _ => 10%Z;
     JSON_stringify := fun _ => "{}" |}.

(** A scan whose extraction call fails. *)
Definition extraction_fails : Scanner.Detector unit :=
  {| Scanner.spawn_scan := fun _ w => (Scanner.scan_close "done" (Some 0%Z), w);
     Scanner.openai_extract := fun _ w => (inl (mk_Error "rate limited"), w);
     Scanner.JSON_parse_issues := fun _ => inr None;
     Scanner.text_of_json := fun _ => "" |}.

(** A scan whose codex child exits with code 1 and still yields a
    finding. *)
Definition exits_nonzero : Scanner.Detector unit :=
  {| Scanner.spawn_scan := fun _ w => (Scanner.scan_close "done" (Some 1%Z), w);
     Scanner.openai_extract := fun _ w => (inr (Some "{...}"), w);
     Scanner.JSON_parse_issues := fun _ => inr (Some [Samples.known_finding]);
     Scanner.text_of_json := fun _ => "" |}.




(** The stored function called directly, past the board's buttons, on
    an issue that has a pull request. *)
Definition direct_approve : list (session * op) :=
  [ (Samples.at_ 5, op_approve "a") ].

Definition failed_issue : issues :=
  mk_issues "f" 5%Z 9%Z None "Broken link" None None failed
    None (Some "Error: Command failed: git fetch origin") None None (Some 6%Z)
    (Some "worker-1") (Some 7%Z).

(** A table with a reported, an approved and a failed issue. *)
Definition mixed_table : table :=
  [Samples.known_issue; Samples.issue_b; failed_issue; Samples.issue_c].

End MoreSamples.

(* ================================================================== *)
(** * Properties of the store *)
(* ================================================================== *)

Module SchemaFacts.
Import Schema.

Lemma insert_by_created_at_In x y l :
  In y (insert_by_created_at x l) <-> y = x \/ In y l.
Proof.
  induction l as [|z l IH]; simpl.
  - intuition.
  - destruct (created_at x <=? created_at z)%Z; simpl.
    + intuition.
    + rewrite IH. intuition.
Qed.

Lemma order_by_created_at_In y l :
  In y (order_by_created_at l) <-> In y l.
Proof.
  induction l as [|x l IH]; simpl.
  - reflexivity.
  - rewrite insert_by_created_at_In, IH. intuition.
Qed.

Lemma insert_by_created_at_ascending x l :
  ascending l -> ascending (insert_by_created_at x l).
Proof.
  induction l as [|z l IH]; simpl; intros Hs.
  - split; [intros y []|exact I].
  - destruct Hs as [Hz Hl].
    destruct (created_at x <=? created_at z)%Z eqn:E.
    + apply Z.leb_le in E. simpl. split; [|split; assumption].
      intros y [<-|Hy]; [exact E|]. specialize (Hz y Hy). lia.
    + apply Z.leb_gt in E. simpl. split; [|apply IH; exact Hl].
      intros y Hy. apply insert_by_created_at_In in Hy.
      destruct Hy as [-> | Hy]; [lia|apply Hz; exact Hy].
Qed.

Lemma order_by_created_at_ascending l : ascending (order_by_created_at l).
Proof.
  induction l as [|x l IH]; simpl.
  - exact I.
  - apply insert_by_created_at_ascending, IH.
Qed.

Lemma ascending_filter f l : ascending l -> ascending (filter f l).
Proof.
  induction l as [|x l IH]; simpl; intros Hs; [exact I|].
  destruct Hs as [Hx Hl]. destruct (f x); simpl.
  - split; [|apply IH; exact Hl].
    intros y Hy. apply filter_In in Hy. apply Hx, Hy.
  - apply IH, Hl.
Qed.

(** The first row of an ascending list is a member with the least
    creation time. *)
Lemma ascending_head r rest :
  ascending (r :: rest) ->
  forall x, In x (r :: rest) -> (created_at r <= created_at x)%Z.
Proof.
  intros [Hr _] x [<-|Hx]; [lia|apply Hr, Hx].
Qed.

Lemma id_eqb_refl (r : issues) : (id r =? id r)%string = true.
Proof. apply String.eqb_refl. Qed.

(** Under the primary key, an update [where id = i] rewrites the one row
    that has this id and nothing else. *)
Lemma sql_update_by_id ses set_ l1 r l2 :
  NoDup (map id (l1 ++ r :: l2)) ->
  sql_update ses (fun x => (id x =? id r)%string) set_ (l1 ++ r :: l2)
  = (l1 ++ moddatetime ses (set_ r) :: l2, [moddatetime ses (set_ r)]).
Proof.
  intros PK. unfold sql_update.
  assert (H1 : forall x, In x l1 -> (id x =? id r)%string = false).
  { intros x Hx. apply String.eqb_neq. intros E.
    rewrite map_app in PK. simpl in PK. apply NoDup_remove_2 in PK.
    apply PK. apply in_or_app. left. rewrite <- E. apply in_map, Hx. }
  assert (H2 : forall x, In x l2 -> (id x =? id r)%string = false).
  { intros x Hx. apply String.eqb_neq. intros E.
    rewrite map_app in PK. simpl in PK. apply NoDup_remove_2 in PK.
    apply PK. apply in_or_app. right. rewrite <- E. apply in_map, Hx. }
  assert (M : forall l, (forall x, In x l -> (id x =? id r)%string = false) ->
     map (fun x => if (id x =? id r)%string then moddatetime ses (set_ x) else x) l = l
     /\ filter (fun x => (id x =? id r)%string) l = []).
  { induction l as [|a l IH]; simpl; intros Hl; [split; reflexivity|].
    rewrite (Hl a (or_introl eq_refl)).
    destruct IH as [IHa IHb]; [intros x Hx; apply Hl; right; exact Hx|].
    rewrite IHa, IHb. split; reflexivity. }
  destruct (M l1 H1) as [M1 F1]. destruct (M l2 H2) as [M2 F2].
  rewrite map_app, filter_app. simpl. rewrite id_eqb_refl.
  rewrite M1, M2, F1, F2. reflexivity.
Qed.

(** An update whose condition holds for no row changes nothing. *)
Lemma sql_update_none ses where_ set_ t :
  (forall x, In x t -> where_ x = false) ->
  sql_update ses where_ set_ t = (t, []).
Proof.
  intros H. unfold sql_update.
  induction t as [|a t IH]; simpl; [reflexivity|].
  rewrite (H a (or_introl eq_refl)).
  injection (IH (fun x Hx => H x (or_intror Hx))) as E1 E2.
  rewrite E1, E2. reflexivity.
Qed.

Lemma approved_filter_In r t :
  In r (filter (fun x => (status x =? approved)%string) t)
  <-> In r t /\ status r = approved.
Proof. rewrite filter_In, String.eqb_eq. reflexivity. Qed.

(** What [claim_issue] does when its subquery selects nothing. *)
Lemma claim_issue_nothing worker_id ses t :
  order_by_created_at (filter (fun x => (status x =? approved)%string) t) = [] ->
  claim_issue worker_id ses t = (None, t).
Proof.
  intros E. unfold claim_issue. rewrite E.
  change (limit 1 []) with (@nil issues).
  rewrite sql_update_none by (intros; reflexivity). reflexivity.
Qed.

(** What [claim_issue] does when its subquery selects the row [r]. *)
Lemma claim_issue_selected worker_id ses t r rest :
  NoDup (map id t) ->
  order_by_created_at (filter (fun x => (status x =? approved)%string) t)
    = r :: rest ->
  exists l1 l2,
    t = l1 ++ r :: l2 /\
    claim_issue worker_id ses t
    = (Some (claimed worker_id ses r), l1 ++ claimed worker_id ses r :: l2).
Proof.
  intros PK E.
  assert (Hin : In r t).
  { assert (H : In r (r :: rest)) by (left; reflexivity).
    rewrite <- E in H. apply (proj1 (order_by_created_at_In _ _)) in H.
    apply (proj1 (approved_filter_In _ _)) in H. apply H. }
  apply in_split in Hin. destruct Hin as (l1 & l2 & ->).
  exists l1, l2. split; [reflexivity|].
  unfold claim_issue. rewrite E. simpl limit. unfold id_eq_scalar.
  rewrite (sql_update_by_id ses _ l1 r l2 PK). reflexivity.
Qed.

(** ** C1 *)

(** C1. A call [claim_issue(worker_id)] on a table with at least one
    ['approved'] row picks exactly one such row, one whose [created_at] is
    least among the approved rows, sets its status to ['in_progress'],
    stamps [claimed_by] with the caller's identity and [claimed_at] with
    [now()], leaves every other row as it was, and returns the row as
    updated; on a table with no approved row it returns none and the table
    is unchanged. *)
Theorem claim_issue_takes_oldest_approved
    (worker_id : string) (ses : session) (t : table)
    (PK : NoDup (map id t)) :
  ((exists x, In x t /\ status x = approved) ->
   exists l1 r l2,
     t = l1 ++ r :: l2 /\
     status r = approved /\
     (forall x, In x t -> status x = approved ->
                (created_at r <= created_at x)%Z) /\
     claim_issue worker_id ses t
     = (Some (claimed worker_id ses r), l1 ++ claimed worker_id ses r :: l2) /\
     id (claimed worker_id ses r) = id r /\
     status (claimed worker_id ses r) = in_progress /\
     claimed_by (claimed worker_id ses r) = Some worker_id /\
     claimed_at (claimed worker_id ses r) = Some (now ses))
  /\
  ((forall x, In x t -> status x <> approved) ->
   claim_issue worker_id ses t = (None, t)).
Proof.
  split.
  - intros (x & Hx & Hs).
    destruct (order_by_created_at
                (filter (fun x => (status x =? approved)%string) t))
      as [|r rest] eqn:E.
    + exfalso.
      assert (H : In x (order_by_created_at
                (filter (fun x => (status x =? approved)%string) t))).
      { apply order_by_created_at_In, approved_filter_In. split; assumption. }
      rewrite E in H. exact H.
    + destruct (claim_issue_selected worker_id ses t r rest PK E)
        as (l1 & l2 & Et & Ec).
      exists l1, r, l2.
      assert (Hr : In r (r :: rest)) by (left; reflexivity).
      rewrite <- E in Hr. apply (proj1 (order_by_created_at_In _ _)) in Hr.
      apply (proj1 (approved_filter_In _ _)) in Hr. destruct Hr as [_ Hr].
      repeat split; try assumption; try reflexivity.
      intros y Hy Hys.
      pose proof (order_by_created_at_ascending
                    (filter (fun x => (status x =? approved)%string) t)) as A.
      rewrite E in A. apply (ascending_head r rest A).
      rewrite <- E. apply order_by_created_at_In, approved_filter_In.
      split; assumption.
  - intros Hnone. unfold claim_issue.
    assert (F : filter (fun x => (status x =? approved)%string) t = []).
    { induction t as [|a t IH]; simpl; [reflexivity|].
      destruct (status a =? approved)%string eqn:Ea.
      - apply String.eqb_eq in Ea. exfalso.
        apply (Hnone a (or_introl eq_refl) Ea).
      - apply IH.
        + inversion PK; assumption.
        + intros y Hy. apply Hnone. right. exact Hy. }
    rewrite F. change (limit 1 (order_by_created_at [])) with (@nil issues).
    rewrite sql_update_none by (intros; reflexivity). reflexivity.
Qed.

(** The primary key survives an update: no statement assigns [id]. *)
Lemma sql_update_ids ses where_ set_ t :
  (forall r, id (set_ r) = id r) ->
  map id (fst (sql_update ses where_ set_ t)) = map id t.
Proof.
  intros H. unfold sql_update. simpl. rewrite map_map.
  apply map_ext. intros r. destruct (where_ r); [apply H|reflexivity].
Qed.

(** When one approved row is strictly older than every other approved
    row, that is the row [claim_issue] takes. *)
Lemma claim_issue_strictly_oldest worker_id ses t r :
  NoDup (map id t) ->
  In r t -> status r = approved ->
  (forall x, In x t -> status x = approved ->
             x = r \/ (created_at r < created_at x)%Z) ->
  exists l1 l2,
    t = l1 ++ r :: l2 /\
    claim_issue worker_id ses t
    = (Some (claimed worker_id ses r), l1 ++ claimed worker_id ses r :: l2).
Proof.
  intros PK Hr Hs Hmin.
  destruct (order_by_created_at
              (filter (fun x => (status x =? approved)%string) t))
    as [|r0 rest] eqn:E.
  - exfalso.
    assert (H : In r (order_by_created_at
              (filter (fun x => (status x =? approved)%string) t))).
    { apply order_by_created_at_In, approved_filter_In. split; assumption. }
    rewrite E in H. exact H.
  - assert (H0 : In r0 t /\ status r0 = approved).
    { apply approved_filter_In, order_by_created_at_In.
      rewrite E. left. reflexivity. }
    assert (Hle : (created_at r0 <= created_at r)%Z).
    { pose proof (order_by_created_at_ascending
                    (filter (fun x => (status x =? approved)%string) t)) as A.
      rewrite E in A. apply (ascending_head r0 rest A).
      rewrite <- E. apply order_by_created_at_In, approved_filter_In.
      split; assumption. }
    destruct (Hmin r0 (proj1 H0) (proj2 H0)) as [-> | Hlt]; [|lia].
    apply (claim_issue_selected worker_id ses t r rest PK E).
Qed.

Lemma claimed_not_approved worker_id ses r :
  status (claimed worker_id ses r) <> approved.
Proof. simpl. discriminate. Qed.

(** After the claim of [r] the other rows are still there, and the
    approved rows are the former ones without [r]. *)
Lemma after_claim_rows worker_id ses l1 r l2 :
  NoDup (map id (l1 ++ r :: l2)) ->
  NoDup (map id (l1 ++ claimed worker_id ses r :: l2))
  /\ (forall x, In x (l1 ++ r :: l2) -> x <> r ->
                In x (l1 ++ claimed worker_id ses r :: l2))
  /\ (forall x, In x (l1 ++ claimed worker_id ses r :: l2) ->
                status x = approved ->
                In x (l1 ++ r :: l2) /\ x <> r).
Proof.
  intros PK. split; [|split].
  - rewrite map_app in *. simpl in *. exact PK.
  - intros x Hx Hne. apply in_app_or in Hx. apply in_or_app.
    destruct Hx as [Hx|[Hx|Hx]]; [left; exact Hx|congruence|right; right; exact Hx].
  - intros x Hx Hs. apply in_app_or in Hx.
    assert (Hnot : forall y, In y l1 \/ In y l2 -> y <> r).
    { intros y Hy ->. rewrite map_app in PK. simpl in PK.
      apply NoDup_remove_2 in PK. apply PK. apply in_or_app.
      destruct Hy as [Hy|Hy]; [left|right]; apply in_map; exact Hy. }
    destruct Hx as [Hx|[Hx|Hx]].
    + split; [apply in_or_app; left; exact Hx|apply Hnot; left; exact Hx].
    + subst x. exfalso. apply (claimed_not_approved _ _ _ Hs).
    + split; [apply in_or_app; right; right; exact Hx|apply Hnot; right; exact Hx].
Qed.

(** ** C4 *)

(** C4, as the code has it.  Three approved rows with creation times
    c1 < c2 < c3, and no other approved row: three claims made one after
    the other return them in the order of their creation, whatever their
    approval times are. *)
Theorem sequential_claims_follow_creation_order
    (t : table) (r1 r2 r3 : issues) (c1 c2 c3 : string * session)
    (PK : NoDup (map id t))
    (H1 : In r1 t) (H2 : In r2 t) (H3 : In r3 t)
    (A1 : status r1 = approved) (A2 : status r2 = approved)
    (A3 : status r3 = approved)
    (Only : forall x, In x t -> status x = approved ->
                      x = r1 \/ x = r2 \/ x = r3)
    (Created : (created_at r1 < created_at r2 < created_at r3)%Z) :
  fst (claim_sequence [c1; c2; c3] t)
  = [Some (id r1); Some (id r2); Some (id r3)].
Proof.
  destruct c1 as [w1 s1], c2 as [w2 s2], c3 as [w3 s3].
  assert (N12 : r2 <> r1) by (intros ->; lia).
  assert (N13 : r3 <> r1) by (intros ->; lia).
  assert (N23 : r3 <> r2) by (intros ->; lia).
  (* first claim *)
  destruct (claim_issue_strictly_oldest w1 s1 t r1 PK H1 A1)
    as (l1 & l2 & Et & E1).
  { intros x Hx Hs. destruct (Only x Hx Hs) as [-> | [-> | ->]];
      [left; reflexivity|right; lia|right; lia]. }
  subst t.
  destruct (after_claim_rows w1 s1 l1 r1 l2 PK) as (PK1 & Keep1 & Appr1).
  set (t1 := l1 ++ claimed w1 s1 r1 :: l2) in *.
  (* second claim *)
  destruct (claim_issue_strictly_oldest w2 s2 t1 r2 PK1
              (Keep1 r2 H2 N12) A2)
    as (m1 & m2 & Et1 & E2).
  { intros x Hx Hs. destruct (Appr1 x Hx Hs) as [Hx0 Hne].
    destruct (Only x Hx0 Hs) as [-> | [-> | ->]];
      [congruence|left; reflexivity|right; lia]. }
  assert (H3' : In r3 t1) by (apply Keep1; assumption).
  rewrite Et1 in PK1, H3', Appr1.
  destruct (after_claim_rows w2 s2 m1 r2 m2 PK1) as (PK2 & Keep2 & Appr2).
  (* third claim *)
  destruct (claim_issue_strictly_oldest w3 s3 _ r3 PK2
              (Keep2 r3 H3' N23) A3)
    as (n1 & n2 & Et2 & E3).
  { intros x Hx Hs. destruct (Appr2 x Hx Hs) as [Hx1 Hne2].
    destruct (Appr1 x Hx1 Hs) as [Hx0 Hne1].
    destruct (Only x Hx0 Hs) as [-> | [-> | ->]];
      [congruence|congruence|left; reflexivity]. }
  cbn [claim_sequence]. rewrite E1. cbv beta iota.
  rewrite E2. cbv beta iota. rewrite E3. reflexivity.
Qed.

Ltac distinct_ids :=
  vm_compute; repeat constructor; simpl; intuition discriminate.

Lemma claim_issue_takes_oldest_approved_witness :
  exists l1 r l2,
    Samples.backlog = l1 ++ r :: l2 /\
    status r = approved /\
    (forall x, In x Samples.backlog -> status x = approved ->
               (created_at r <= created_at x)%Z) /\
    claim_issue "worker-1" (Samples.at_ 7) Samples.backlog
    = (Some (claimed "worker-1" (Samples.at_ 7) r),
       l1 ++ claimed "worker-1" (Samples.at_ 7) r :: l2) /\
    id (claimed "worker-1" (Samples.at_ 7) r) = id r /\
    status (claimed "worker-1" (Samples.at_ 7) r) = in_progress /\
    claimed_by (claimed "worker-1" (Samples.at_ 7) r) = Some "worker-1"%string /\
    claimed_at (claimed "worker-1" (Samples.at_ 7) r) = Some 7%Z.
Proof.
  assert (PK : NoDup (map id Samples.backlog)) by distinct_ids.
  apply (proj1 (claim_issue_takes_oldest_approved
                  "worker-1" (Samples.at_ 7) Samples.backlog PK)).
  exists Samples.issue_a. split; [left; reflexivity|reflexivity].
Defined.

(** Counterexample to C4 as stated: c was approved first, then b, then
    a, and the claims return a, then b, then c. *)
Lemma claims_ignore_approval_order :
  map (fun r => (id r, status r, approved_at r)) Samples.backlog
  = [ ("a"%string, approved, Some 6%Z);
      ("b"%string, approved, Some 5%Z);
      ("c"%string, approved, Some 4%Z) ]
  /\ fst (claim_sequence Samples.three_callers Samples.backlog)
     = [Some "a"%string; Some "b"%string; Some "c"%string]
  /\ fst (claim_sequence Samples.three_callers Samples.backlog)
     <> [Some "c"%string; Some "b"%string; Some "a"%string].
Proof.
  split; [reflexivity|]. split; [reflexivity|].
  vm_compute. discriminate.
Qed.

Lemma sequential_claims_follow_creation_order_witness :
  fst (claim_sequence Samples.three_callers Samples.backlog)
  = [Some (id Samples.issue_a); Some (id Samples.issue_b);
     Some (id Samples.issue_c)].
Proof.
  assert (PK : NoDup (map id Samples.backlog)) by distinct_ids.
  apply (sequential_claims_follow_creation_order
           Samples.backlog Samples.issue_a Samples.issue_b Samples.issue_c
           _ _ _ PK).
  - left; reflexivity.
  - right; left; reflexivity.
  - right; right; left; reflexivity.
  - reflexivity.
  - reflexivity.
  - reflexivity.
  - intros x [<- | [<- | [<- | []]]] _; auto.
  - simpl. lia.
Defined.

(** ** C8 *)

(** The row an accepted insert appends. *)
Lemma insert_accepted u ses p t t' :
  insert u ses p t = inr t' ->
  exists r,
    t' = t ++ [r] /\ id r = u /\ p_title p = Some (title r)
    /\ status r = column_default reported (p_status p)
    /\ pr_url r = None /\ error_message r = None
    /\ existsb (fun x => (id x =? u)%string) t = false.
Proof.
  unfold insert. destruct (p_title p) as [ti|]; [|discriminate].
  unfold set_issue_creator. cbn [created_by id set_created_by].
  destruct (existsb _ t) eqn:E; [discriminate|].
  intros [= <-]. eexists. split; [reflexivity|].
  repeat split; reflexivity.
Qed.

(** Counterexample to C8 as stated: the store accepts a draft whose
    title is the empty string and creates the record. *)
Lemma insert_accepts_empty_title :
  exists r,
    insert "a"%string (Samples.at_ 1)
      (mk_payload None (Some ""%string) None None (Some reported)) []
    = inr [r]
    /\ title r = ""%string /\ status r = reported.
Proof. eexists. split; [reflexivity|]. split; reflexivity. Qed.

(** C8, as the code has it.  The store rejects a draft that has no title
    with a not-null violation and creates no record; a draft with a title,
    the empty string included, is accepted whenever the generated id is
    new; an accepted draft appends one record, whose status is the draft's,
    or ['reported'] when the draft has none; and the drafts the scanner and
    the portal form build always carry ['reported']. *)
Theorem insert_checks_title_presence_only
    (u : uuid) (ses : session) (p : payload) (t : table) :
  (p_title p = None -> insert u ses p t = inl (not_null_violation "title"))
  /\ (forall ti, p_title p = Some ti ->
       existsb (fun x => (id x =? u)%string) t = false ->
       exists r, insert u ses p t = inr (t ++ [r]) /\ title r = ti)
  /\ (forall t', insert u ses p t = inr t' ->
       exists r, t' = t ++ [r] /\ id r = u
                 /\ status r = column_default reported (p_status p))
  /\ (forall (World : Type) (D : Scanner.Detector World)
             (q : Scanner.js_payload),
        p_status (Scanner.to_payload q) = Some reported)
  /\ (forall a b c d, p_status (Portal.form_payload a b c d) = Some reported).
Proof.
  split; [|split; [|split; [|split]]].
  - intros E. unfold insert. rewrite E. reflexivity.
  - intros ti E F. unfold insert. rewrite E.
    unfold set_issue_creator. cbn [created_by id set_created_by]. rewrite F.
    eexists. split; reflexivity.
  - intros t' E. destruct (insert_accepted u ses p t t' E)
      as (r & -> & Hi & _ & Hs & _).
    exists r. repeat split; assumption.
  - intros World D q. reflexivity.
  - intros a b c d. reflexivity.
Qed.

Lemma insert_checks_title_presence_only_witness :
  insert "a"%string (Samples.at_ 1) (mk_payload None None None None None) []
  = inl (not_null_violation "title")
  /\ exists r, insert "b"%string (Samples.at_ 1) (Samples.draft "") [] = inr ([] ++ [r])
               /\ title r = ""%string.
Proof.
  split.
  - apply (proj1 (insert_checks_title_presence_only
                    "a"%string (Samples.at_ 1) (mk_payload None None None None None) [])).
    reflexivity.
  - apply (proj1 (proj2 (insert_checks_title_presence_only
                    "b"%string (Samples.at_ 1) (Samples.draft "") [])));
      reflexivity.
Defined.

End SchemaFacts.

(* ================================================================== *)
(** * Properties of the lifecycle *)
(* ================================================================== *)

Module LifecycleFacts.
Import Schema Js Lifecycle SchemaFacts.

(** ** Rows and their ids *)

Lemma find_by_id_some i t r :
  find_by_id i t = Some r -> In r t /\ id r = i.
Proof.
  unfold find_by_id. intros H. apply find_some in H.
  destruct H as [H1 H2]. apply String.eqb_eq in H2. split; assumption.
Qed.

Lemma find_by_id_In t r :
  NoDup (map id t) -> In r t -> find_by_id (id r) t = Some r.
Proof.
  induction t as [|a t IH]; simpl; intros PK Hin; [contradiction|].
  inversion PK as [|? ? Hnot PK']; subst.
  destruct Hin as [-> | Hin].
  - rewrite String.eqb_refl. reflexivity.
  - destruct (id a =? id r)%string eqn:E.
    + apply String.eqb_eq in E. exfalso. apply Hnot. rewrite E.
      apply in_map, Hin.
    + apply IH; assumption.
Qed.

Lemma find_by_id_none i t :
  existsb (fun x => (id x =? i)%string) t = false -> find_by_id i t = None.
Proof.
  unfold find_by_id. induction t as [|a t IH]; simpl; [reflexivity|].
  destruct (id a =? i)%string; simpl; [discriminate|exact IH].
Qed.

Lemma existsb_id_In i t :
  existsb (fun x => (id x =? i)%string) t = false -> ~ In i (map id t).
Proof.
  induction t as [|a t IH]; simpl; [tauto|].
  destruct (id a =? i)%string eqn:E; simpl; [discriminate|].
  apply String.eqb_neq in E. intros H [Ha | Hi]; [congruence|].
  apply (IH H Hi).
Qed.

(** An update by id, read through the primary key. *)
Lemma find_by_id_update j i g t :
  (forall r, id (g r) = id r) ->
  find_by_id j (map (fun r => if (id r =? i)%string then g r else r) t)
  = if (j =? i)%string then option_map g (find_by_id i t)
    else find_by_id j t.
Proof.
  intros Hg. unfold find_by_id.
  induction t as [|a t IH]; simpl.
  - destruct (j =? i)%string; reflexivity.
  - destruct (id a =? i)%string eqn:Ea.
    + rewrite Hg. apply String.eqb_eq in Ea.
      destruct (j =? i)%string eqn:Ej.
      * apply String.eqb_eq in Ej. subst j. rewrite Ea, String.eqb_refl.
        reflexivity.
      * rewrite Ea. rewrite String.eqb_sym, Ej. exact IH.
    + destruct (j =? i)%string eqn:Ej.
      * apply String.eqb_eq in Ej. subst j. rewrite Ea. exact IH.
      * destruct (id a =? j)%string; [reflexivity|exact IH].
Qed.

Lemma returning_by_id i g t :
  (forall r, id (g r) = id r) ->
  option_map id
    (returns_issues (map g (filter (fun r => (id r =? i)%string) t)))
  = option_map (fun _ => i) (find_by_id i t).
Proof.
  intros Hg. unfold find_by_id, returns_issues.
  induction t as [|a t IH]; simpl; [reflexivity|].
  destruct (id a =? i)%string eqn:Ea; simpl; [|exact IH].
  rewrite Hg. apply String.eqb_eq in Ea. rewrite Ea. reflexivity.
Qed.

Lemma update_rows i g t r' :
  In r' (map (fun r => if (id r =? i)%string then g r else r) t) ->
  (In r' t /\ id r' <> i) \/ (exists r, In r t /\ id r = i /\ r' = g r).
Proof.
  intros H. apply in_map_iff in H. destruct H as (r & E & Hr).
  destruct (id r =? i)%string eqn:Ei.
  - right. exists r. apply String.eqb_eq in Ei. repeat split; auto.
  - left. subst r'. apply String.eqb_neq in Ei. split; assumption.
Qed.

Lemma find_by_id_app_new i u t new :
  id new = u ->
  find_by_id u t = None ->
  find_by_id i (t ++ [new])
  = if (i =? u)%string then Some new else find_by_id i t.
Proof.
  intros Hn Hfresh. unfold find_by_id in *.
  induction t as [|a t IH]; simpl in *.
  - rewrite Hn, String.eqb_sym. reflexivity.
  - destruct (id a =? u)%string eqn:Ea; [discriminate|].
    destruct (id a =? i)%string eqn:Ei.
    + apply String.eqb_eq in Ei. subst i. rewrite Ea. reflexivity.
    + apply IH, Hfresh.
Qed.

(** ** One operation *)

Lemma holds_In i l : holds i l = true <-> In i l.
Proof.
  unfold holds. rewrite existsb_exists. split.
  - intros (x & Hx & E). apply String.eqb_eq in E. subst. exact Hx.
  - intros H. exists i. split; [exact H|apply String.eqb_refl].
Qed.

(** The effect of an update of the row [i0], whose status is [st0], by
    assignments [g] that take it to status [st1]. *)
Lemma update_effect s i0 g st0 st1 fl' :
  well_formed s ->
  (forall r, id (g r) = id r) ->
  status_of i0 (tbl s) = Some st0 ->
  (forall r, status r = st0 -> pr_url_iff_pr_raised r = true ->
             status (g r) = st1 /\ pr_url_iff_pr_raised (g r) = true) ->
  (forall i, holds i fl' = true ->
             (i = i0 /\ st1 = in_progress)
             \/ (holds i (in_flight s) = true /\ i <> i0)) ->
  let t' := map (fun r => if (id r =? i0)%string then g r else r) (tbl s) in
  well_formed (mk_state t' fl')
  /\ status_of i0 t' = Some st1
  /\ (forall j, j <> i0 -> status_of j t' = status_of j (tbl s)).
Proof.
  intros (PK & Fl & Pr) Hg H0 Hst Hfl t'.
  unfold status_of in H0.
  destruct (find_by_id i0 (tbl s)) as [r0|] eqn:F0; [|discriminate].
  injection H0 as H0.
  destruct (find_by_id_some _ _ _ F0) as [In0 Id0].
  assert (S0 : status_of i0 t' = Some st1).
  { unfold status_of, t'. rewrite find_by_id_update by exact Hg.
    rewrite String.eqb_refl, F0. simpl.
    destruct (Hst r0 H0 (Pr r0 In0)) as [-> _]. reflexivity. }
  assert (Sj : forall j, j <> i0 -> status_of j t' = status_of j (tbl s)).
  { intros j Hj. unfold status_of, t'. rewrite find_by_id_update by exact Hg.
    apply String.eqb_neq in Hj. rewrite Hj. reflexivity. }
  split; [|split; assumption].
  split; [|split]; simpl.
  - unfold t'. rewrite map_map.
    rewrite (map_ext _ id); [exact PK|].
    intros r. destruct (id r =? i0)%string; [apply Hg|reflexivity].
  - intros i Hi. destruct (Hfl i Hi) as [[-> ->] | [Hold Hne]].
    + exact S0.
    + rewrite Sj by exact Hne. apply Fl, Hold.
  - intros r' Hr'. apply update_rows in Hr'.
    destruct Hr' as [[Hin _] | (r & Hin & Hid & ->)].
    + apply Pr, Hin.
    + assert (r = r0).
      { pose proof (find_by_id_In _ _ PK Hin) as E. rewrite Hid, F0 in E.
        congruence. }
      subst r. apply (Hst r0 H0 (Pr r0 In0)).
Qed.

Lemma approve_offered_status st :
  existsb (fun a => match a with Portal.approve => true | _ => false end)
    (Portal.buttons st) = true ->
  st = reported \/ st = failed.
Proof.
  unfold Portal.buttons.
  destruct (st =? "reported")%string eqn:E1.
  - apply String.eqb_eq in E1. left. exact E1.
  - destruct (st =? "failed")%string eqn:E2.
    + apply String.eqb_eq in E2. right. exact E2.
    + simpl. discriminate.
Qed.

Lemma reject_offered_status st :
  existsb (fun a => match a with Portal.reject => true | _ => false end)
    (Portal.buttons st) = true ->
  st = reported.
Proof.
  unfold Portal.buttons.
  destruct (st =? "reported")%string eqn:E1.
  - apply String.eqb_eq in E1. intros _. exact E1.
  - destruct (st =? "failed")%string eqn:E2; simpl; discriminate.
Qed.

Lemma pr_url_unset r :
  pr_url_iff_pr_raised r = true -> status r <> pr_raised -> pr_url r = None.
Proof.
  unfold pr_url_iff_pr_raised. intros H Hne.
  apply String.eqb_neq in Hne. rewrite Hne in H.
  destruct (pr_url r); [discriminate|reflexivity].
Qed.

Lemma update_effect_on s i0 g st0 st1 fl' :
  well_formed s ->
  (forall r, id (g r) = id r) ->
  status_of i0 (tbl s) = Some st0 ->
  (forall r, status r = st0 -> pr_url_iff_pr_raised r = true ->
             status (g r) = st1 /\ pr_url_iff_pr_raised (g r) = true) ->
  (forall i, holds i fl' = true ->
             (i = i0 /\ st1 = in_progress)
             \/ (holds i (in_flight s) = true /\ i <> i0)) ->
  allowed st0 st1 = true ->
  let s' := mk_state
              (map (fun r => if (id r =? i0)%string then g r else r) (tbl s))
              fl' in
  well_formed s' /\ effect s s' (Some i0).
Proof.
  intros W Hg H0 Hst Hfl Hal s'.
  destruct (update_effect s i0 g st0 st1 fl' W Hg H0 Hst Hfl)
    as (W' & S0 & Sj).
  split; [exact W'|].
  intros i. destruct (string_dec i i0) as [-> | Hne].
  - left. split; [reflexivity|]. exists st1. split; [exact S0|].
    rewrite H0. exact Hal.
  - right. split; [congruence|]. apply Sj, Hne.
Qed.

Lemma state_eta s : mk_state (tbl s) (in_flight s) = s.
Proof. destruct s; reflexivity. Qed.

Lemma effect_nothing s : effect s s None.
Proof. intros i. right. split; [discriminate|reflexivity]. Qed.

Lemma insert_effect ses u p s :
  well_formed s -> offered (op_insert u p) s = true ->
  well_formed (step ses (op_insert u p) s)
  /\ effect s (step ses (op_insert u p) s) (written ses (op_insert u p) s).
Proof.
  intros W Off. pose proof W as (PK & Fl & Pr).
  cbn [step written].
  destruct (insert u ses p (tbl s)) as [e|t'] eqn:E.
  - split; [exact W|apply effect_nothing].
  - destruct (insert_accepted _ _ _ _ _ E)
      as (r & -> & Hid & _ & Hst & Hpr & _ & Hfresh).
    assert (Hrep : status r = reported).
    { rewrite Hst. cbn [offered] in Off.
      destruct (p_status p) as [st|]; [|reflexivity].
      apply String.eqb_eq in Off. exact Off. }
    pose proof (find_by_id_none _ _ Hfresh) as Fnone.
    assert (Find : forall i, status_of i (tbl s ++ [r])
                = if (i =? u)%string then Some reported
                  else status_of i (tbl s)).
    { intros i. unfold status_of.
      rewrite (find_by_id_app_new i u (tbl s) r Hid Fnone).
      destruct (i =? u)%string; [simpl; rewrite Hrep|]; reflexivity. }
    split.
    + split; [|split]; cbn [tbl in_flight].
      * rewrite map_app. apply NoDup_app; [exact PK| |].
        -- simpl. constructor; [intros []|constructor].
        -- intros x Hx [Hx' | []]. simpl in Hx'. subst x.
           rewrite Hid in Hx. apply (existsb_id_In _ _ Hfresh Hx).
      * intros i Hi. rewrite Find.
        destruct (i =? u)%string eqn:Ei; [|apply Fl, Hi].
        apply String.eqb_eq in Ei. subst i.
        pose proof (Fl u Hi) as Hu. unfold status_of in Hu.
        rewrite Fnone in Hu. discriminate.
      * intros x Hx. apply in_app_or in Hx. destruct Hx as [Hx | [<- | []]].
        -- apply Pr, Hx.
        -- unfold pr_url_iff_pr_raised. rewrite Hpr, Hrep. reflexivity.
    + intros i. cbn [tbl]. rewrite Find.
      destruct (string_dec i u) as [-> | Hne].
      * left. split; [reflexivity|]. rewrite String.eqb_refl.
        exists reported. split; [reflexivity|].
        unfold status_of. rewrite Fnone. reflexivity.
      * right. split; [congruence|]. apply String.eqb_neq in Hne.
        rewrite Hne. reflexivity.
Qed.

Lemma in_flight_elsewhere s i i0 st0 :
  well_formed s -> status_of i0 (tbl s) = Some st0 -> st0 <> in_progress ->
  holds i (in_flight s) = true ->
  holds i (in_flight s) = true /\ i <> i0.
Proof.
  intros (_ & Fl & _) H0 Hne Hi. split; [exact Hi|].
  intros ->. rewrite (Fl i0 Hi) in H0. congruence.
Qed.

Lemma approve_effect ses i0 s :
  well_formed s -> offered (op_approve i0) s = true ->
  well_formed (step ses (op_approve i0) s)
  /\ effect s (step ses (op_approve i0) s) (written ses (op_approve i0) s).
Proof.
  intros W Off. cbn [offered] in Off.
  destruct (status_of i0 (tbl s)) as [st0|] eqn:H0; [|discriminate].
  apply approve_offered_status in Off.
  set (g := fun r => moddatetime ses
                       (set_approved (auth_uid ses) (Some (now ses))
                          (set_status approved r))).
  assert (Hw : written ses (op_approve i0) s = Some i0).
  { cbn [written]. unfold approve_issue, sql_update. cbn [fst].
    rewrite (returning_by_id i0 g) by reflexivity.
    unfold status_of in H0. destruct (find_by_id i0 (tbl s)); [reflexivity|discriminate]. }
  rewrite Hw. cbn [step]. unfold approve_issue, sql_update. cbn [snd].
  apply (update_effect_on s i0 g st0 approved (in_flight s) W).
  - reflexivity.
  - exact H0.
  - intros r Hs Hp. split; [reflexivity|].
    assert (Hn : pr_url r = None).
    { apply pr_url_unset; [exact Hp|]. rewrite Hs.
      destruct Off as [-> | ->]; discriminate. }
    unfold pr_url_iff_pr_raised, g. simpl. rewrite Hn. reflexivity.
  - intros i Hi. right. apply (in_flight_elsewhere s i i0 st0 W H0); [|exact Hi].
    destruct Off as [-> | ->]; discriminate.
  - destruct Off as [-> | ->]; reflexivity.
Qed.

Lemma reject_effect ses i0 s :
  well_formed s -> offered (op_reject i0) s = true ->
  well_formed (step ses (op_reject i0) s)
  /\ effect s (step ses (op_reject i0) s) (written ses (op_reject i0) s).
Proof.
  intros W Off. cbn [offered] in Off.
  destruct (status_of i0 (tbl s)) as [st0|] eqn:H0; [|discriminate].
  apply reject_offered_status in Off. subst st0.
  set (g := fun r => moddatetime ses (set_status rejected r)).
  assert (Hw : written ses (op_reject i0) s = Some i0).
  { cbn [written]. unfold reject_issue, sql_update. cbn [fst].
    rewrite (returning_by_id i0 g) by reflexivity.
    unfold status_of in H0. destruct (find_by_id i0 (tbl s)); [reflexivity|discriminate]. }
  rewrite Hw. cbn [step]. unfold reject_issue, sql_update. cbn [snd].
  apply (update_effect_on s i0 g reported rejected (in_flight s) W).
  - reflexivity.
  - exact H0.
  - intros r Hs Hp. split; [reflexivity|].
    assert (Hn : pr_url r = None).
    { apply pr_url_unset; [exact Hp|]. rewrite Hs. discriminate. }
    unfold pr_url_iff_pr_raised, g. simpl. rewrite Hn. reflexivity.
  - intros i Hi. right.
    apply (in_flight_elsewhere s i i0 reported W H0); [discriminate|exact Hi].
  - reflexivity.
Qed.

Lemma finish_effect ses i0 o s :
  well_formed s ->
  well_formed (step ses (op_finish i0 o) s)
  /\ effect s (step ses (op_finish i0 o) s) (written ses (op_finish i0 o) s).
Proof.
  intros W. pose proof W as (PK & Fl & Pr). cbn [step written].
  destruct (holds i0 (in_flight s)) eqn:Hh;
    [|split; [exact W|apply effect_nothing]].
  pose proof (Fl i0 Hh) as H0.
  assert (Hw : option_map id (find_by_id i0 (tbl s)) = Some i0).
  { unfold status_of in H0.
    destruct (find_by_id i0 (tbl s)) as [r0|] eqn:F0; [|discriminate].
    simpl. f_equal. apply (find_by_id_some _ _ _ F0). }
  rewrite Hw. unfold update_eq_id, sql_update. cbn [fst].
  set (fl' := filter (fun j => negb (i0 =? j)%string) (in_flight s)).
  assert (Hfl : forall st1 i, holds i fl' = true ->
             (i = i0 /\ st1 = in_progress)
             \/ (holds i (in_flight s) = true /\ i <> i0)).
  { intros st1 i Hi. right. apply holds_In in Hi. unfold fl' in Hi.
    apply filter_In in Hi. destruct Hi as [Hi Hne]. split.
    - apply holds_In, Hi.
    - intros ->. rewrite String.eqb_refl in Hne. discriminate. }
  assert (Hn : forall r, status r = in_progress ->
                 pr_url_iff_pr_raised r = true -> pr_url r = None).
  { intros r Hs Hp. apply pr_url_unset; [exact Hp|]. rewrite Hs. discriminate. }
  destruct o as [|prUrl|error].
  - apply (update_effect_on s i0
             (fun r => moddatetime ses (apply_patch (terminal_patch no_changes) r))
             in_progress failed fl' W); try reflexivity; try assumption.
    + intros r Hs Hp. split; [reflexivity|].
      unfold pr_url_iff_pr_raised. simpl. rewrite (Hn r Hs Hp). reflexivity.
    + apply Hfl.
  - apply (update_effect_on s i0
             (fun r => moddatetime ses
                         (apply_patch (terminal_patch (pr_created prUrl)) r))
             in_progress pr_raised fl' W); try reflexivity; try assumption.
    + intros r Hs Hp. split; reflexivity.
    + apply Hfl.
  - apply (update_effect_on s i0
             (fun r => moddatetime ses
                         (apply_patch (terminal_patch (threw error)) r))
             in_progress failed fl' W); try reflexivity; try assumption.
    + intros r Hs Hp. split; [reflexivity|].
      unfold pr_url_iff_pr_raised. simpl. rewrite (Hn r Hs Hp). reflexivity.
    + apply Hfl.
Qed.

Lemma claim_effect ses w s :
  well_formed s ->
  well_formed (step ses (op_claim w) s)
  /\ effect s (step ses (op_claim w) s) (written ses (op_claim w) s).
Proof.
  intros W. pose proof W as (PK & Fl & Pr). cbn [step written].
  destruct (order_by_created_at
              (filter (fun x => (status x =? approved)%string) (tbl s)))
    as [|r0 rest] eqn:E.
  - rewrite (claim_issue_nothing w ses (tbl s) E). cbn [fst option_map].
    rewrite state_eta. split; [exact W|apply effect_nothing].
  - assert (Hr0 : In r0 (tbl s) /\ status r0 = approved).
    { apply approved_filter_In, order_by_created_at_In.
      rewrite E. left. reflexivity. }
    destruct Hr0 as [In0 St0].
    destruct (claim_issue_selected w ses (tbl s) r0 rest PK E)
      as (l1 & l2 & Et & Ec).
    rewrite Ec. cbn [fst option_map].
    change (id (claimed w ses r0)) with (id r0).
    set (g := fun r => moddatetime ses
                (set_claimed (Some w) (Some (now ses))
                   (set_status in_progress r))).
    assert (Et' : l1 ++ claimed w ses r0 :: l2
                  = map (fun r => if (id r =? id r0)%string then g r else r)
                      (tbl s)).
    { rewrite Et in PK.
      pose proof (sql_update_by_id ses
                    (fun r => set_claimed (Some w) (Some (now ses))
                                (set_status in_progress r)) l1 r0 l2 PK) as U.
      rewrite Et. apply (f_equal fst) in U. symmetry. exact U. }
    rewrite Et'.
    assert (H0 : status_of (id r0) (tbl s) = Some approved).
    { unfold status_of. rewrite (find_by_id_In _ _ PK In0). simpl.
      rewrite St0. reflexivity. }
    apply (update_effect_on s (id r0) g approved in_progress _ W).
    + reflexivity.
    + exact H0.
    + intros r Hs Hp. split; [reflexivity|].
      assert (Hn : pr_url r = None).
      { apply pr_url_unset; [exact Hp|]. rewrite Hs. discriminate. }
      unfold pr_url_iff_pr_raised, g. simpl. rewrite Hn. reflexivity.
    + intros i Hi.
      assert (Hold : holds i (in_flight s) = true ->
                holds i (in_flight s) = true /\ i <> id r0).
      { apply (in_flight_elsewhere s i (id r0) approved W H0). discriminate. }
      destruct (truthy (id r0)); [|right; apply Hold, Hi].
      apply holds_In in Hi. destruct Hi as [<- | Hi].
      * left. split; reflexivity.
      * right. apply Hold, holds_In, Hi.
    + reflexivity.
Qed.

(** Every offered operation keeps the state well formed and changes
    statuses only along the transition table. *)
Lemma step_effect ses o s :
  well_formed s -> offered o s = true ->
  well_formed (step ses o s) /\ effect s (step ses o s) (written ses o s).
Proof.
  intros W Off. destruct o.
  - apply insert_effect; assumption.
  - apply approve_effect; assumption.
  - apply reject_effect; assumption.
  - apply claim_effect; assumption.
  - apply finish_effect; assumption.
Qed.

Lemma initial_well_formed : well_formed initial.
Proof.
  split; [constructor|]. split.
  - intros i H. discriminate.
  - intros r [].
Qed.

Lemma run_ops_well_formed ops :
  forall s, well_formed s -> all_offered ops s = true ->
            well_formed (run_ops ops s).
Proof.
  induction ops as [|[ses o] ops IH]; intros s W Off; [exact W|].
  cbn [all_offered] in Off. apply andb_prop in Off. destruct Off as [O1 O2].
  cbn [run_ops]. apply IH; [|exact O2].
  apply (step_effect ses o s W O1).
Qed.

Lemma history_follows ops :
  forall s i, well_formed s -> all_offered ops s = true ->
              follows (status_of i (tbl s)) (status_history i ops s) = true.
Proof.
  induction ops as [|[ses o] ops IH]; intros s i W Off.
  - cbn [status_history]. unfold follows.
    destruct (status_of i (tbl s)); reflexivity.
  - cbn [all_offered] in Off. apply andb_prop in Off. destruct Off as [O1 O2].
    destruct (step_effect ses o s W O1) as [W' Ef].
    specialize (IH (step ses o s) i W' O2).
    cbn [status_history].
    destruct (Ef i) as [(Hw & st' & Hs' & Hal) | (Hw & Hsame)].
    + rewrite Hw, String.eqb_refl, Hs'. rewrite Hs' in IH. cbn [follows] in IH.
      unfold follows. destruct (status_of i (tbl s)) as [st|].
      * cbn [chain]. rewrite Hal, IH. reflexivity.
      * subst st'. cbn [is_path]. rewrite IH. reflexivity.
    + rewrite Hsame in IH.
      destruct (written ses o s) as [j|]; [|exact IH].
      destruct (j =? i)%string eqn:Ej; [|exact IH].
      apply String.eqb_eq in Ej. congruence.
Qed.

Lemma last_cons {A} (a d : A) l : last (a :: l) d = last l a.
Proof.
  revert a d. induction l as [|b l IH]; intros a d; [reflexivity|].
  change (last (a :: b :: l) d) with (last (b :: l) d).
  rewrite (IH b d), (IH b a). reflexivity.
Qed.

Lemma history_tracks_status ops :
  forall s i, well_formed s -> all_offered ops s = true ->
              status_of i (tbl (run_ops ops s))
              = last (map Some (status_history i ops s)) (status_of i (tbl s)).
Proof.
  induction ops as [|[ses o] ops IH]; intros s i W Off; [reflexivity|].
  cbn [all_offered] in Off. apply andb_prop in Off. destruct Off as [O1 O2].
  destruct (step_effect ses o s W O1) as [W' Ef].
  specialize (IH (step ses o s) i W' O2).
  cbn [run_ops status_history]. rewrite IH.
  destruct (Ef i) as [(Hw & st' & Hs' & _) | (Hw & Hsame)].
  - rewrite Hw, String.eqb_refl, Hs'. cbn [map]. rewrite last_cons.
    reflexivity.
  - rewrite Hsame.
    destruct (written ses o s) as [j|]; [|reflexivity].
    destruct (j =? i)%string eqn:Ej; [|reflexivity].
    apply String.eqb_eq in Ej. congruence.
Qed.

(** ** C3 *)

(** Counterexample to C3 as stated: [approve_issue] has no guard on the
    current status, so after insert and [reject_issue] a call of
    [approve_issue] takes the record from ['rejected'] to ['approved'],
    which the transition table does not allow. *)
Lemma approve_issue_leaves_rejected :
  status_history "a"%string Samples.approve_rejected initial
  = [reported; rejected; approved]
  /\ allowed rejected approved = false
  /\ is_path (status_history "a"%string Samples.approve_rejected initial) = false.
Proof. split; [reflexivity|]. split; reflexivity. Qed.

(** C3, as the code has it.  When the stored functions are called the way
    the portal offers them (approve on a ['reported'] or ['failed'] issue,
    reject on a ['reported'] one) and inserts carry ['reported'], then for
    every record the statuses it takes, one for each operation that writes
    it, start at ['reported'] and form a path of the transition table; the
    last of them is the status the record has in the end, so that no
    operation changes a status without writing the record. *)
Theorem offered_operations_follow_transition_table
    (ops : list (session * op)) (i : uuid)
    (Off : all_offered ops initial = true) :
  is_path (status_history i ops initial) = true
  /\ status_of i (tbl (run_ops ops initial))
     = last (map Some (status_history i ops initial)) None.
Proof.
  split.
  - exact (history_follows ops initial i initial_well_formed Off).
  - exact (history_tracks_status ops initial i initial_well_formed Off).
Qed.

Lemma offered_operations_follow_transition_table_witness :
  is_path (status_history "a"%string Samples.scenario initial) = true.
Proof.
  apply (proj1 (offered_operations_follow_transition_table
                  Samples.scenario "a"%string eq_refl)).
Defined.

(** ** C7 *)

(** Counterexample to C7 as stated: [approve_issue] does not clear
    [pr_url], so calling it on a ['pr_raised'] record leaves a record that
    is ['approved'] with [pr_url] set. *)
Lemma approve_issue_keeps_pr_url :
  map (fun r => (status r, pr_url r))
    (tbl (run_ops Samples.approve_after_pr initial))
  = [(approved, Some "https://github.com/o/r/pull/1"%string)]
  /\ forallb pr_url_iff_pr_raised
       (tbl (run_ops Samples.approve_after_pr initial)) = false.
Proof. split; reflexivity. Qed.

(** C7, as the code has it.  When the stored functions are called the way
    the portal offers them and inserts carry ['reported'], every record has
    [pr_url] set if and only if its status is ['pr_raised']; a
    ['pr_raised'] record is offered no operation. *)
Theorem pr_url_set_iff_pr_raised
    (ops : list (session * op)) (r : issues)
    (Off : all_offered ops initial = true)
    (Hr : In r (tbl (run_ops ops initial))) :
  (pr_url r <> None <-> status r = pr_raised)
  /\ (status r = pr_raised ->
      Portal.buttons (status r) = []).
Proof.
  pose proof (run_ops_well_formed ops initial initial_well_formed Off)
    as (_ & _ & Pr).
  specialize (Pr r Hr). unfold pr_url_iff_pr_raised in Pr. split.
  - destruct (pr_url r) as [u|]; destruct (status r =? pr_raised)%string eqn:E;
      try discriminate.
    + apply String.eqb_eq in E. split; [intros _; exact E|discriminate].
    + apply String.eqb_neq in E. split; [congruence|intros H; contradiction].
  - intros ->. reflexivity.
Qed.

Lemma pr_url_set_iff_pr_raised_witness :
  (pr_url Samples.issue_with_pr <> None
   <-> status Samples.issue_with_pr = pr_raised)
  /\ (status Samples.issue_with_pr = pr_raised ->
      Portal.buttons (status Samples.issue_with_pr) = []).
Proof.
  apply (pr_url_set_iff_pr_raised Samples.raise_pr Samples.issue_with_pr).
  - reflexivity.
  - left. reflexivity.
Defined.

End LifecycleFacts.

(* ================================================================== *)
(** * Properties of the worker *)
(* ================================================================== *)

Module WorkerFacts.
Import Schema Js Outside Worker.
Local Open Scope async_scope.

Section Quiet.
Context {World : Type} {C : Collaborators World}.

Lemma quiet_ret {A} (a : A) : quiet (ret (World := World) a).
Proof.
  intros s. split; [reflexivity|]. exists []. split; [|reflexivity].
  simpl. rewrite app_nil_r. reflexivity.
Qed.

Lemma quiet_throw {A} (e : Error) : quiet (throw (World := World) (A := A) e).
Proof.
  intros s. split; [reflexivity|]. exists []. split; [|reflexivity].
  simpl. rewrite app_nil_r. reflexivity.
Qed.

Lemma quiet_emit (e : event) :
  is_update e = false -> quiet (emit (World := World) e).
Proof.
  intros H s. split; [reflexivity|]. exists [e]. split; [reflexivity|].
  simpl. rewrite H. reflexivity.
Qed.

Lemma quiet_ask {A} (f : World -> A * World) : quiet (ask f).
Proof.
  intros s. unfold ask. destruct (f (world s)) as [a w]. simpl.
  split; [reflexivity|]. exists []. split; [|reflexivity].
  rewrite app_nil_r. reflexivity.
Qed.

Lemma quiet_bind {A B} (m : Async World A) (k : A -> Async World B) :
  quiet m -> (forall a, quiet (k a)) -> quiet (bind m k).
Proof.
  intros Hm Hk s. unfold bind.
  destruct (Hm s) as (D1 & evs1 & T1 & F1).
  destruct (m s) as [[a|e] s1]; simpl in *.
  - destruct (Hk a s1) as (D2 & evs2 & T2 & F2).
    split; [congruence|]. exists (evs1 ++ evs2). split.
    + rewrite T2, T1, app_assoc. reflexivity.
    + rewrite forallb_app, F1, F2. reflexivity.
  - split; [exact D1|]. exists evs1. split; assumption.
Qed.

Lemma quiet_try_catch {A} (m : Async World A) (h : Error -> Async World A) :
  quiet m -> (forall e, quiet (h e)) -> quiet (try_catch m h).
Proof.
  intros Hm Hh s. unfold try_catch.
  destruct (Hm s) as (D1 & evs1 & T1 & F1).
  destruct (m s) as [[a|e] s1]; simpl in *.
  - split; [exact D1|]. exists evs1. split; assumption.
  - destruct (Hh e s1) as (D2 & evs2 & T2 & F2).
    split; [congruence|]. exists (evs1 ++ evs2). split.
    + rewrite T2, T1, app_assoc. reflexivity.
    + rewrite forallb_app, F1, F2. reflexivity.
Qed.

Lemma quiet_run cmd : quiet (run cmd).
Proof.
  unfold run. apply quiet_bind; [apply quiet_emit; reflexivity|].
  intros _. apply quiet_bind; [apply quiet_ask|].
  intros [e|out]; [apply quiet_throw|apply quiet_ret].
Qed.

Lemma quiet_runCodex p : quiet (runCodex p).
Proof.
  unfold runCodex. apply quiet_bind; [apply quiet_emit; reflexivity|].
  intros _. apply quiet_bind; [apply quiet_ask|].
  intros [[[|c|c]|]|err]; try apply quiet_throw. apply quiet_ret.
Qed.

Lemma quiet_cleanupGitLock cfg : quiet (cleanupGitLock cfg).
Proof.
  unfold cleanupGitLock. apply quiet_try_catch.
  - apply quiet_bind; [apply quiet_emit; reflexivity|].
    intros _. apply quiet_bind; [apply quiet_ask|].
    intros [e|out]; [apply quiet_throw|apply quiet_ret].
  - intros e. apply quiet_ret.
Qed.

(** Up to the inspection of the working copy the worker does not touch
    the store. *)
Lemma quiet_prepare cfg issue : quiet (prepare cfg issue).
Proof.
  unfold prepare.
  repeat (apply quiet_bind; [apply quiet_run|intros _]).
  apply quiet_bind; [apply quiet_runCodex|intros _].
  apply quiet_cleanupGitLock.
Qed.
End Quiet.

Section Pipeline.
Context {World : Type} {C : Collaborators World} (cfg : config).

Lemma run_ok cmd (s : Sys World) out w :
  execSync cmd (world s) = (inr out, w) ->
  run cmd s
  = (Normal (trim out), mk_Sys (db s) w (trace s ++ [ev_exec cmd])).
Proof.
  intros H. unfold run, bind, emit, ask. simpl. rewrite H. reflexivity.
Qed.

Lemma run_throws cmd (s : Sys World) e w :
  execSync cmd (world s) = (inl e, w) ->
  run cmd s = (Throw e, mk_Sys (db s) w (trace s ++ [ev_exec cmd])).
Proof.
  intros H. unfold run, bind, emit, ask. simpl. rewrite H. reflexivity.
Qed.

(** [updateIssue] for each answer of the store. *)
Lemma updateIssue_answer i p (s : Sys World) a w :
  supabase (world s) = (a, w) ->
  updateIssue i p s
  = match a with
    | fulfilled =>
        (Normal tt,
         mk_Sys (update_eq_id i p (mk_session (clock w) None) (db s)) w
           (trace s ++ [ev_update i p]))
    | fulfilled_error _ =>
        (Normal tt, mk_Sys (db s) w (trace s ++ [ev_update i p]))
    | rejected e =>
        (Throw e, mk_Sys (db s) w (trace s ++ [ev_update i p]))
    end.
Proof.
  intros H. unfold updateIssue, bind, emit, ask, with_session, on_db. simpl.
  rewrite H. destruct a; reflexivity.
Qed.

(** The row a patch leaves, read through the primary key. *)
Lemma find_after_update i p ses t r :
  find_by_id i t = Some r ->
  find_by_id i (update_eq_id i p ses t)
  = Some (moddatetime ses (apply_patch p r)).
Proof.
  intros F. unfold update_eq_id, sql_update. cbn [fst].
  rewrite (LifecycleFacts.find_by_id_update i i
             (fun r => moddatetime ses (apply_patch p r))).
  - rewrite String.eqb_refl, F. reflexivity.
  - intros x. destruct p as [[st|] [u|] [m|]]; reflexivity.
Qed.

(** ** C5 *)


Example extract_pr_url_first_http_line :
  extract_pr_url
    ("Creating pull request" ++ nl ++ "https://github.com/o/r/pull/7" ++ nl)
  = "https://github.com/o/r/pull/7"%string.
Proof. reflexivity. Qed.

Example extract_pr_url_falls_back :
  extract_pr_url "no link printed" = "no link printed"%string.
Proof. reflexivity. Qed.

(** ** The one write of a run *)

Lemma quiet_writes_once {A} i (m : Async World A) :
  quiet m -> Lifecycle.writes_once i m.
Proof. intros Q s. left. apply Q. Qed.

Lemma writes_once_after_quiet {A B} i (m : Async World A)
    (k : A -> Async World B) :
  quiet m -> (forall a, Lifecycle.writes_once i (k a)) ->
  Lifecycle.writes_once i (bind m k).
Proof.
  intros Q Hk s. unfold bind. destruct (Q s) as [D _].
  destruct (m s) as [[a|e] s1]; cbn [snd] in *.
  - rewrite <- D. apply Hk.
  - left. exact D.
Qed.

Lemma writes_once_try_catch {A} i (m : Async World A)
    (h : Error -> Async World A) :
  Lifecycle.writes_once i m -> (forall e, Lifecycle.writes_once i (h e)) ->
  Lifecycle.writes_once i (try_catch m h).
Proof.
  intros Hm Hh s. unfold try_catch. specialize (Hm s).
  destruct (m s) as [[a|e] s1]; cbn [fst snd] in *.
  - exact Hm.
  - destruct Hm as [D | [[a Ha] _]]; [|discriminate].
    rewrite <- D. apply Hh.
Qed.

Lemma updateIssue_writes_once i o :
  Lifecycle.writes_once i (updateIssue i (Lifecycle.terminal_patch o)).
Proof.
  intros s. destruct (supabase (world s)) as [a w] eqn:E.
  rewrite (updateIssue_answer i _ s a w E).
  destruct a; cbn [fst snd db]; [right|left; reflexivity|left; reflexivity].
  split; [exists tt; reflexivity|]. eexists. eexists. reflexivity.
Qed.

(** A run of [processIssue] leaves the table as it was, or with exactly
    one terminal patch applied to the issue. *)
Lemma processIssue_writes_once issue :
  Lifecycle.writes_once (id issue) (processIssue cfg issue).
Proof.
  unfold processIssue. apply writes_once_try_catch.
  - unfold pipeline.
    apply writes_once_after_quiet; [apply quiet_prepare|intros _].
    apply writes_once_after_quiet; [apply quiet_run|intros status].
    destruct (negb (truthy status)).
    + apply (updateIssue_writes_once (id issue) Lifecycle.no_changes).
    + unfold publish.
      repeat (apply writes_once_after_quiet; [apply quiet_run|intros ?]).
      apply (updateIssue_writes_once (id issue) (Lifecycle.pr_created _)).
  - intros e. apply (updateIssue_writes_once (id issue) (Lifecycle.threw e)).
Qed.

(** ** C6 *)

Lemma slice_0_length n s : (String.length (slice_0 n s) <= n)%nat.
Proof.
  unfold slice_0. revert s. induction n as [|n IH]; intros [|c s]; simpl;
    try lia. specialize (IH s). lia.
Qed.

Lemma slice_0_prefix n s : prefix (slice_0 n s) s = true.
Proof.
  unfold slice_0. revert s. induction n as [|n IH]; intros [|c s]; simpl;
    try reflexivity.
  destruct (ascii_dec c c) as [_|N]; [apply IH|contradiction].
Qed.

Lemma slice_0_short n s : (String.length s <= n)%nat -> slice_0 n s = s.
Proof.
  unfold slice_0. revert s. induction n as [|n IH]; intros [|c s]; simpl;
    intros H; try reflexivity; try lia.
  f_equal. apply IH. lia.
Qed.

(** C6. An exception [e] with which the [try] block of [processIssue]
    ends is caught there: the worker writes status ['failed'] with
    [String(e).slice(0, 2000)], which is a prefix of [String(e)] of at most
    2000 characters (all of it when it is that short); once the store
    applies the write the record is ['failed'] with that [error_message];
    and [processIssue] completes normally, unless the store's own request
    is rejected; then that rejection is what it throws. *)
Theorem pipeline_exception_is_recorded
    (issue : issues) (s s1 : Sys World) (e : Error) (a : answer) (w2 : World)
    (Hthrow : pipeline cfg issue s = (Throw e, s1))
    (Hstore : supabase (world s1) = (a, w2)) :
  let m := slice_0 2000 (String_of e) in
  let p := mk_patch (Some failed) None (Some m) in
  let t' := update_eq_id (id issue) p (mk_session (clock w2) None) (db s1) in
  (String.length m <= 2000)%nat
  /\ prefix m (String_of e) = true
  /\ ((String.length (String_of e) <= 2000)%nat -> m = String_of e)
  /\ processIssue cfg issue s
     = match a with
       | fulfilled =>
           (Normal tt, mk_Sys t' w2 (trace s1 ++ [ev_update (id issue) p]))
       | fulfilled_error _ =>
           (Normal tt, mk_Sys (db s1) w2 (trace s1 ++ [ev_update (id issue) p]))
       | rejected e' =>
           (Throw e', mk_Sys (db s1) w2 (trace s1 ++ [ev_update (id issue) p]))
       end
  /\ (forall r, find_by_id (id issue) (db s1) = Some r ->
       exists r', find_by_id (id issue) t' = Some r'
                  /\ status r' = failed /\ error_message r' = Some m).
Proof.
  intros m p t'. split; [apply slice_0_length|].
  split; [apply slice_0_prefix|]. split; [apply slice_0_short|]. split.
  - unfold processIssue, try_catch. rewrite Hthrow.
    apply (updateIssue_answer (id issue) p s1 a w2 Hstore).
  - intros r F. eexists. split; [apply find_after_update, F|].
    split; reflexivity.
Qed.

(** ** C10 *)

(** C10. When the [claim_issue] RPC is answered with an error,
    [claimIssue] returns [null] and the turn of the loop is the idle one: it
    sleeps [EMPTY_SLEEP_MS], the handler of the loop does not run, and the
    turn ends in the very state in which a turn ends that found no approved
    issue. *)
Theorem claim_error_is_taken_for_empty_backlog
    (s : Sys World) (err : string) (w1 : World)
    (Herr : supabase (world s) = (fulfilled_error err, w1)) :
  let after := mk_Sys (db s) w1
                 (trace s ++ [ev_rpc "claim_issue";
                              ev_sleep (EMPTY_SLEEP_MS cfg)]) in
  claimIssue cfg s
  = (Normal None, mk_Sys (db s) w1 (trace s ++ [ev_rpc "claim_issue"]))
  /\ main_turn cfg s = (Normal idle, after)
  /\ (forall s0 : Sys World,
        supabase (world s0) = (fulfilled, w1) ->
        db s0 = db s -> trace s0 = trace s ->
        (forall r, In r (db s0) -> status r <> approved) ->
        main_turn cfg s0 = (Normal idle, after)).
Proof.
  intros after.
  assert (Hc : claimIssue cfg s
     = (Normal None, mk_Sys (db s) w1 (trace s ++ [ev_rpc "claim_issue"]))).
  { unfold claimIssue, rpc_claim_issue, bind, emit, ask. simpl.
    rewrite Herr. reflexivity. }
  split; [exact Hc|]. split.
  - unfold main_turn, try_catch. unfold bind at 1. rewrite Hc.
    unfold after. cbn. rewrite <- app_assoc. reflexivity.
  - intros s0 Hs D T Hnone.
    assert (Hc0 : claimIssue cfg s0
       = (Normal (Some all_null),
          mk_Sys (db s) w1 (trace s ++ [ev_rpc "claim_issue"]))).
    { unfold claimIssue, rpc_claim_issue, bind, emit, ask, with_session, on_db.
      cbn [world db trace]. rewrite Hs. cbn [world db trace].
      assert (Hf : filter (fun x => (status x =? approved)%string) (db s0) = []).
      { clear - Hnone. induction (db s0) as [|x l IH]; [reflexivity|].
        simpl. destruct (status x =? approved)%string eqn:E.
        - apply String.eqb_eq in E. exfalso.
          apply (Hnone x (or_introl eq_refl) E).
        - apply IH. intros r Hr. apply Hnone. right. exact Hr. }
      rewrite (SchemaFacts.claim_issue_nothing _ _ (db s0))
        by (rewrite Hf; reflexivity).
      cbn [to_json fst snd]. rewrite D, T. reflexivity. }
    unfold main_turn, try_catch. unfold bind at 1. rewrite Hc0.
    unfold after. cbn. rewrite <- app_assoc. reflexivity.
Qed.

End Pipeline.


Lemma pipeline_exception_is_recorded_witness :
  exists r',
    find_by_id "a"%string
      (db (snd (processIssue (C := Samples.commands_fail)
                  Samples.worker_cfg Samples.claimed_issue
                  (Samples.system [Samples.claimed_issue]))))
    = Some r'
    /\ status r' = failed
    /\ error_message r' = Some "Error: Command failed: git fetch origin"%string
    /\ fst (processIssue (C := Samples.commands_fail)
              Samples.worker_cfg Samples.claimed_issue
              (Samples.system [Samples.claimed_issue])) = Normal tt.
Proof.
  pose proof (pipeline_exception_is_recorded (C := Samples.commands_fail)
                Samples.worker_cfg Samples.claimed_issue
                (Samples.system [Samples.claimed_issue])
                (snd (pipeline (C := Samples.commands_fail)
                        Samples.worker_cfg Samples.claimed_issue
                        (Samples.system [Samples.claimed_issue])))
                (mk_Error "Command failed: git fetch origin"%string)
                fulfilled tt eq_refl eq_refl) as H.
  destruct H as (_ & _ & _ & Hp & Hr).
  destruct (Hr Samples.claimed_issue eq_refl) as (r' & F & St & M).
  rewrite Hp. exists r'. repeat split; assumption.
Defined.

(** Two turns of the worker on three approved issues, in a world where
    the remediation tool changes nothing: the two oldest end ['failed']. *)
Example two_turns_without_changes :
  map (fun r => (id r, status r))
    (db (snd (main (C := Samples.nothing_changes) Samples.worker_cfg 2
                (Samples.system Samples.backlog))))
  = [ ("a"%string, failed); ("b"%string, failed); ("c"%string, approved) ].
Proof. reflexivity. Qed.

Lemma claim_error_is_taken_for_empty_backlog_witness :
  main_turn (C := Samples.store_errors) Samples.worker_cfg
    (Samples.system Samples.backlog)
  = (Normal idle,
     mk_Sys Samples.backlog tt
       [ev_rpc "claim_issue"%string; ev_sleep 60000%Z]).
Proof.
  exact (proj1 (proj2
           (claim_error_is_taken_for_empty_backlog (C := Samples.store_errors)
              Samples.worker_cfg (Samples.system Samples.backlog)
              "connection refused"%string tt eq_refl))).
Defined.

End WorkerFacts.

(* ================================================================== *)
(** * Properties of the scanner *)
(* ================================================================== *)

Module ScannerFacts.
Import Schema Js Outside Scanner.
Local Open Scope async_scope.

Section Insertion.
Context {World : Type} {C : Collaborators World} {D : Detector World}.

Lemma inserts_of_app evs1 evs2 :
  inserts_of (evs1 ++ evs2) = inserts_of evs1 ++ inserts_of evs2.
Proof.
  induction evs1 as [|e evs1 IH]; [reflexivity|].
  destruct e; simpl; rewrite IH; reflexivity.
Qed.

(** One request to insert: the trace gains the request and nothing else,
    the table keeps its rows, and only a rejected promise throws. *)
Lemma insert_issue_sends p (s : Sys World) :
  trace (snd (insert_issue p s)) = trace s ++ [ev_insert p]
  /\ (exists rows, db (snd (insert_issue p s)) = db s ++ rows)
  /\ ((forall e, fst (supabase (world s)) <> rejected e) ->
      exists err, fst (insert_issue p s) = Normal err).
Proof.
  unfold insert_issue, bind, emit, ask. cbn [world db trace].
  destruct (supabase (world s)) as [[|err|e] w1]; cbn [fst snd world db trace].
  - destruct (gen_random_uuid w1) as [u w2]. cbn [fst snd world db trace].
    destruct (insert u (mk_session (clock w2) None) p (db s))
      as [[c|c]|t'] eqn:E; cbn [fst snd trace db].
    + split; [reflexivity|]. split; [exists []; rewrite app_nil_r; reflexivity|].
      intros _. eexists. reflexivity.
    + split; [reflexivity|]. split; [exists []; rewrite app_nil_r; reflexivity|].
      intros _. eexists. reflexivity.
    + split; [reflexivity|]. split.
      * destruct (SchemaFacts.insert_accepted _ _ _ _ _ E) as (r & -> & _).
        exists [r]. reflexivity.
      * intros _. eexists. reflexivity.
  - split; [reflexivity|]. split; [exists []; rewrite app_nil_r; reflexivity|].
    intros _. eexists. reflexivity.
  - split; [reflexivity|]. split; [exists []; rewrite app_nil_r; reflexivity|].
    intros H. exfalso. apply (H e). reflexivity.
Qed.



(** The scan tells the detector about the fetched records and touches
    neither the table nor the insert requests. *)
Lemma runCodexScan_trace siteUrl existing (s : Sys World) :
  trace (snd (runCodexScan siteUrl existing s))
  = trace s ++ [ev_codex (scan_args (instruction siteUrl existing))]
  /\ db (snd (runCodexScan siteUrl existing s)) = db s.
Proof.
  unfold runCodexScan, bind, emit, ask. cbn [world db trace].
  destruct (spawn_scan _ (world s)) as [[raw code|err] w1]; cbn [world db trace].
  - destruct (openai_extract raw w1) as [[err|[extracted|]] w2]; cbn;
      try (split; reflexivity).
    destruct (truthy extracted); [|split; reflexivity].
    destruct (JSON_parse_issues extracted) as [err|[issues|]]; split; reflexivity.
  - split; reflexivity.
Qed.

Example strip_citations_drops_markers :
  strip_citations
    "Footer citeturn6view0 says   2019. Recite this; turn4search2 view."
  = "Footer says 2019. Recite this; ."%string.
Proof. reflexivity. Qed.

Example normalize_falls_back :
  option_map js_title
    (match normalize (JObj [("url"%string, JStr "https://example.com/")]) with
     | inr p => Some p
     | inl _ => None
     end)
  = Some (JStr "Unlabeled issue").
Proof. reflexivity. Qed.

(** ** C9 *)


End Insertion.



End ScannerFacts.

(* ================================================================== *)
(** * Properties of claim_issue under concurrent callers *)
(* ================================================================== *)

Module ConcurrentFacts.
Import Schema SchemaFacts Concurrent.

(** ** The list of transactions *)

Lemma nth_error_replace (l : list txn) k x y :
  nth_error l k = Some x ->
  exists l1 l2, l = l1 ++ x :: l2 /\ replace_nth k y l = l1 ++ y :: l2.
Proof.
  revert k. induction l as [|a l IH]; intros [|k] H; simpl in H;
    try discriminate.
  - injection H as ->. exists [], l. split; reflexivity.
  - destruct (IH k H) as (l1 & l2 & -> & E).
    exists (a :: l1), l2. split; [reflexivity|]. simpl. rewrite E. reflexivity.
Qed.

Lemma row_locks_middle l1 x l2 :
  row_locks (l1 ++ x :: l2) = row_locks l1 ++ lock_of x ++ row_locks l2.
Proof. unfold row_locks. rewrite flat_map_app. reflexivity. Qed.

Lemma returned_ids_middle l1 x l2 :
  returned_ids (l1 ++ x :: l2)
  = returned_ids l1 ++ returned_of x ++ returned_ids l2.
Proof. unfold returned_ids. rewrite flat_map_app. reflexivity. Qed.

Lemma returned_none_middle l1 x l2 :
  returned_none (l1 ++ x :: l2)
  = (returned_none l1 + (if is_none x then 1 else 0) + returned_none l2)%nat.
Proof.
  unfold returned_none. rewrite filter_app, length_app. simpl.
  destruct (is_none x); simpl; lia.
Qed.

Lemma NoDup_middle_add (a : uuid) l1 l2 :
  NoDup (l1 ++ l2) -> ~ In a (l1 ++ l2) -> NoDup (l1 ++ a :: l2).
Proof.
  intros N H. apply (Permutation_NoDup (Permutation_middle l1 l2 a)).
  constructor; assumption.
Qed.

(** ** The subquery *)

Lemma is_locked_In locks r : is_locked locks r = true <-> In (id r) locks.
Proof.
  unfold is_locked. rewrite existsb_exists. split.
  - intros (x & Hx & E). apply String.eqb_eq in E. rewrite E. exact Hx.
  - intros H. exists (id r). split; [exact H|apply String.eqb_refl].
Qed.

(** When the subquery selects no row, every approved row is locked. *)
Lemma select_nothing locks t :
  select_for_update_skip_locked locks t = [] ->
  forall r, In r t -> status r = approved -> In (id r) locks.
Proof.
  unfold select_for_update_skip_locked, limit. intros E r Hr Hs.
  destruct (filter (fun r => negb (is_locked locks r))
              (order_by_created_at
                 (filter (fun r => (status r =? approved)%string) t)))
    as [|x l] eqn:F; [|discriminate].
  apply is_locked_In.
  destruct (is_locked locks r) eqn:L; [reflexivity|].
  assert (H : In r []).
  { rewrite <- F. apply filter_In. split.
    - apply order_by_created_at_In, approved_filter_In. split; assumption.
    - rewrite L. reflexivity. }
  destruct H.
Qed.

(** The row the subquery selects is an approved row that nobody has
    locked, and no unlocked approved row is older. *)
Lemma select_some locks t r rest :
  select_for_update_skip_locked locks t = r :: rest ->
  In r t /\ status r = approved /\ ~ In (id r) locks
  /\ forall x, In x t -> status x = approved -> ~ In (id x) locks ->
               (created_at r <= created_at x)%Z.
Proof.
  unfold select_for_update_skip_locked, limit. intros E.
  destruct (filter (fun r => negb (is_locked locks r))
              (order_by_created_at
                 (filter (fun r => (status r =? approved)%string) t)))
    as [|x l] eqn:F; [discriminate|].
  simpl in E. injection E as -> _.
  assert (H : In r (r :: l)) by (left; reflexivity).
  rewrite <- F in H. apply filter_In in H. destruct H as [H1 H2].
  apply (proj1 (order_by_created_at_In _ _)) in H1.
  apply (proj1 (approved_filter_In _ _)) in H1. destruct H1 as [H1 H3].
  split; [exact H1|]. split; [exact H3|]. split.
  - intros L. apply is_locked_In in L. rewrite L in H2. discriminate.
  - intros y Hy Hs Hl.
    pose proof (ascending_filter (fun r => negb (is_locked locks r)) _
                  (order_by_created_at_ascending
                     (filter (fun r => (status r =? approved)%string) t))) as A.
    rewrite F in A. apply (ascending_head r l A).
    rewrite <- F. apply filter_In. split.
    + apply order_by_created_at_In, approved_filter_In. split; assumption.
    + destruct (is_locked locks y) eqn:L; [|reflexivity].
      apply is_locked_In in L. contradiction.
Qed.

(** Run alone, the two actions of a transaction are [claim_issue]. *)
Lemma alone_is_claim_issue w ses t :
  let s1 := schedule_step 0 (start [(w, ses)] t) in
  let s2 := schedule_step 0 s1 in
  (txns s2, rows s2)
  = ([committed (fst (claim_issue w ses t))], snd (claim_issue w ses t)).
Proof.
  unfold start, schedule_step. cbn [map fst snd txns rows nth_error advance].
  unfold select_for_update_skip_locked, row_locks. cbn [flat_map lock_of app].
  assert (F : forall l : list issues,
             filter (fun r => negb (is_locked [] r)) l = l).
  { induction l as [|a l IH]; [reflexivity|]. cbn [filter].
    change (negb (is_locked [] a)) with true. cbv iota. rewrite IH.
    reflexivity. }
  rewrite F. unfold claim_issue.
  destruct (limit 1 (order_by_created_at
               (filter (fun r => (status r =? approved)%string) t)))
    as [|r rest] eqn:E.
  - cbn [replace_nth txns rows nth_error advance].
    rewrite sql_update_none by (intros; reflexivity). reflexivity.
  - cbn [replace_nth txns rows nth_error advance].
    unfold sql_update, id_eq_scalar. reflexivity.
Qed.

(** ** The invariant *)

Lemma In_middle {A} (x a : A) l1 l2 :
  In x (l1 ++ a :: l2) <-> x = a \/ In x (l1 ++ l2).
Proof.
  rewrite !in_app_iff. simpl. intuition.
Qed.

Lemma row_unique t a b :
  NoDup (map id t) -> In a t -> In b t -> id a = id b -> a = b.
Proof.
  intros PK Ha Hb E.
  pose proof (LifecycleFacts.find_by_id_In t a PK Ha) as Fa.
  pose proof (LifecycleFacts.find_by_id_In t b PK Hb) as Fb.
  rewrite E in Fa. congruence.
Qed.

Lemma approved_rows_middle l1 r l2 :
  approved_rows (l1 ++ r :: l2)
  = approved_rows l1
    ++ (if (status r =? approved)%string then [r] else [])
    ++ approved_rows l2.
Proof.
  unfold approved_rows. rewrite filter_app. simpl.
  destruct (status r =? approved)%string; reflexivity.
Qed.

Lemma start_consistent callers t :
  NoDup (map id t) -> consistent t (start callers t).
Proof.
  intros PK. unfold start, consistent. cbn [rows txns].
  assert (L : row_locks (map (fun c => begun (fst c) (snd c)) callers) = []
              /\ returned_ids (map (fun c => begun (fst c) (snd c)) callers) = []
              /\ returned_none (map (fun c => begun (fst c) (snd c)) callers)
                 = 0%nat).
  { clear PK. unfold returned_none.
    induction callers as [|c l IH]; [repeat split|exact IH]. }
  destruct L as (L & R & Z). rewrite L, R, Z.
  split; [exact PK|]. split; [constructor|]. split; [intros i []|].
  split; [constructor|]. split; [intros i []|]. split; [simpl; lia|].
  split; [intros H; contradiction|intros r Hr _; exact Hr].
Qed.

Lemma begun_to_none_consistent t0 s l1 l2 w ses :
  consistent t0 s ->
  txns s = l1 ++ begun w ses :: l2 ->
  select_for_update_skip_locked (row_locks (txns s)) (rows s) = [] ->
  consistent t0 (mk_conc (rows s) (l1 ++ committed None :: l2)).
Proof.
  intros (PK & LN & LA & RN & RA & Cnt & Non & Old) Et Sel.
  pose proof (select_nothing _ _ Sel) as AllLocked.
  rewrite Et in *. rewrite row_locks_middle, returned_ids_middle in *.
  unfold consistent. cbn [rows txns].
  rewrite row_locks_middle, returned_ids_middle.
  cbn [lock_of returned_of app] in *.
  split; [exact PK|]. split; [exact LN|]. split; [exact LA|].
  split; [exact RN|]. split; [exact RA|]. split; [exact Cnt|].
  split; [|exact Old].
  intros _. exact AllLocked.
Qed.

Lemma begun_to_locked_consistent t0 s l1 l2 w ses r rest :
  consistent t0 s ->
  txns s = l1 ++ begun w ses :: l2 ->
  select_for_update_skip_locked (row_locks (txns s)) (rows s) = r :: rest ->
  consistent t0 (mk_conc (rows s) (l1 ++ locked w ses (id r) :: l2)).
Proof.
  intros (PK & LN & LA & RN & RA & Cnt & Non & Old) Et Sel.
  destruct (select_some _ _ _ _ Sel) as (Hr & Hs & Hfree & _).
  rewrite Et in *.
  rewrite row_locks_middle, returned_ids_middle, returned_none_middle in *.
  unfold consistent. cbn [rows txns].
  rewrite row_locks_middle, returned_ids_middle, returned_none_middle.
  cbn [lock_of returned_of is_none app] in *.
  split; [exact PK|]. split; [apply NoDup_middle_add; assumption|].
  split.
  { intros i Hi. apply In_middle in Hi. destruct Hi as [-> | Hi].
    - exists r. repeat split; assumption.
    - apply LA, Hi. }
  split; [exact RN|]. split; [exact RA|]. split; [exact Cnt|].
  split; [|exact Old].
  intros Hn x Hx Hsx. apply In_middle. right. apply (Non Hn x Hx Hsx).
Qed.

Lemma locked_to_committed_consistent t0 s l1 l2 w ses r m1 m2 :
  consistent t0 s ->
  txns s = l1 ++ locked w ses (id r) :: l2 ->
  rows s = m1 ++ r :: m2 ->
  status r = approved ->
  consistent t0
    (mk_conc (m1 ++ claimed w ses r :: m2)
       (l1 ++ committed (Some (claimed w ses r)) :: l2)).
Proof.
  intros (PK & LN & LA & RN & RA & Cnt & Non & Old) Et Er Hs.
  rewrite Et, Er in *.
  rewrite row_locks_middle, returned_ids_middle, returned_none_middle in *.
  unfold consistent. cbn [rows txns].
  rewrite row_locks_middle, returned_ids_middle, returned_none_middle.
  cbn [lock_of returned_of is_none app] in *.
  change (id (claimed w ses r)) with (id r).
  assert (Hin : In r (m1 ++ r :: m2)) by (apply in_elt).
  assert (Keep : forall x, In x (m1 ++ r :: m2) -> x <> r ->
                           In x (m1 ++ claimed w ses r :: m2)).
  { intros x Hx Hne. apply In_middle in Hx. apply In_middle.
    destruct Hx as [-> | Hx]; [contradiction|right; exact Hx]. }
  assert (Back : forall x, In x (m1 ++ claimed w ses r :: m2) ->
                           status x = approved ->
                           In x (m1 ++ r :: m2) /\ id x <> id r).
  { intros x Hx Hsx. apply In_middle in Hx. destruct Hx as [-> | Hx].
    - exfalso. apply (claimed_not_approved _ _ _ Hsx).
    - split; [apply In_middle; right; exact Hx|].
      intros E. rewrite map_app in PK. simpl in PK.
      apply NoDup_remove_2 in PK. apply PK. rewrite <- E, <- map_app.
      apply in_map, Hx. }
  split.
  { rewrite map_app in *. simpl in *. exact PK. }
  split; [apply NoDup_remove_1 in LN; exact LN|].
  split.
  { intros i Hi.
    assert (Hne : i <> id r).
    { intros ->. apply NoDup_remove_2 in LN. contradiction. }
    destruct (LA i (proj2 (In_middle _ _ _ _) (or_intror Hi)))
      as (x & Hx & Hix & Hsx).
    exists x. split; [|split; assumption].
    apply Keep; [exact Hx|]. intros ->. congruence. }
  assert (Fresh : ~ In (id r) (returned_ids l1 ++ returned_ids l2)).
  { intros Hi. destruct (RA _ Hi) as [(x & Hx & Hix & Hsx) _].
    assert (x = r) by (apply (row_unique _ _ _ PK Hx Hin Hix)).
    subst x. rewrite Hs in Hsx. discriminate. }
  split; [apply NoDup_middle_add; assumption|].
  split.
  { intros i Hi. apply In_middle in Hi. destruct Hi as [-> | Hi].
    - split.
      + exists (claimed w ses r). split; [apply in_elt|]. split; reflexivity.
      + exists r. split; [apply Old; assumption|]. split; [reflexivity|exact Hs].
    - destruct (RA i Hi) as [(x & Hx & Hix & Hsx) H0]. split; [|exact H0].
      exists x. split; [|split; assumption].
      apply Keep; [exact Hx|]. intros ->. rewrite Hs in Hsx. discriminate. }
  split.
  { rewrite approved_rows_middle in *.
    rewrite Hs in Cnt. change ((approved =? approved)%string) with true in Cnt.
    change (status (claimed w ses r) =? approved)%string with false.
    rewrite !length_app in *. simpl in *. lia. }
  split.
  { intros Hn x Hx Hsx. destruct (Back x Hx Hsx) as [Hx0 Hne].
    pose proof (Non Hn x Hx0 Hsx) as Hl. apply In_middle in Hl.
    destruct Hl as [E | Hl]; [contradiction|exact Hl]. }
  intros x Hx Hsx. destruct (Back x Hx Hsx) as [Hx0 _]. apply Old; assumption.
Qed.

(** Every action of every transaction keeps the state consistent. *)
Lemma schedule_step_consistent t0 k s :
  consistent t0 s -> consistent t0 (schedule_step k s).
Proof.
  intros Hc. unfold schedule_step.
  destruct (nth_error (txns s) k) as [x|] eqn:Ek; [|exact Hc].
  destruct x as [w ses | w ses target | res].
  - cbn [advance].
    destruct (select_for_update_skip_locked (row_locks (txns s)) (rows s))
      as [|r rest] eqn:Sel.
    + destruct (nth_error_replace _ k _ (committed None) Ek)
        as (l1 & l2 & Et & ->).
      apply (begun_to_none_consistent t0 s l1 l2 w ses Hc Et Sel).
    + destruct (nth_error_replace _ k _ (locked w ses (id r)) Ek)
        as (l1 & l2 & Et & ->).
      apply (begun_to_locked_consistent t0 s l1 l2 w ses r rest Hc Et Sel).
  - pose proof Hc as (PK & _ & LA & _).
    destruct (LA target) as (r & Hr & Hid & Hs).
    { destruct (nth_error_replace _ k _ (committed None) Ek)
        as (l1 & l2 & Et & _).
      rewrite Et, row_locks_middle. apply in_or_app. right. left. reflexivity. }
    subst target. apply in_split in Hr. destruct Hr as (m1 & m2 & Er).
    cbn [advance]. rewrite Er in PK |- *.
    rewrite (sql_update_by_id ses _ m1 r m2 PK).
    cbn [returns_issues hd_error].
    destruct (nth_error_replace _ k _
                (committed (Some (moddatetime ses
                   (set_claimed (Some w) (Some (now ses))
                      (set_status in_progress r))))) Ek)
      as (l1 & l2 & Et & ->).
    apply (locked_to_committed_consistent t0 s l1 l2 w ses r m1 m2 Hc Et Er Hs).
  - cbn [advance].
    destruct (nth_error_replace _ k _ (committed res) Ek) as (l1 & l2 & Et & ->).
    rewrite <- Et. destruct s; exact Hc.
Qed.

Lemma run_schedule_consistent t0 schedule :
  forall s, consistent t0 s -> consistent t0 (run_schedule schedule s).
Proof.
  induction schedule as [|k rest IH]; intros s Hc; [exact Hc|].
  cbn [run_schedule]. apply IH, schedule_step_consistent, Hc.
Qed.

Lemma schedule_step_length k s :
  List.length (txns (schedule_step k s)) = List.length (txns s).
Proof.
  unfold schedule_step.
  destruct (nth_error (txns s) k) as [x|] eqn:Ek; [|reflexivity].
  destruct (advance x (row_locks (txns s)) (rows s)) as [x' t'].
  cbn [txns].
  destruct (nth_error_replace _ k _ x' Ek) as (l1 & l2 & Et & ->).
  rewrite Et, !length_app. reflexivity.
Qed.

Lemma run_schedule_length schedule :
  forall s, List.length (txns (run_schedule schedule s))
            = List.length (txns s).
Proof.
  induction schedule as [|k rest IH]; intros s; [reflexivity|].
  cbn [run_schedule]. rewrite IH. apply schedule_step_length.
Qed.

(** ** Every call finishes *)

Lemma replace_nth_lookup j y (l : list txn) k :
  (j < List.length l)%nat ->
  nth_error (replace_nth j y l) k
  = if (j =? k)%nat then Some y else nth_error l k.
Proof.
  revert j k. induction l as [|a l IH]; intros j k Hj; simpl in Hj; [lia|].
  destruct j as [|j], k as [|k]; simpl; try reflexivity.
  apply IH. lia.
Qed.

Lemma advance_steps_left x locks t :
  (steps_left (fst (advance x locks t)) <= pred (steps_left x))%nat.
Proof.
  destruct x as [w ses | w ses target | res]; cbn [advance].
  - destruct (select_for_update_skip_locked locks t); simpl; lia.
  - destruct (sql_update _ _ _ t). simpl. lia.
  - simpl. lia.
Qed.

Lemma schedule_step_steps_left j k s x :
  nth_error (txns s) k = Some x ->
  exists x',
    nth_error (txns (schedule_step j s)) k = Some x'
    /\ (steps_left x'
        <= if (j =? k)%nat then pred (steps_left x) else steps_left x)%nat.
Proof.
  intros Hk. unfold schedule_step.
  destruct (nth_error (txns s) j) as [y|] eqn:Ej.
  - pose proof (advance_steps_left y (row_locks (txns s)) (rows s)) as Hd.
    destruct (advance y (row_locks (txns s)) (rows s)) as [y' t'].
    cbn [txns fst] in *.
    rewrite replace_nth_lookup
      by (apply nth_error_Some; rewrite Ej; discriminate).
    destruct (j =? k)%nat eqn:E.
    + apply Nat.eqb_eq in E. subst k. rewrite Ej in Hk. injection Hk as ->.
      exists y'. split; [reflexivity|exact Hd].
    + exists x. split; [exact Hk|lia].
  - exists x. split; [exact Hk|].
    destruct (j =? k)%nat eqn:E; [|lia].
    apply Nat.eqb_eq in E. subst k. congruence.
Qed.

Lemma run_schedule_steps_left schedule :
  forall s k x,
    nth_error (txns s) k = Some x ->
    exists x',
      nth_error (txns (run_schedule schedule s)) k = Some x'
      /\ (steps_left x'
          <= steps_left x - count_occ Nat.eq_dec schedule k)%nat.
Proof.
  induction schedule as [|j rest IH]; intros s k x Hk.
  - exists x. split; [exact Hk|simpl; lia].
  - destruct (schedule_step_steps_left j k s x Hk) as (x1 & H1 & L1).
    destruct (IH (schedule_step j s) k x1 H1) as (x2 & H2 & L2).
    exists x2. split; [exact H2|].
    cbn [count_occ]. destruct (Nat.eq_dec j k) as [-> | Hne].
    + rewrite Nat.eqb_refl in L1. lia.
    + apply Nat.eqb_neq in Hne. rewrite Hne in L1. lia.
Qed.

(** Under a scheduler that lets every call act twice, every call
    finishes. *)
Lemma every_call_finishes callers t schedule :
  (forall k, (k < List.length callers)%nat ->
             (2 <= count_occ Nat.eq_dec schedule k)%nat) ->
  forallb is_committed (txns (run_schedule schedule (start callers t))) = true.
Proof.
  intros Fair. apply forallb_forall. intros x Hx.
  apply In_nth_error in Hx. destruct Hx as [k Hk].
  assert (Hlt : (k < List.length callers)%nat).
  { assert (H : (k < List.length (txns (run_schedule schedule (start callers t))))%nat)
      by (apply nth_error_Some; rewrite Hk; discriminate).
    rewrite run_schedule_length in H. unfold start in H. cbn [txns] in H.
    rewrite length_map in H. exact H. }
  destruct (nth_error (txns (start callers t)) k) as [x0|] eqn:E0.
  - destruct (run_schedule_steps_left schedule _ k x0 E0) as (x' & H' & L).
    rewrite Hk in H'. injection H' as <-.
    assert (S0 : steps_left x0 = 2%nat).
    { unfold start in E0. cbn [txns] in E0. rewrite nth_error_map in E0.
      destruct (nth_error callers k); [|discriminate].
      injection E0 as <-. reflexivity. }
    specialize (Fair k Hlt). destruct x; simpl in L; try lia. reflexivity.
  - apply nth_error_None in E0. unfold start in E0. cbn [txns] in E0.
    rewrite length_map in E0. lia.
Qed.

(** ** C2 *)

Lemma all_committed_counts ts :
  forallb is_committed ts = true ->
  row_locks ts = []
  /\ (List.length (returned_ids ts) + returned_none ts = List.length ts)%nat.
Proof.
  unfold row_locks, returned_ids, returned_none.
  induction ts as [|x ts IH]; intros H; [split; reflexivity|].
  simpl in H. apply andb_prop in H. destruct H as [Hx Hts].
  destruct (IH Hts) as [L Cn].
  destruct x as [w ses | w ses i | [r|]]; try discriminate; simpl.
  - split; [exact L|]. lia.
  - split; [exact L|]. lia.
Qed.

(** C2. For N calls of [claim_issue] whose actions the scheduler
    interleaves in any way, against a table with M approved rows: when all
    calls have finished, exactly min(N, M) of them have returned a record
    and the others have returned none; the returned records have distinct
    ids, so that no record goes to two callers; and each of them was an
    approved row of the table.  (For M <= N this is M.) *)
Theorem concurrent_claims_are_exclusive
    (callers : list (string * session)) (t : table) (schedule : list nat)
    (PK : NoDup (map id t))
    (Done : forallb is_committed
              (txns (run_schedule schedule (start callers t))) = true) :
  let final := txns (run_schedule schedule (start callers t)) in
  let N := List.length callers in
  let M := List.length (approved_rows t) in
  List.length (returned_ids final) = Nat.min N M
  /\ returned_none final = (N - Nat.min N M)%nat
  /\ NoDup (returned_ids final)
  /\ (forall i, In i (returned_ids final) ->
       exists r, In r t /\ id r = i /\ status r = approved).
Proof.
  intros final N M.
  pose proof (run_schedule_consistent t schedule _
                (start_consistent callers t PK))
    as (_ & _ & _ & RN & RA & Cnt & Non & _).
  fold final in RN, RA, Cnt, Non.
  destruct (all_committed_counts final Done) as [L Cn].
  assert (Len : List.length final = N).
  { unfold final. rewrite run_schedule_length. unfold start. cbn [txns].
    apply length_map. }
  rewrite L in Non. fold M in Cnt.
  assert (Counts : List.length (returned_ids final) = Nat.min N M
                   /\ returned_none final = (N - Nat.min N M)%nat).
  { destruct (Nat.eq_dec (returned_none final) 0) as [Z | NZ].
    - lia.
    - assert (A : approved_rows
                    (rows (run_schedule schedule (start callers t))) = []).
      { unfold approved_rows.
        destruct (filter _ (rows (run_schedule schedule (start callers t))))
          as [|r l] eqn:F; [reflexivity|].
        assert (Hr : In r (r :: l)) by (left; reflexivity).
        rewrite <- F in Hr. apply approved_filter_In in Hr.
        destruct (Non NZ r (proj1 Hr) (proj2 Hr)). }
      rewrite A in Cnt. simpl in Cnt. lia. }
  split; [apply Counts|]. split; [apply Counts|]. split; [exact RN|].
  intros i Hi. apply (RA i Hi).
Qed.

Lemma concurrent_claims_are_exclusive_witness :
  returned_ids
    (txns (run_schedule Samples.interleaved
             (start Samples.two_callers Samples.one_approved)))
  = ["a"%string]
  /\ returned_none
       (txns (run_schedule Samples.interleaved
                (start Samples.two_callers Samples.one_approved)))
     = 1%nat
  /\ List.length
       (returned_ids
          (txns (run_schedule Samples.interleaved
                   (start Samples.two_callers Samples.one_approved))))
     = Nat.min 2 1.
Proof.
  split; [reflexivity|]. split; [reflexivity|].
  assert (PK : NoDup (map id Samples.one_approved)) by distinct_ids.
  exact (proj1 (concurrent_claims_are_exclusive Samples.two_callers
                  Samples.one_approved Samples.interleaved PK eq_refl)).
Defined.

End ConcurrentFacts.

(* ================================================================== *)
(** * Further properties of the store *)
(* ================================================================== *)

Module StoreMore.
Import Schema SchemaFacts LifecycleFacts ConcurrentFacts Keeping.

Lemma find_by_id_None_all i t :
  find_by_id i t = None -> forall x, In x t -> (id x =? i)%string = false.
Proof.
  unfold find_by_id. intros H x Hx. apply (find_none _ _ H x Hx).
Qed.

Lemma find_by_id_unknown i ses t p :
  find_by_id i t = None ->
  approve_issue i ses t = (None, t)
  /\ reject_issue i ses t = (None, t)
  /\ update_eq_id i p ses t = t.
Proof.
  intros Unknown. pose proof (find_by_id_None_all i t Unknown) as H.
  unfold approve_issue, reject_issue, update_eq_id.
  rewrite !(sql_update_none ses _ _ t H). repeat split.
Qed.

(** X1. A stored function or a worker patch aimed at an id that no row
    has returns no row and leaves the table exactly as it was: no row is
    created, and no [updated_at] moves. *)
Theorem unknown_id_changes_nothing
    (i : uuid) (ses : session) (t : table) (p : patch)
    (Unknown : find_by_id i t = None) :
  approve_issue i ses t = (None, t)
  /\ reject_issue i ses t = (None, t)
  /\ update_eq_id i p ses t = t.
Proof. exact (find_by_id_unknown i ses t p Unknown). Qed.

Lemma unknown_id_changes_nothing_witness :
  approve_issue "zzz"%string (Samples.at_ 9) Samples.backlog = (None, Samples.backlog)
  /\ reject_issue "zzz"%string (Samples.at_ 9) Samples.backlog
     = (None, Samples.backlog)
  /\ update_eq_id "zzz"%string (mk_patch (Some failed) None None) (Samples.at_ 9)
       Samples.backlog
     = Samples.backlog.
Proof.
  apply (unknown_id_changes_nothing "zzz"%string (Samples.at_ 9) Samples.backlog).
  reflexivity.
Defined.

Lemma find_by_id_replaced j l1 r r' l2 :
  id r' = id r -> j <> id r ->
  find_by_id j (l1 ++ r' :: l2) = find_by_id j (l1 ++ r :: l2).
Proof.
  intros Hid Hne. unfold find_by_id.
  induction l1 as [|a l1 IH]; cbn [app find].
  - rewrite Hid. apply not_eq_sym in Hne. apply String.eqb_neq in Hne.
    rewrite Hne. reflexivity.
  - rewrite IH. reflexivity.
Qed.

Lemma find_by_id_changed l1 r r' l2 :
  NoDup (map id (l1 ++ r :: l2)) -> id r' = id r ->
  find_by_id (id r) (l1 ++ r' :: l2) = Some r'.
Proof.
  intros PK Hid. rewrite <- Hid. apply find_by_id_In; [|apply in_elt].
  rewrite map_app in *. cbn [map] in *. rewrite Hid. exact PK.
Qed.

(** X2. On the id of a row, [approve_issue] and [reject_issue] return
    that row as updated, the id then finds the updated row, and every other
    id finds the row it found before.  The approved row keeps its [pr_url],
    [error_message], [claimed_by] and [claimed_at]: a re-approval does not
    wipe what an earlier run left. *)
Theorem approve_and_reject_rewrite_one_row
    (ses : session) (t : table) (r : issues)
    (PK : NoDup (map id t)) (Hr : In r t) :
  let a := moddatetime ses
             (set_approved (auth_uid ses) (Some (now ses))
                (set_status approved r)) in
  let j := moddatetime ses (set_status rejected r) in
  (fst (approve_issue (id r) ses t) = Some a
   /\ find_by_id (id r) (snd (approve_issue (id r) ses t)) = Some a
   /\ forall k, k <> id r ->
        find_by_id k (snd (approve_issue (id r) ses t)) = find_by_id k t)
  /\ (fst (reject_issue (id r) ses t) = Some j
      /\ find_by_id (id r) (snd (reject_issue (id r) ses t)) = Some j
      /\ forall k, k <> id r ->
           find_by_id k (snd (reject_issue (id r) ses t)) = find_by_id k t)
  /\ (pr_url a, error_message a, claimed_by a, claimed_at a)
     = (pr_url r, error_message r, claimed_by r, claimed_at r)
  /\ (approved_by j, approved_at j, pr_url j, error_message j)
     = (approved_by r, approved_at r, pr_url r, error_message r).
Proof.
  intros a j. destruct (in_split _ _ Hr) as (l1 & l2 & ->).
  unfold approve_issue, reject_issue.
  rewrite !(sql_update_by_id ses _ l1 r l2 PK). cbn [fst snd returns_issues].
  fold a j.
  split; [|split; [|split; reflexivity]].
  - split; [reflexivity|]. split.
    + apply (find_by_id_changed l1 r a l2 PK). reflexivity.
    + intros k Hne. apply find_by_id_replaced; [reflexivity|exact Hne].
  - split; [reflexivity|]. split.
    + apply (find_by_id_changed l1 r j l2 PK). reflexivity.
    + intros k Hne. apply find_by_id_replaced; [reflexivity|exact Hne].
Qed.

Lemma approve_and_reject_rewrite_one_row_witness :
  find_by_id "f"%string
    (snd (approve_issue "f"%string (Samples.at_ 9) MoreSamples.mixed_table))
  = Some (moddatetime (Samples.at_ 9)
            (set_approved None (Some 9%Z)
               (set_status approved MoreSamples.failed_issue)))
  /\ find_by_id "a"%string
       (snd (approve_issue "f"%string (Samples.at_ 9) MoreSamples.mixed_table))
     = Some Samples.known_issue.
Proof.
  assert (PK : NoDup (map id MoreSamples.mixed_table)) by distinct_ids.
  assert (Hr : In MoreSamples.failed_issue MoreSamples.mixed_table)
    by (right; right; left; reflexivity).
  destruct (proj1 (approve_and_reject_rewrite_one_row
                     (Samples.at_ 9) MoreSamples.mixed_table
                     MoreSamples.failed_issue PK Hr)) as (_ & A & B).
  split; [exact A|]. apply (B "a"%string). discriminate.
Defined.

(** X3. An accepted insert can be read back: the new id finds a row with
    the payload's title, source URL, description and instructions, created
    and updated at [now()], with no [pr_url], error or claim; every other
    id finds what it found before, and the ids stay distinct.  An insert
    whose generated id is already taken fails with a unique violation. *)
Theorem insert_then_lookup
    (u : uuid) (ses : session) (p : payload) (t : table)
    (PK : NoDup (map id t)) :
  (forall t', insert u ses p t = inr t' ->
     NoDup (map id t')
     /\ (forall i, i <> u -> find_by_id i t' = find_by_id i t)
     /\ exists r,
          find_by_id u t' = Some r
          /\ p_title p = Some (title r)
          /\ (source_url r, description r, manual_instructions r)
             = (p_source_url p, p_description p, p_manual_instructions p)
          /\ (created_at r, updated_at r) = (now ses, now ses)
          /\ (pr_url r, error_message r, claimed_by r, approved_at r)
             = (None, None, None, None))
  /\ (In u (map id t) -> p_title p <> None ->
      insert u ses p t = inl (unique_violation "issues_pkey")).
Proof.
  split.
  - intros t' E. unfold insert in E.
    destruct (p_title p) as [ti|] eqn:Et; [|discriminate].
    unfold set_issue_creator in E. cbn [created_by id set_created_by] in E.
    destruct (existsb (fun x => (id x =? u)%string) t) eqn:Fresh;
      [discriminate|].
    injection E as <-.
    pose proof (find_by_id_none _ _ Fresh) as Fnone.
    match goal with |- context [t ++ [?n]] => set (new := n) end.
    assert (Hn : id new = u) by reflexivity.
    split; [|split].
    + rewrite map_app. apply NoDup_app; [exact PK| |].
      * simpl. constructor; [intros []|constructor].
      * intros x Hx [<- | []]. apply (existsb_id_In _ _ Fresh Hx).
    + intros i Hne. rewrite (find_by_id_app_new i u t new Hn Fnone).
      apply String.eqb_neq in Hne. rewrite Hne. reflexivity.
    + exists new. split.
      * rewrite (find_by_id_app_new u u t new Hn Fnone).
        rewrite String.eqb_refl. reflexivity.
      * repeat split.
  - intros Hin Ht. unfold insert.
    destruct (p_title p) as [ti|]; [|contradiction].
    unfold set_issue_creator. cbn [created_by id set_created_by].
    destruct (existsb (fun x => (id x =? u)%string) t) eqn:Fresh;
      [reflexivity|].
    exfalso. apply (existsb_id_In _ _ Fresh Hin).
Qed.

Lemma insert_then_lookup_witness :
  insert "a"%string (Samples.at_ 9) (Samples.draft "Again") Samples.backlog
  = inl (unique_violation "issues_pkey").
Proof.
  assert (PK : NoDup (map id Samples.backlog)) by distinct_ids.
  apply (proj2 (insert_then_lookup "a"%string (Samples.at_ 9)
                  (Samples.draft "Again") Samples.backlog PK)).
  - left. reflexivity.
  - discriminate.
Defined.

(** What a claim that returns a row has done. *)
Lemma claim_issue_some w ses t r' t' :
  NoDup (map id t) ->
  claim_issue w ses t = (Some r', t') ->
  exists r rest l1 l2,
    order_by_created_at (filter (fun x => (status x =? approved)%string) t)
    = r :: rest
    /\ r' = claimed w ses r
    /\ t = l1 ++ r :: l2
    /\ t' = l1 ++ claimed w ses r :: l2.
Proof.
  intros PK E.
  destruct (order_by_created_at
              (filter (fun x => (status x =? approved)%string) t))
    as [|r rest] eqn:O.
  - rewrite (claim_issue_nothing w ses t O) in E. discriminate.
  - destruct (claim_issue_selected w ses t r rest PK O) as (l1 & l2 & Et & Ec).
    rewrite Ec in E. injection E as <- <-.
    exists r, rest, l1, l2. repeat split; assumption.
Qed.

Lemma sorted_head_approved t r rest :
  order_by_created_at (filter (fun x => (status x =? approved)%string) t)
  = r :: rest ->
  In r t /\ status r = approved
  /\ forall x, In x t -> status x = approved ->
               (created_at r <= created_at x)%Z.
Proof.
  intros O.
  assert (H : In r t /\ status r = approved).
  { apply approved_filter_In, order_by_created_at_In. rewrite O.
    left. reflexivity. }
  split; [apply H|]. split; [apply H|].
  intros x Hx Hs.
  pose proof (order_by_created_at_ascending
                (filter (fun x => (status x =? approved)%string) t)) as A.
  rewrite O in A. apply (ascending_head r rest A).
  rewrite <- O. apply order_by_created_at_In, approved_filter_In.
  split; assumption.
Qed.

(** X4. Two claims in a row never return the same record, and the second
    record was not created before the first: the backlog is served oldest
    first, whoever asks. *)
Theorem successive_claims_are_distinct_and_ordered
    (t t1 t2 : table) (w1 w2 : string) (s1 s2 : session) (r1 r2 : issues)
    (PK : NoDup (map id t))
    (First : claim_issue w1 s1 t = (Some r1, t1))
    (Second : claim_issue w2 s2 t1 = (Some r2, t2)) :
  id r1 <> id r2 /\ (created_at r1 <= created_at r2)%Z.
Proof.
  destruct (claim_issue_some w1 s1 t r1 t1 PK First)
    as (a & rest1 & l1 & l2 & O1 & -> & Et & Et1).
  subst t. destruct (after_claim_rows w1 s1 l1 a l2 PK) as (PK1 & _ & Back).
  rewrite <- Et1 in PK1, Back.
  destruct (claim_issue_some w2 s2 t1 r2 t2 PK1 Second)
    as (b & rest2 & m1 & m2 & O2 & -> & _ & _).
  destruct (sorted_head_approved _ _ _ O1) as (Ha & _ & Hmin).
  destruct (sorted_head_approved _ _ _ O2) as (Hb & Hbs & _).
  destruct (Back b Hb Hbs) as [Hb0 Hne].
  change (id (claimed w1 s1 a)) with (id a).
  change (id (claimed w2 s2 b)) with (id b).
  change (created_at (claimed w1 s1 a)) with (created_at a).
  change (created_at (claimed w2 s2 b)) with (created_at b).
  split.
  - intros E. apply Hne. symmetry. apply (row_unique _ _ _ PK Ha Hb0 E).
  - apply Hmin; assumption.
Qed.

Lemma successive_claims_are_distinct_and_ordered_witness :
  id (claimed "worker-1" (Samples.at_ 7) Samples.issue_a)
  <> id (claimed "worker-2" (Samples.at_ 8) Samples.issue_b)
  /\ (created_at (claimed "worker-1" (Samples.at_ 7) Samples.issue_a)
      <= created_at (claimed "worker-2" (Samples.at_ 8) Samples.issue_b))%Z.
Proof.
  assert (PK : NoDup (map id Samples.backlog)) by distinct_ids.
  exact (successive_claims_are_distinct_and_ordered
           Samples.backlog
           (snd (claim_issue "worker-1" (Samples.at_ 7) Samples.backlog))
           (snd (claim_issue "worker-2" (Samples.at_ 8)
                   (snd (claim_issue "worker-1" (Samples.at_ 7)
                           Samples.backlog))))
           "worker-1" "worker-2" (Samples.at_ 7) (Samples.at_ 8) _ _
           PK eq_refl eq_refl).
Defined.

Lemma approved_rows_none t :
  order_by_created_at (filter (fun x => (status x =? approved)%string) t) = [] ->
  Concurrent.approved_rows t = [].
Proof.
  intros O. unfold Concurrent.approved_rows.
  destruct (filter (fun x => (status x =? approved)%string) t)
    as [|x l] eqn:F; [reflexivity|].
  assert (H : In x (order_by_created_at (x :: l)))
    by (apply order_by_created_at_In; left; reflexivity).
  rewrite O in H. destruct H.
Qed.

Lemma sequential_claims_fill callers :
  forall t, NoDup (map id t) ->
  exists ids,
    fst (claim_sequence callers t)
    = expected_results ids (List.length callers)
    /\ List.length ids
       = Nat.min (List.length callers)
           (List.length (Concurrent.approved_rows t))
    /\ NoDup ids
    /\ forall i, In i ids ->
         exists r, In r t /\ id r = i /\ status r = approved.
Proof.
  induction callers as [|[w ses] rest IH]; intros t PK.
  - exists []. repeat split; [constructor|intros i []].
  - cbn [claim_sequence].
    destruct (order_by_created_at
                (filter (fun x => (status x =? approved)%string) t))
      as [|r sorted] eqn:O.
    + rewrite (claim_issue_nothing w ses t O).
      destruct (IH t PK) as (ids & E & L & _).
      rewrite (approved_rows_none t O) in L |- *.
      rewrite Nat.min_0_r in L. destruct ids; [|discriminate].
      destruct (claim_sequence rest t) as [rs t'']. cbn [fst] in *.
      exists []. rewrite E. unfold expected_results. cbn.
      rewrite Nat.sub_0_r. repeat split; [constructor|intros i []].
    + destruct (claim_issue_selected w ses t r sorted PK O)
        as (l1 & l2 & Et & Ec).
      rewrite Ec. subst t.
      destruct (after_claim_rows w ses l1 r l2 PK) as (PK1 & _ & Back).
      destruct (sorted_head_approved _ _ _ O) as (Hr & Hs & _).
      destruct (IH _ PK1) as (ids & E & L & ND & Rows).
      destruct (claim_sequence rest (l1 ++ claimed w ses r :: l2))
        as [rs t'']. cbn [fst option_map] in *.
      change (id (claimed w ses r)) with (id r).
      exists (id r :: ids). split; [|split; [|split]].
      * rewrite E. reflexivity.
      * cbn [List.length]. rewrite L. rewrite !approved_rows_middle.
        rewrite Hs. change ((approved =? approved)%string) with true.
        change (status (claimed w ses r) =? approved)%string with false.
        rewrite !length_app. cbn [List.length app].
        rewrite Nat.add_succ_r, <- Nat.succ_min_distr. reflexivity.
      * constructor; [|exact ND]. intros Hin.
        destruct (Rows _ Hin) as (x & Hx & Hix & Hsx).
        destruct (Back x Hx Hsx) as [Hx0 Hne]. apply Hne.
        apply (row_unique _ _ _ PK Hx0 Hr Hix).
      * intros i [<- | Hin].
        -- exists r. repeat split; assumption.
        -- destruct (Rows _ Hin) as (x & Hx & Hix & Hsx).
           destruct (Back x Hx Hsx) as [Hx0 _].
           exists x. repeat split; assumption.
Qed.

(** X5. Of N claims made one after the other against M approved rows, the
    first min(N, M) return a row each, all different and all rows that were
    approved, and every later claim returns none. *)
Theorem sequential_claims_drain_the_backlog
    (callers : list (string * session)) (t : table)
    (PK : NoDup (map id t)) :
  exists ids,
    fst (claim_sequence callers t)
    = map Some ids ++ repeat None (List.length callers - List.length ids)
    /\ List.length ids
       = Nat.min (List.length callers)
           (List.length (Concurrent.approved_rows t))
    /\ NoDup ids
    /\ forall i, In i ids ->
         exists r, In r t /\ id r = i /\ status r = approved.
Proof. exact (sequential_claims_fill callers t PK). Qed.

Lemma sequential_claims_drain_the_backlog_witness :
  exists ids,
    fst (claim_sequence Samples.two_callers Samples.one_approved)
    = map Some ids ++ repeat None (2 - List.length ids)
    /\ List.length ids = Nat.min 2 1
    /\ NoDup ids
    /\ forall i, In i ids ->
         exists r, In r Samples.one_approved /\ id r = i
                   /\ status r = approved.
Proof.
  assert (PK : NoDup (map id Samples.one_approved)) by distinct_ids.
  exact (sequential_claims_drain_the_backlog
           Samples.two_callers Samples.one_approved PK).
Defined.

End StoreMore.

(* ================================================================== *)
(** * Further properties of the lifecycle *)
(* ================================================================== *)

Module LifecycleMore.
Import Schema Js Lifecycle SchemaFacts LifecycleFacts Keeping.

Lemma good_approve ses :
  good_update ses
    (fun r => moddatetime ses
                (set_approved (auth_uid ses) (Some (now ses))
                   (set_status approved r))).
Proof. intros r. repeat split; simpl; auto. Qed.

Lemma good_reject ses :
  good_update ses (fun r => moddatetime ses (set_status rejected r)).
Proof. intros r. repeat split; simpl; auto. Qed.

Lemma good_claim ses w :
  good_update ses
    (fun r => moddatetime ses
                (set_claimed (Some w) (Some (now ses))
                   (set_status in_progress r))).
Proof. intros r. repeat split; simpl; auto. Qed.

Lemma good_finish ses o :
  good_update ses (fun r => moddatetime ses (apply_patch (terminal_patch o) r)).
Proof. intros r. destruct o; repeat split; simpl; auto. Qed.

Lemma find_by_id_present t r :
  In r t -> exists r0, find_by_id (id r) t = Some r0.
Proof.
  intros H. unfold find_by_id.
  destruct (find (fun x => (id x =? id r)%string) t) as [r0|] eqn:F.
  - exists r0. reflexivity.
  - pose proof (find_none _ _ F r H) as E. cbv beta in E.
    rewrite String.eqb_refl in E. discriminate.
Qed.

Lemma find_by_id_app_old i t l r :
  find_by_id i t = Some r -> find_by_id i (t ++ l) = Some r.
Proof.
  unfold find_by_id. induction t as [|a t IH]; simpl; [discriminate|].
  destruct (id a =? i)%string; [trivial|exact IH].
Qed.

Lemma claim_step_table ses w s :
  tbl (step ses (op_claim w) s) = snd (claim_issue w ses (tbl s)).
Proof.
  cbn [step]. destruct (claim_issue w ses (tbl s)) as [[r|] t]; reflexivity.
Qed.

(** What one operation does to the table: nothing; or it appends the
    inserted row; or it rewrites the rows of one id by a good update. *)
Lemma step_shape ses o s :
  (tbl (step ses o s) = tbl s /\ written ses o s = None)
  \/ (exists u p new,
        o = op_insert u p
        /\ tbl (step ses o s) = tbl s ++ [new]
        /\ written ses o s = Some u
        /\ id new = u
        /\ find_by_id u (tbl s) = None
        /\ updated_at new = now ses
        /\ status new = column_default reported (p_status p)
        /\ (pr_url new, error_message new, claimed_by new, claimed_at new,
            approved_at new) = (None, None, None, None, None))
  \/ (exists i0 g r0,
        tbl (step ses o s)
        = map (fun r => if (id r =? i0)%string then g r else r) (tbl s)
        /\ written ses o s = Some i0
        /\ find_by_id i0 (tbl s) = Some r0
        /\ good_update ses g).
Proof.
  destruct o as [u p | i0 | i0 | w | i0 o].
  - cbn [step written]. unfold insert.
    destruct (p_title p) as [ti|]; [|left; split; reflexivity].
    unfold set_issue_creator. cbn [created_by id set_created_by].
    destruct (existsb (fun x => (id x =? u)%string) (tbl s)) eqn:Fresh;
      [left; split; reflexivity|].
    right. left. eexists u, p, _. split; [reflexivity|].
    cbn [tbl]. split; [reflexivity|]. split; [reflexivity|].
    split; [reflexivity|]. split; [apply find_by_id_none, Fresh|].
    repeat split.
  - destruct (find_by_id i0 (tbl s)) as [r0|] eqn:F.
    + right. right. eexists i0, _, r0. split; [reflexivity|].
      split; [|split; [exact F|apply good_approve]].
      cbn [written]. unfold approve_issue, sql_update. cbn [fst].
      rewrite returning_by_id by reflexivity. rewrite F. reflexivity.
    + left. cbn [step written].
      rewrite (proj1 (StoreMore.find_by_id_unknown i0 ses (tbl s)
                        (mk_patch None None None) F)).
      split; reflexivity.
  - destruct (find_by_id i0 (tbl s)) as [r0|] eqn:F.
    + right. right. eexists i0, _, r0. split; [reflexivity|].
      split; [|split; [exact F|apply good_reject]].
      cbn [written]. unfold reject_issue, sql_update. cbn [fst].
      rewrite returning_by_id by reflexivity. rewrite F. reflexivity.
    + left. cbn [step written].
      rewrite (proj1 (proj2 (StoreMore.find_by_id_unknown i0 ses (tbl s)
                               (mk_patch None None None) F))).
      split; reflexivity.
  - rewrite claim_step_table. cbn [written].
    destruct (order_by_created_at
                (filter (fun x => (status x =? approved)%string) (tbl s)))
      as [|r rest] eqn:O.
    + left. rewrite (claim_issue_nothing w ses (tbl s) O). split; reflexivity.
    + right. right.
      destruct (StoreMore.sorted_head_approved _ _ _ O) as (Hin & _).
      destruct (find_by_id_present _ _ Hin) as [r0 F].
      eexists (id r), _, r0.
      unfold claim_issue. rewrite O. cbn [limit firstn].
      unfold sql_update, id_eq_scalar. cbn [fst snd].
      split; [reflexivity|]. split; [|split; [exact F|apply (good_claim ses w)]].
      rewrite returning_by_id by reflexivity. rewrite F. reflexivity.
  - cbn [step written]. destruct (holds i0 (in_flight s));
      [|left; split; reflexivity].
    destruct (find_by_id i0 (tbl s)) as [r0|] eqn:F.
    + right. right. exists i0, (fun r => moddatetime ses
                                  (apply_patch (terminal_patch o) r)), r0.
      cbn [tbl option_map]. split; [reflexivity|].
      split; [f_equal; apply (find_by_id_some _ _ _ F)|].
      split; [exact F|apply good_finish].
    + left. cbn [tbl option_map].
      rewrite (proj2 (proj2 (StoreMore.find_by_id_unknown i0 ses (tbl s)
                               (terminal_patch o) F))).
      split; reflexivity.
Qed.

Lemma same_data_refl r : same_data r r.
Proof. repeat split. Qed.

Lemma keeps_marks_refl r : keeps_marks r r.
Proof. repeat split; trivial. Qed.

Lemma same_data_trans a b c : same_data a b -> same_data b c -> same_data a c.
Proof.
  unfold same_data. intros H1 H2.
  destruct H1 as (A1 & A2 & A3 & A4 & A5 & A6 & A7).
  destruct H2 as (B1 & B2 & B3 & B4 & B5 & B6 & B7).
  repeat split; congruence.
Qed.

Lemma keeps_marks_trans a b c :
  keeps_marks a b -> keeps_marks b c -> keeps_marks a c.
Proof.
  unfold keeps_marks. intros H1 H2.
  destruct H1 as (A1 & A2 & A3 & A4 & A5).
  destruct H2 as (B1 & B2 & B3 & B4 & B5).
  repeat split; auto.
Qed.

Lemma step_keeps ses o s i r :
  find_by_id i (tbl s) = Some r ->
  exists r', find_by_id i (tbl (step ses o s)) = Some r'
             /\ same_data r r' /\ keeps_marks r r'.
Proof.
  intros F.
  destruct (step_shape ses o s)
    as [[E _] | [(u & p & new & _ & E & _) | (i0 & g & r0 & E & _ & F0 & G)]];
    rewrite E.
  - exists r. split; [exact F|]. split; [apply same_data_refl|apply keeps_marks_refl].
  - exists r. split; [apply find_by_id_app_old, F|].
    split; [apply same_data_refl|apply keeps_marks_refl].
  - rewrite find_by_id_update by (intros x; apply (G x)).
    destruct (i =? i0)%string eqn:Ei.
    + apply String.eqb_eq in Ei. subst i0. rewrite F. cbn [option_map].
      exists (g r). split; [reflexivity|]. split; apply (G r).
    + exists r. split; [exact F|].
      split; [apply same_data_refl|apply keeps_marks_refl].
Qed.

Lemma run_ops_keeps ops :
  forall s i r,
    find_by_id i (tbl s) = Some r ->
    exists r', find_by_id i (tbl (run_ops ops s)) = Some r'
               /\ same_data r r' /\ keeps_marks r r'.
Proof.
  induction ops as [|[ses o] ops IH]; intros s i r F.
  - exists r. split; [exact F|].
    split; [apply same_data_refl|apply keeps_marks_refl].
  - destruct (step_keeps ses o s i r F) as (r1 & F1 & D1 & M1).
    destruct (IH (step ses o s) i r1 F1) as (r2 & F2 & D2 & M2).
    exists r2. split; [exact F2|]. split.
    + apply (same_data_trans _ _ _ D1 D2).
    + apply (keeps_marks_trans _ _ _ M1 M2).
Qed.

(** X6. No sequence of operations, offered by the portal or not, removes a
    record or edits what was reported: a record that can be looked up stays
    there, with the same id, creation time, title, source URL, description,
    manual instructions and creator. *)
Theorem records_are_never_removed_or_edited
    (ops : list (session * op)) (s : state) (i : uuid) (r : issues)
    (Found : find_by_id i (tbl s) = Some r) :
  exists r',
    find_by_id i (tbl (run_ops ops s)) = Some r'
    /\ id r' = id r
    /\ created_at r' = created_at r
    /\ title r' = title r
    /\ source_url r' = source_url r
    /\ description r' = description r
    /\ manual_instructions r' = manual_instructions r
    /\ created_by r' = created_by r.
Proof.
  destruct (run_ops_keeps ops s i r Found) as (r' & F & D & _).
  exists r'. split; [exact F|exact D].
Qed.

Lemma records_are_never_removed_or_edited_witness :
  exists r',
    find_by_id "a"%string
      (tbl (run_ops MoreSamples.direct_approve
              (mk_state [Samples.issue_with_pr] [])))
    = Some r'
    /\ id r' = id Samples.issue_with_pr
    /\ created_at r' = created_at Samples.issue_with_pr
    /\ title r' = title Samples.issue_with_pr
    /\ source_url r' = source_url Samples.issue_with_pr
    /\ description r' = description Samples.issue_with_pr
    /\ manual_instructions r' = manual_instructions Samples.issue_with_pr
    /\ created_by r' = created_by Samples.issue_with_pr.
Proof.
  apply (records_are_never_removed_or_edited MoreSamples.direct_approve
           (mk_state [Samples.issue_with_pr] []) "a"%string
           Samples.issue_with_pr).
  reflexivity.
Defined.

(** X7. No operation resets a mark to NULL: once a record has a
    [pr_url], an [error_message], a [claimed_by], a [claimed_at] or an
    [approved_at], it has one in every later state, also after a
    re-approval, a new claim or a terminal write. *)
Theorem marks_are_never_cleared
    (ops : list (session * op)) (s : state) (i : uuid) (r : issues)
    (Found : find_by_id i (tbl s) = Some r) :
  exists r',
    find_by_id i (tbl (run_ops ops s)) = Some r'
    /\ (is_set (pr_url r) = true -> is_set (pr_url r') = true)
    /\ (is_set (error_message r) = true -> is_set (error_message r') = true)
    /\ (is_set (claimed_by r) = true -> is_set (claimed_by r') = true)
    /\ (is_set (claimed_at r) = true -> is_set (claimed_at r') = true)
    /\ (is_set (approved_at r) = true -> is_set (approved_at r') = true).
Proof.
  destruct (run_ops_keeps ops s i r Found) as (r' & F & _ & M).
  exists r'. split; [exact F|exact M].
Qed.

Lemma marks_are_never_cleared_witness :
  exists r',
    find_by_id "a"%string
      (tbl (run_ops MoreSamples.direct_approve
              (mk_state [Samples.issue_with_pr] [])))
    = Some r'
    /\ status r' = approved
    /\ is_set (pr_url r') = true
    /\ is_set (claimed_by r') = true.
Proof.
  destruct (marks_are_never_cleared MoreSamples.direct_approve
              (mk_state [Samples.issue_with_pr] []) "a"%string
              Samples.issue_with_pr eq_refl)
    as (r' & F & P & _ & Cb & _).
  exists r'. split; [exact F|]. split.
  - cbv in F. injection F as <-. reflexivity.
  - split; [apply P|apply Cb]; reflexivity.
Defined.

Lemma step_rows_ok ses o s :
  inserts_reported [(ses, o)] = true ->
  (forall r, In r (tbl s) -> row_ok r = true) ->
  forall r, In r (tbl (step ses o s)) -> row_ok r = true.
Proof.
  intros Ins Ok r' Hr'.
  destruct (step_shape ses o s)
    as [[E _] | [(u & p & new & Eo & E & _ & _ & _ & _ & St & Mk)
                | (i0 & g & r0 & E & _ & _ & G)]];
    rewrite E in Hr'.
  - apply Ok, Hr'.
  - apply in_app_or in Hr'. destruct Hr' as [Hr' | [<- | []]]; [apply Ok, Hr'|].
    subst o. cbn [inserts_reported] in Ins. rewrite andb_true_r in Ins.
    assert (Hs : status new = reported).
    { rewrite St. destruct (p_status p) as [st|]; [|reflexivity].
      apply String.eqb_eq in Ins. exact Ins. }
    unfold row_ok. rewrite Hs. reflexivity.
  - apply update_rows in Hr'. destruct Hr' as [[Hin _] | (r & _ & _ & ->)].
    + apply Ok, Hin.
    + apply (G r).
Qed.

Lemma run_ops_rows_ok ops :
  forall s,
    inserts_reported ops = true ->
    (forall r, In r (tbl s) -> row_ok r = true) ->
    forall r, In r (tbl (run_ops ops s)) -> row_ok r = true.
Proof.
  induction ops as [|[ses o] ops IH]; intros s Ins Ok; [exact Ok|].
  cbn [run_ops]. apply IH.
  - destruct o; cbn [inserts_reported] in Ins; try exact Ins.
    apply andb_prop in Ins. apply Ins.
  - apply step_rows_ok; [|exact Ok].
    destruct o; cbn [inserts_reported] in *; try reflexivity.
    apply andb_prop in Ins. rewrite (proj1 Ins). reflexivity.
Qed.

(** X8. As long as inserts carry ['reported'], every record, however the
    stored functions and the workers were called, has one of the six
    statuses the services write, never ['done'], and carries what its
    status comes with: an approved record its [approved_at], a record in
    progress its [claimed_by] and [claimed_at], a failed record an
    [error_message], a record with a pull request its [pr_url]. *)
Theorem every_record_carries_its_marks
    (ops : list (session * op)) (r : issues)
    (Ins : inserts_reported ops = true)
    (Hr : In r (tbl (run_ops ops initial))) :
  In (status r) written_statuses
  /\ status r <> done
  /\ (status r = approved -> is_set (approved_at r) = true)
  /\ (status r = in_progress ->
      is_set (claimed_by r) = true /\ is_set (claimed_at r) = true)
  /\ (status r = failed -> is_set (error_message r) = true)
  /\ (status r = pr_raised -> is_set (pr_url r) = true).
Proof.
  pose proof (run_ops_rows_ok ops initial Ins (fun x (H : In x []) =>
                match H with end) r Hr) as Ok.
  unfold row_ok in Ok.
  apply andb_prop in Ok. destruct Ok as [Ok P].
  apply andb_prop in Ok. destruct Ok as [Ok F].
  apply andb_prop in Ok. destruct Ok as [Ok C].
  apply andb_prop in Ok. destruct Ok as [S A].
  assert (Hin : In (status r) written_statuses).
  { apply existsb_exists in S. destruct S as (x & Hx & E).
    apply String.eqb_eq in E. rewrite E. exact Hx. }
  split; [exact Hin|]. split.
  - intros E. rewrite E in Hin. simpl in Hin.
    repeat (destruct Hin as [Hin | Hin]; [discriminate|]). exact Hin.
  - split; [|split; [|split]].
    + intros E. rewrite E in A. exact A.
    + intros E. rewrite E in C. apply andb_prop in C. exact C.
    + intros E. rewrite E in F. exact F.
    + intros E. rewrite E in P. exact P.
Qed.

Lemma every_record_carries_its_marks_witness :
  In (status Samples.issue_with_pr) written_statuses
  /\ status Samples.issue_with_pr <> done
  /\ (status Samples.issue_with_pr = approved ->
      is_set (approved_at Samples.issue_with_pr) = true)
  /\ (status Samples.issue_with_pr = in_progress ->
      is_set (claimed_by Samples.issue_with_pr) = true
      /\ is_set (claimed_at Samples.issue_with_pr) = true)
  /\ (status Samples.issue_with_pr = failed ->
      is_set (error_message Samples.issue_with_pr) = true)
  /\ (status Samples.issue_with_pr = pr_raised ->
      is_set (pr_url Samples.issue_with_pr) = true).
Proof.
  apply (every_record_carries_its_marks Samples.raise_pr Samples.issue_with_pr).
  - reflexivity.
  - left. reflexivity.
Defined.

(** X9. Every operation that writes a record leaves it with [updated_at]
    equal to the [now()] of the operation, through the trigger also for the
    worker's patches; and an operation that does not write a record leaves
    what its id finds exactly as it was. *)
Theorem every_write_stamps_updated_at
    (ses : session) (o : op) (s : state) (i : uuid) :
  (written ses o s = Some i ->
   exists r', find_by_id i (tbl (step ses o s)) = Some r'
              /\ updated_at r' = now ses)
  /\ (written ses o s <> Some i ->
      find_by_id i (tbl (step ses o s)) = find_by_id i (tbl s)).
Proof.
  destruct (step_shape ses o s)
    as [[E W] | [(u & p & new & _ & E & W & Hid & Fn & Up & _)
                | (i0 & g & r0 & E & W & F0 & G)]];
    rewrite E, W.
  - split; [discriminate|reflexivity].
  - rewrite (find_by_id_app_new i u (tbl s) new Hid Fn). split.
    + intros [= ->]. rewrite String.eqb_refl. exists new. split; [reflexivity|exact Up].
    + intros Hne. destruct (i =? u)%string eqn:Ei; [|reflexivity].
      apply String.eqb_eq in Ei. congruence.
  - rewrite find_by_id_update by (intros x; apply (G x)). split.
    + intros [= ->]. rewrite String.eqb_refl, F0. exists (g r0).
      split; [reflexivity|apply (G r0)].
    + intros Hne. destruct (i =? i0)%string eqn:Ei; [|reflexivity].
      apply String.eqb_eq in Ei. exfalso. apply Hne. rewrite Ei. reflexivity.
Qed.

Lemma every_write_stamps_updated_at_witness :
  exists r',
    find_by_id "a"%string
      (tbl (step (Samples.at_ 5) (op_approve "a"%string)
              (mk_state [Samples.issue_with_pr] [])))
    = Some r'
    /\ updated_at r' = 5%Z.
Proof.
  apply (proj1 (every_write_stamps_updated_at (Samples.at_ 5)
                  (op_approve "a"%string)
                  (mk_state [Samples.issue_with_pr] []) "a"%string)).
  reflexivity.
Defined.

End LifecycleMore.

(* ================================================================== *)
(** * Further properties of the worker *)
(* ================================================================== *)

Module WorkerMore.
Import Schema Js Outside Worker SchemaFacts LifecycleFacts WorkerFacts Keeping.
Local Open Scope async_scope.

(** ** Strings *)

Lemma trimStart_all_ws s : all_ws (trimStart s) = all_ws s.
Proof.
  induction s as [|c s IH]; [reflexivity|]. simpl.
  destruct (is_ws c) eqn:E; [exact IH|]. simpl. rewrite E. reflexivity.
Qed.

Lemma trimStart_empty s : trimStart s = ""%string <-> all_ws s = true.
Proof.
  induction s as [|c s IH]; simpl; [tauto|].
  destruct (is_ws c); simpl; [exact IH|]. split; discriminate.
Qed.

Lemma rev_append_all_ws s acc :
  all_ws (rev_append s acc) = all_ws s && all_ws acc.
Proof.
  revert acc. induction s as [|c s IH]; intros acc; [reflexivity|].
  simpl. rewrite IH. simpl.
  destruct (is_ws c), (all_ws s), (all_ws acc); reflexivity.
Qed.

Lemma rev_append_empty s acc :
  rev_append s acc = ""%string -> s = ""%string /\ acc = ""%string.
Proof.
  revert acc. induction s as [|c s IH]; intros acc H; [split; [reflexivity|exact H]|].
  simpl in H. destruct (IH _ H) as [_ E]. discriminate.
Qed.

(** X10. [run] takes the working copy for unchanged exactly when the
    output of [git status --porcelain] consists of white space only: the
    trimmed output is the empty string, the one falsy string, if and only if
    every character of the output is white space. *)
Theorem trim_is_empty_iff_blank (out : string) :
  negb (truthy (trim out)) = true <-> all_ws out = true.
Proof.
  unfold truthy. rewrite negb_involutive, String.eqb_eq.
  unfold trim, rev. split.
  - intros H. apply rev_append_empty in H. destruct H as [H _].
    apply trimStart_empty in H.
    rewrite rev_append_all_ws, trimStart_all_ws, andb_true_r in H. exact H.
  - intros H.
    assert (E : trimStart (rev_append (trimStart out) "") = ""%string).
    { apply trimStart_empty.
      rewrite rev_append_all_ws, trimStart_all_ws, H. reflexivity. }
    rewrite E. reflexivity.
Qed.

Lemma find_first {A} (f : A -> bool) l x :
  find f l = Some x ->
  exists l1 l2, l = l1 ++ x :: l2 /\ f x = true
                /\ forall y, In y l1 -> f y = false.
Proof.
  induction l as [|a l IH]; simpl; [discriminate|].
  destruct (f a) eqn:E.
  - intros [= <-]. exists [], l. repeat split; [exact E|intros y []].
  - intros H. destruct (IH H) as (l1 & l2 & -> & Fx & Hl).
    exists (a :: l1), l2. repeat split; [exact Fx|].
    intros y [<- | Hy]; [exact E|apply Hl, Hy].
Qed.

(** X11. The link [processIssue] stores is the first line of the output
    of [gh pr create] that contains ["http"], and the whole output when no
    line does. *)
Theorem extract_pr_url_takes_first_link (prOutput : string) :
  (extract_pr_url prOutput = prOutput
   /\ forall l, In l (split_nl prOutput) -> includes "http" l = false)
  \/ (exists before after,
        split_nl prOutput = before ++ extract_pr_url prOutput :: after
        /\ includes "http" (extract_pr_url prOutput) = true
        /\ forall l, In l before -> includes "http" l = false).
Proof.
  unfold extract_pr_url.
  destruct (find (includes "http") (split_nl prOutput)) as [l|] eqn:F.
  - right. destruct (find_first _ _ _ F) as (l1 & l2 & E & Fx & Hl).
    exists l1, l2. repeat split; assumption.
  - left. split; [reflexivity|]. intros l Hl. apply (find_none _ _ F l Hl).
Qed.

Section Runs.
Context {World : Type} {C : Collaborators World} (cfg : config).

Lemma patch_keeps_id p ses r : id (moddatetime ses (apply_patch p r)) = id r.
Proof. destruct p as [[st|] [u|] [m|]]; reflexivity. Qed.

Lemma update_eq_id_elsewhere i p ses t j :
  j <> i -> find_by_id j (update_eq_id i p ses t) = find_by_id j t.
Proof.
  intros Hne. unfold update_eq_id, sql_update. cbn [fst].
  rewrite (find_by_id_update j i (fun r => moddatetime ses (apply_patch p r)))
    by (intros r; apply patch_keeps_id).
  apply String.eqb_neq in Hne. rewrite Hne. reflexivity.
Qed.

Lemma update_eq_id_ids i p ses t : map id (update_eq_id i p ses t) = map id t.
Proof.
  unfold update_eq_id, sql_update. cbn [fst]. rewrite map_map.
  apply map_ext. intros r.
  destruct (id r =? i)%string; [apply patch_keeps_id|reflexivity].
Qed.

Lemma terminal_patch_status o ses r :
  status (moddatetime ses (apply_patch (Lifecycle.terminal_patch o) r)) = failed
  \/ status (moddatetime ses (apply_patch (Lifecycle.terminal_patch o) r))
     = pr_raised.
Proof. destruct o; [left|right|left]; reflexivity. Qed.

(** X12. A run of [processIssue] touches no record but the one it was
    given: every other id finds the same row afterwards, the table has the
    same ids and as many rows as before, and the issue's own row is either
    untouched or has status ['failed'] or ['pr_raised']; the worker writes
    no other status. *)
Theorem processIssue_touches_only_its_issue
    (issue : issues) (s : Sys World) :
  (forall j, j <> id issue ->
     find_by_id j (db (snd (processIssue cfg issue s))) = find_by_id j (db s))
  /\ ((forall j, In j (map id (db (snd (processIssue cfg issue s))))
                 <-> In j (map id (db s)))
      /\ List.length (db (snd (processIssue cfg issue s)))
         = List.length (db s))
  /\ (forall r, find_by_id (id issue) (db s) = Some r ->
       exists r',
         find_by_id (id issue) (db (snd (processIssue cfg issue s))) = Some r'
         /\ (r' = r \/ status r' = failed \/ status r' = pr_raised)).
Proof.
  destruct (processIssue_writes_once cfg issue s)
    as [E | [_ (o & ses & E)]]; rewrite E.
  - split; [reflexivity|]. split; [split; [reflexivity|reflexivity]|].
    intros r F. exists r. split; [exact F|left; reflexivity].
  - split; [intros j Hne; apply update_eq_id_elsewhere, Hne|].
    split.
    { split.
      - intros j. rewrite update_eq_id_ids. reflexivity.
      - rewrite <- (length_map id), update_eq_id_ids. apply length_map. }
    intros r F. rewrite (find_after_update _ _ _ _ _ F).
    eexists. split; [reflexivity|]. right. apply terminal_patch_status.
Qed.

Lemma settles_after_quiet {A B} i (m : Async World A)
    (k : A -> Async World B) :
  quiet m -> (forall a, settles i (k a)) -> settles i (bind m k).
Proof.
  intros Q Hk s. unfold bind. destruct (Q s) as [D _].
  destruct (m s) as [[a|e] s1]; cbn [fst snd] in *.
  - rewrite <- D. apply Hk.
  - right. split; [exists e; reflexivity|exact D].
Qed.

Lemma updateIssue_settles i o :
  (forall w, fst (supabase w) = fulfilled) ->
  forall s : Sys World,
    fst (updateIssue i (Lifecycle.terminal_patch o) s) = Normal tt
    /\ exists ses,
         db (snd (updateIssue i (Lifecycle.terminal_patch o) s))
         = update_eq_id i (Lifecycle.terminal_patch o) ses (db s).
Proof.
  intros Ok s. destruct (supabase (world s)) as [a w] eqn:E.
  pose proof (Ok (world s)) as Ha. rewrite E in Ha. cbn [fst] in Ha. subst a.
  rewrite (updateIssue_answer i _ s fulfilled w E). cbn [fst snd db].
  split; [reflexivity|]. eexists. reflexivity.
Qed.

Lemma processIssue_settles
    (issue : issues) (s : Sys World)
    (Store : forall w, fst (supabase w) = fulfilled) :
  fst (processIssue cfg issue s) = Normal tt
  /\ (exists o ses,
        db (snd (processIssue cfg issue s))
        = update_eq_id (id issue) (Lifecycle.terminal_patch o) ses (db s))
  /\ (forall r, find_by_id (id issue) (db s) = Some r ->
       exists r',
         find_by_id (id issue) (db (snd (processIssue cfg issue s))) = Some r'
         /\ (status r' = failed \/ status r' = pr_raised)).
Proof.
  assert (Body : settles (id issue) (pipeline cfg issue)).
  { unfold pipeline.
    apply settles_after_quiet; [apply quiet_prepare|intros _].
    apply settles_after_quiet; [apply quiet_run|intros st].
    assert (U : forall o, settles (id issue)
                  (updateIssue (id issue) (Lifecycle.terminal_patch o))).
    { intros o s0. left. destruct (updateIssue_settles (id issue) o Store s0)
        as (N & ses & E).
      split; [exists tt; exact N|]. exists o, ses. exact E. }
    destruct (negb (truthy st)).
    - apply (U Lifecycle.no_changes).
    - unfold publish.
      repeat (apply settles_after_quiet; [apply quiet_run|intros ?]).
      apply (U (Lifecycle.pr_created _)). }
  assert (Main : fst (processIssue cfg issue s) = Normal tt
                 /\ exists o ses,
                      db (snd (processIssue cfg issue s))
                      = update_eq_id (id issue) (Lifecycle.terminal_patch o)
                          ses (db s)).
  { unfold processIssue, try_catch. specialize (Body s).
    destruct (pipeline cfg issue s) as [[[]|e] s1]; cbn [fst snd] in *.
    - destruct Body as [[_ H] | [[e He] _]]; [|discriminate].
      split; [reflexivity|exact H].
    - destruct Body as [[[a Ha] _] | [_ D]]; [discriminate|].
      destruct (updateIssue_settles (id issue) (Lifecycle.threw e) Store s1)
        as (N & ses & E).
      split; [exact N|]. exists (Lifecycle.threw e), ses. rewrite <- D.
      exact E. }
  destruct Main as (N & o & ses & E).
  split; [exact N|]. split; [exists o, ses; exact E|].
  intros r F. rewrite E, (find_after_update _ _ _ _ _ F).
  eexists. split; [reflexivity|apply terminal_patch_status].
Qed.

(** X13. When the store applies every request, a run of [processIssue]
    always completes normally with exactly one terminal patch applied: a
    claimed record then never stays ['in_progress'] but ends ['failed'] or
    ['pr_raised'], whatever the commands and the remediation tool do. *)
Theorem processIssue_always_settles
    (issue : issues) (s : Sys World)
    (Store : forall w, fst (supabase w) = fulfilled) :
  fst (processIssue cfg issue s) = Normal tt
  /\ (exists o ses,
        db (snd (processIssue cfg issue s))
        = update_eq_id (id issue) (Lifecycle.terminal_patch o) ses (db s))
  /\ (forall r, find_by_id (id issue) (db s) = Some r ->
       exists r',
         find_by_id (id issue) (db (snd (processIssue cfg issue s))) = Some r'
         /\ (status r' = failed \/ status r' = pr_raised)).
Proof. exact (processIssue_settles issue s Store). Qed.

Lemma publish_ok issue (s2 : Sys World) o3 w3 o4 w4 o5 w5 prOut w6 w7 :
  execSync "git add ." (world s2) = (inr o3, w3) ->
  execSync ("git commit -m " ++ dq ++ "Fix issue " ++ id issue ++ ": "
            ++ title issue ++ dq)%string w3 = (inr o4, w4) ->
  execSync ("git push -u origin " ++ branchName issue)%string w4
  = (inr o5, w5) ->
  execSync (pr_create_command cfg issue) w5 = (inr prOut, w6) ->
  supabase w6 = (fulfilled, w7) ->
  fst (publish cfg issue s2) = Normal tt
  /\ db (snd (publish cfg issue s2))
     = update_eq_id (id issue)
         (mk_patch (Some pr_raised) (Some (extract_pr_url (trim prOut))) None)
         (mk_session (clock w7) None) (db s2).
Proof.
  intros H3 H4 H5 H6 H7.
  assert (E : exists tr,
            publish cfg issue s2
            = (Normal tt,
               mk_Sys (update_eq_id (id issue)
                         (mk_patch (Some pr_raised)
                            (Some (extract_pr_url (trim prOut))) None)
                         (mk_session (clock w7) None) (db s2)) w7 tr)).
  { eexists. unfold publish.
    unfold bind at 1. rewrite (run_ok _ s2 o3 w3 H3).
    unfold bind at 1.
    rewrite (run_ok _ (mk_Sys (db s2) w3 _) o4 w4 H4). cbn [db world trace].
    unfold bind at 1.
    rewrite (run_ok _ (mk_Sys (db s2) w4 _) o5 w5 H5). cbn [db world trace].
    unfold bind at 1.
    rewrite (run_ok _ (mk_Sys (db s2) w5 _) prOut w6 H6). cbn [db world trace].
    rewrite (updateIssue_answer _ _ (mk_Sys (db s2) w6 _) fulfilled w7 H7).
    reflexivity. }
  destruct E as [tr E]. rewrite E. split; reflexivity.
Qed.

(** X14. When the steps up to the inspection complete, the working copy
    has changes, the add, commit, push and [gh pr create] commands succeed
    and the store applies the write, [processIssue] completes normally and
    the record is ['pr_raised'] with the link extracted from the trimmed
    output of [gh]; its [error_message] is left as it was. *)
Theorem changes_end_in_pull_request
    (issue : issues) (s s1 : Sys World) (out o3 o4 o5 prOut : string)
    (w2 w3 w4 w5 w6 w7 : World)
    (Hprepare : prepare cfg issue s = (Normal tt, s1))
    (Hstatus : execSync "git status --porcelain" (world s1) = (inr out, w2))
    (Hdiff : trim out <> ""%string)
    (Hadd : execSync "git add ." w2 = (inr o3, w3))
    (Hcommit : execSync ("git commit -m " ++ dq ++ "Fix issue " ++ id issue
                         ++ ": " ++ title issue ++ dq)%string w3
               = (inr o4, w4))
    (Hpush : execSync ("git push -u origin " ++ branchName issue)%string w4
             = (inr o5, w5))
    (Hpr : execSync (pr_create_command cfg issue) w5 = (inr prOut, w6))
    (Hstore : supabase w6 = (fulfilled, w7)) :
  fst (processIssue cfg issue s) = Normal tt
  /\ db (snd (processIssue cfg issue s))
     = update_eq_id (id issue)
         (mk_patch (Some pr_raised) (Some (extract_pr_url (trim prOut))) None)
         (mk_session (clock w7) None) (db s)
  /\ (forall r, find_by_id (id issue) (db s) = Some r ->
       exists r',
         find_by_id (id issue) (db (snd (processIssue cfg issue s))) = Some r'
         /\ status r' = pr_raised
         /\ pr_url r' = Some (extract_pr_url (trim prOut))
         /\ error_message r' = error_message r).
Proof.
  destruct (quiet_prepare cfg issue s) as (D1 & _).
  rewrite Hprepare in D1. cbn [snd] in D1.
  set (s2 := mk_Sys (db s1) w2
               (trace s1 ++ [ev_exec "git status --porcelain"])).
  destruct (publish_ok issue s2 o3 w3 o4 w4 o5 w5 prOut w6 w7
              Hadd Hcommit Hpush Hpr Hstore) as [N E].
  assert (Hpipe : pipeline cfg issue s = publish cfg issue s2).
  { unfold pipeline. unfold bind at 1. rewrite Hprepare.
    unfold bind at 1. rewrite (run_ok _ s1 out w2 Hstatus).
    unfold truthy. apply String.eqb_neq in Hdiff. rewrite Hdiff.
    reflexivity. }
  assert (Hrun : processIssue cfg issue s = publish cfg issue s2).
  { unfold processIssue, try_catch. rewrite Hpipe.
    destruct (publish cfg issue s2) as [[[]|e] s3]; [reflexivity|].
    discriminate. }
  rewrite Hrun. split; [exact N|]. unfold s2 in E at 2. cbn [db] in E.
  rewrite D1 in E.
  split; [exact E|].
  intros r F. rewrite E, (find_after_update _ _ _ _ _ F).
  eexists. split; [reflexivity|]. repeat split.
Qed.

(** X15. When the four git commands before the remediation succeed and
    the codex child closes with an exit code other than 0, the run ends
    normally and, once the store applies the write, the record is
    ['failed'] with the message that names the exit code. *)
Theorem codex_exit_code_is_reported
    (issue : issues) (s : Sys World) (o1 o2 o3 o4 : string) (code : Z)
    (w1 w2 w3 w4 w5 w6 : World)
    (Hfetch : execSync "git fetch origin" (world s) = (inr o1, w1))
    (Hcheckout : execSync ("git checkout " ++ BASE_BRANCH cfg)%string w1
                 = (inr o2, w2))
    (Hpull : execSync ("git pull origin " ++ BASE_BRANCH cfg)%string w2
             = (inr o3, w3))
    (Hbranch : execSync ("git checkout -B " ++ branchName issue)%string w3
               = (inr o4, w4))
    (Hcodex : spawn_codex (codex_args (prompt cfg issue)) w4
              = (close (Some code), w5))
    (Hcode : code <> 0%Z)
    (Hstore : supabase w5 = (fulfilled, w6)) :
  let m := slice_0 2000
             ("Error: Codex exited with code " ++ of_Z code)%string in
  fst (processIssue cfg issue s) = Normal tt
  /\ db (snd (processIssue cfg issue s))
     = update_eq_id (id issue) (mk_patch (Some failed) None (Some m))
         (mk_session (clock w6) None) (db s)
  /\ (forall r, find_by_id (id issue) (db s) = Some r ->
       exists r',
         find_by_id (id issue) (db (snd (processIssue cfg issue s))) = Some r'
         /\ status r' = failed /\ error_message r' = Some m).
Proof.
  intros m.
  assert (Hpipe : exists tr,
            pipeline cfg issue s
            = (Throw (mk_Error ("Codex exited with code " ++ of_Z code)%string),
               mk_Sys (db s) w5 tr)).
  { unfold pipeline, prepare.
    unfold bind at 1. unfold bind at 1. rewrite (run_ok _ s o1 w1 Hfetch).
    unfold bind at 1.
    rewrite (run_ok _ (mk_Sys (db s) w1 _) o2 w2 Hcheckout).
    cbn [db world trace]. unfold bind at 1.
    rewrite (run_ok _ (mk_Sys (db s) w2 _) o3 w3 Hpull).
    cbn [db world trace]. unfold bind at 1.
    rewrite (run_ok _ (mk_Sys (db s) w3 _) o4 w4 Hbranch).
    cbn [db world trace]. unfold bind at 1.
    unfold runCodex. unfold bind at 1. unfold emit. unfold bind at 1.
    unfold ask. cbn [db world trace]. rewrite Hcodex.
    destruct code as [|c|c]; [contradiction| |]; eexists; reflexivity. }
  destruct Hpipe as [tr Hpipe].
  assert (Hrun : processIssue cfg issue s
          = (Normal tt,
             mk_Sys (update_eq_id (id issue)
                       (mk_patch (Some failed) None (Some m))
                       (mk_session (clock w6) None) (db s))
               w6 (tr ++ [ev_update (id issue)
                            (mk_patch (Some failed) None (Some m))]))).
  { unfold processIssue, try_catch. rewrite Hpipe.
    rewrite (updateIssue_answer _ _ (mk_Sys (db s) w5 tr) fulfilled w6 Hstore).
    reflexivity. }
  rewrite Hrun. cbn [fst snd db]. split; [reflexivity|]. split; [reflexivity|].
  intros r F. rewrite (find_after_update _ _ _ _ _ F).
  eexists. split; [reflexivity|]. split; reflexivity.
Qed.

(** Every turn of the loop completes normally. *)
Lemma main_turn_completes (s : Sys World) :
  exists t, fst (main_turn cfg s) = Normal t.
Proof.
  unfold main_turn, try_catch.
  match goal with |- context [match ?b s with _ => _ end] =>
    destruct (b s) as [[t|e] s1] end.
  - exists t. reflexivity.
  - eexists. reflexivity.
Qed.

Lemma main_turn_cases (s : Sys World) :
  (exists evs s',
     main_turn cfg s = (Normal idle, s')
     /\ trace s' = evs ++ [ev_sleep (EMPTY_SLEEP_MS cfg)])
  \/ (exists i s', main_turn cfg s = (Normal (processed i), s'))
  \/ (exists e evs s',
        main_turn cfg s = (Normal (loop_error e), s')
        /\ trace s' = evs ++ [ev_sleep (ERROR_SLEEP_MS cfg)]).
Proof.
  unfold main_turn, try_catch, bind, sleep, emit, ret.
  destruct (claimIssue cfg s) as [[issue|e] s1].
  - destruct (claimed_row issue) as [r|].
    + destruct (processIssue cfg r s1) as [[[]|e] s2].
      * right. left. eexists. eexists. reflexivity.
      * right. right. eexists. eexists. eexists. split; reflexivity.
    + left. eexists. eexists. split; reflexivity.
  - right. right. eexists. eexists. eexists. split; reflexivity.
Qed.

Lemma main_turn_sleeps (s : Sys World) :
  (fst (main_turn cfg s) = Normal idle ->
   exists evs, trace (snd (main_turn cfg s))
               = evs ++ [ev_sleep (EMPTY_SLEEP_MS cfg)])
  /\ (forall e, fst (main_turn cfg s) = Normal (loop_error e) ->
       exists evs, trace (snd (main_turn cfg s))
                   = evs ++ [ev_sleep (ERROR_SLEEP_MS cfg)]).
Proof.
  destruct (main_turn_cases s)
    as [(evs & s' & E & T) | [(i & s' & E) | (e & evs & s' & E & T)]];
    rewrite E; cbn [fst snd].
  - split; [|intros e; discriminate]. intros _. exists evs. exact T.
  - split; [discriminate|intros e; discriminate].
  - split; [discriminate|]. intros e' _. exists evs. exact T.
Qed.

(** X16. The loop of [main] never ends on a failure: however the store,
    the commands and the remediation tool behave, n turns complete normally
    with n outcomes; and a turn that processed no issue has slept as its
    last act, for [EMPTY_SLEEP_MS] when it was idle and for
    [ERROR_SLEEP_MS] when it caught an exception. *)
Theorem main_never_throws (n : nat) (s : Sys World) :
  (exists ts, fst (main cfg n s) = Normal ts /\ List.length ts = n)
  /\ (fst (main_turn cfg s) = Normal idle ->
      exists evs, trace (snd (main_turn cfg s))
                  = evs ++ [ev_sleep (EMPTY_SLEEP_MS cfg)])
  /\ (forall e, fst (main_turn cfg s) = Normal (loop_error e) ->
       exists evs, trace (snd (main_turn cfg s))
                   = evs ++ [ev_sleep (ERROR_SLEEP_MS cfg)]).
Proof.
  split; [|apply main_turn_sleeps].
  revert s. induction n as [|n IH]; intros s.
  - exists []. split; reflexivity.
  - cbn [main]. unfold bind at 1.
    destruct (main_turn_completes s) as [t Ht].
    destruct (main_turn cfg s) as [c s1]. cbn [fst] in Ht. subst c.
    unfold bind at 1. destruct (IH s1) as (ts & Hts & L).
    destruct (main cfg n s1) as [c s2]. cbn [fst] in Hts. subst c.
    exists (t :: ts). split; [reflexivity|]. simpl. rewrite L. reflexivity.
Qed.

(** X17. When the promise of the [claim_issue] RPC is rejected, the turn
    catches the exception: it ends as a loop error with that exception,
    sleeps [ERROR_SLEEP_MS] and leaves the table as it was. *)
Theorem rejected_claim_is_a_loop_error
    (s : Sys World) (e : Error) (w1 : World)
    (Hrej : supabase (world s) = (rejected e, w1)) :
  main_turn cfg s
  = (Normal (loop_error e),
     mk_Sys (db s) w1
       (trace s ++ [ev_rpc "claim_issue"; ev_sleep (ERROR_SLEEP_MS cfg)])).
Proof.
  unfold main_turn, try_catch. unfold bind at 1.
  assert (Hc : claimIssue cfg s
     = (Throw e, mk_Sys (db s) w1 (trace s ++ [ev_rpc "claim_issue"]))).
  { unfold claimIssue, rpc_claim_issue, bind, emit, ask. cbn [world db trace].
    rewrite Hrej. reflexivity. }
  rewrite Hc. cbn. rewrite <- app_assoc. reflexivity.
Qed.

(** X24. A turn of the loop on a backlog whose oldest approved issue is
    [r], with a store that applies every request: the turn claims [r] for
    this worker, processes it and reports it processed, and leaves it
    ['failed'] or ['pr_raised'], still carrying the worker's name; every
    other record is found as before. *)
Theorem turn_takes_the_oldest_issue_to_an_end
    (s : Sys World) (r : issues)
    (Store : forall w, fst (supabase w) = fulfilled)
    (PK : NoDup (map id (db s)))
    (Hr : In r (db s)) (Happroved : status r = approved)
    (Oldest : forall x, In x (db s) -> status x = approved ->
                        x = r \/ (created_at r < created_at x)%Z)
    (Hid : id r <> ""%string) :
  fst (main_turn cfg s) = Normal (processed (id r))
  /\ (exists r',
        find_by_id (id r) (db (snd (main_turn cfg s))) = Some r'
        /\ (status r' = failed \/ status r' = pr_raised)
        /\ claimed_by r' = Some (WORKER_ID cfg))
  /\ (forall j, j <> id r ->
       find_by_id j (db (snd (main_turn cfg s))) = find_by_id j (db s)).
Proof.
  destruct (supabase (world s)) as [a w1] eqn:Ea.
  pose proof (Store (world s)) as Ha. rewrite Ea in Ha. cbn [fst] in Ha.
  subst a.
  set (ses := mk_session (clock w1) None).
  set (cr := claimed (WORKER_ID cfg) ses r).
  destruct (claim_issue_strictly_oldest (WORKER_ID cfg) ses (db s) r
              PK Hr Happroved Oldest) as (l1 & l2 & Et & Ec).
  set (s1 := mk_Sys (l1 ++ cr :: l2) w1 (trace s ++ [ev_rpc "claim_issue"])).
  assert (Hclaim : claimIssue cfg s = (Normal (Some (row cr)), s1)).
  { unfold claimIssue, rpc_claim_issue, bind, emit, ask, with_session, on_db.
    cbn [world db trace]. rewrite Ea. cbn [world db trace].
    fold ses. rewrite Ec. reflexivity. }
  assert (Hturn : main_turn cfg s
          = (let '(c, s') := processIssue cfg cr s1 in
             match c with
             | Normal _ => (Normal (processed (id r)), s')
             | Throw e =>
                 (Normal (loop_error e),
                  mk_Sys (db s') (world s')
                    (trace s' ++ [ev_sleep (ERROR_SLEEP_MS cfg)]))
             end)).
  { unfold main_turn, try_catch. unfold bind at 1. rewrite Hclaim.
    cbn [claimed_row]. change (id cr) with (id r).
    unfold truthy. apply String.eqb_neq in Hid. rewrite Hid. cbn [negb].
    unfold bind at 1. destruct (processIssue cfg cr s1) as [[[]|e] s2];
      reflexivity. }
  destruct (processIssue_settles cr s1 Store) as (N & (o & ses' & E) & _).
  rewrite Hturn. destruct (processIssue cfg cr s1) as [c s2].
  cbn [fst snd] in N, E. subst c. cbn [fst snd].
  change (id cr) with (id r) in E. unfold s1 in E. cbn [db] in E.
  assert (PK1 : NoDup (map id (l1 ++ cr :: l2))).
  { rewrite Et in PK. rewrite map_app in *. exact PK. }
  assert (F1 : find_by_id (id r) (l1 ++ cr :: l2) = Some cr).
  { apply (find_by_id_In _ cr PK1). apply in_elt. }
  split; [reflexivity|]. split.
  - rewrite E, (find_after_update _ _ _ _ _ F1). eexists.
    split; [reflexivity|]. split; [apply terminal_patch_status|].
    destruct o; reflexivity.
  - intros j Hne. rewrite E, update_eq_id_elsewhere by exact Hne.
    rewrite Et. unfold find_by_id. clear - Hne.
    induction l1 as [|a l1 IH]; cbn [app find].
    + change (id cr) with (id r).
      apply not_eq_sym in Hne. apply String.eqb_neq in Hne.
      rewrite Hne. reflexivity.
    + rewrite IH. reflexivity.
Qed.

End Runs.

Lemma turn_takes_the_oldest_issue_to_an_end_witness :
  fst (main_turn (C := Samples.nothing_changes) Samples.worker_cfg
         (Samples.system Samples.backlog))
  = Normal (processed "a"%string).
Proof.
  assert (PK : NoDup (map id Samples.backlog)) by distinct_ids.
  apply (turn_takes_the_oldest_issue_to_an_end (C := Samples.nothing_changes)
           Samples.worker_cfg (Samples.system Samples.backlog)
           Samples.issue_a).
  - intros w. reflexivity.
  - exact PK.
  - left. reflexivity.
  - reflexivity.
  - intros x [<- | [<- | [<- | []]]] _; [left; reflexivity|right|right];
      simpl; lia.
  - discriminate.
Defined.

Lemma changes_end_in_pull_request_witness :
  exists r',
    find_by_id "a"%string
      (db (snd (processIssue (C := MoreSamples.changes_made)
                  Samples.worker_cfg Samples.claimed_issue
                  (Samples.system [Samples.claimed_issue]))))
    = Some r'
    /\ status r' = pr_raised
    /\ pr_url r' = Some "https://github.com/o/r/pull/7"%string.
Proof.
  destruct (changes_end_in_pull_request (C := MoreSamples.changes_made)
              Samples.worker_cfg Samples.claimed_issue
              (Samples.system [Samples.claimed_issue])
              (snd (prepare (C := MoreSamples.changes_made)
                      Samples.worker_cfg Samples.claimed_issue
                      (Samples.system [Samples.claimed_issue])))
              (" M index.html" ++ nl)%string ""%string ""%string ""%string
              ("https://github.com/o/r/pull/7" ++ nl)%string
              tt tt tt tt tt tt
              eq_refl eq_refl) as (_ & _ & H);
    try reflexivity.
  - discriminate.
  - destruct (H Samples.claimed_issue eq_refl) as (r' & F & St & P & _).
    exists r'. repeat split; assumption.
Defined.

Lemma codex_exit_code_is_reported_witness :
  exists r',
    find_by_id "a"%string
      (db (snd (processIssue (C := MoreSamples.codex_fails)
                  Samples.worker_cfg Samples.claimed_issue
                  (Samples.system [Samples.claimed_issue]))))
    = Some r'
    /\ status r' = failed
    /\ error_message r' = Some "Error: Codex exited with code 1"%string.
Proof.
  destruct (codex_exit_code_is_reported (C := MoreSamples.codex_fails)
              Samples.worker_cfg Samples.claimed_issue
              (Samples.system [Samples.claimed_issue])
              ""%string ""%string ""%string ""%string 1%Z
              tt tt tt tt tt tt
              eq_refl eq_refl eq_refl eq_refl eq_refl) as (_ & _ & H);
    try reflexivity.
  - discriminate.
  - destruct (H Samples.claimed_issue eq_refl) as (r' & F & St & M).
    exists r'. repeat split; assumption.
Defined.

Lemma rejected_claim_is_a_loop_error_witness :
  main_turn (C := MoreSamples.store_rejects) Samples.worker_cfg
    (Samples.system Samples.backlog)
  = (Normal (loop_error (mk_Error "fetch failed")),
     mk_Sys Samples.backlog tt
       [ev_rpc "claim_issue"%string; ev_sleep 10000%Z]).
Proof.
  exact (rejected_claim_is_a_loop_error (C := MoreSamples.store_rejects)
           Samples.worker_cfg (Samples.system Samples.backlog)
           (mk_Error "fetch failed") tt eq_refl).
Defined.

Lemma processIssue_always_settles_witness :
  fst (processIssue (C := Samples.commands_fail) Samples.worker_cfg
         Samples.claimed_issue (Samples.system [Samples.claimed_issue]))
  = Normal tt.
Proof.
  apply (processIssue_always_settles (C := Samples.commands_fail)
           Samples.worker_cfg Samples.claimed_issue
           (Samples.system [Samples.claimed_issue])).
  intros w. reflexivity.
Defined.

End WorkerMore.

(* ================================================================== *)
(** * Further properties of the scanner *)
(* ================================================================== *)

Module ScannerMore.
Import Schema Js Outside Scanner SchemaFacts ScannerFacts Keeping.
Local Open Scope async_scope.

Section Cycle.
Context {World : Type} {C : Collaborators World} {D : Detector World}.

(** X18. [runCodexScan] resolves with a list of findings exactly when the
    codex child closes, the extraction call returns a non-empty content and
    that content parses into an object with an [issues] array, which is
    then the list; the exit code of codex plays no part, and every other
    course rejects. *)
Theorem scan_resolves_only_with_parsed_issues
    (siteUrl : string) (existing : list existing_issue) (s : Sys World)
    (fs : list finding) :
  fst (runCodexScan siteUrl existing s) = Normal fs
  <-> exists raw code w1 extracted w2,
        spawn_scan (scan_args (instruction siteUrl existing)) (world s)
        = (scan_close raw code, w1)
        /\ openai_extract raw w1 = (inr (Some extracted), w2)
        /\ truthy extracted = true
        /\ JSON_parse_issues extracted = inr (Some fs).
Proof.
  split.
  - unfold runCodexScan, bind, emit, ask. cbn [world db trace].
    destruct (spawn_scan (scan_args (instruction siteUrl existing)) (world s))
      as [[raw code|err] w1] eqn:Es; cbn [fst snd world db trace];
      [|discriminate].
    destruct (openai_extract raw w1) as [[err|[extracted|]] w2] eqn:Eo;
      cbn [fst snd world db trace]; try discriminate.
    destruct (truthy extracted) eqn:T; [|discriminate].
    destruct (JSON_parse_issues extracted) as [err|[issues|]] eqn:P;
      cbn [fst]; try discriminate.
    intros [= <-]. exists raw, code, w1, extracted, w2.
    repeat split; assumption.
  - intros (raw & code & w1 & extracted & w2 & Es & Eo & T & P).
    unfold runCodexScan, bind, emit, ask. cbn [world db trace].
    rewrite Es. cbn [fst snd world db trace].
    rewrite Eo. cbn [fst snd world db trace].
    rewrite T, P. reflexivity.
Qed.

(** X19. A scan cycle that cannot do its work inserts nothing.  When the
    fetch of the existing issues is answered with an error, [main] returns
    without starting codex; when the scan rejects with [e], [main] throws
    [e]; in both cases the table is as it was and no insert was
    requested. *)
Theorem failed_cycle_inserts_nothing (SITE_URL : string) (s : Sys World) :
  (forall err w1,
     supabase (world s) = (fulfilled_error err, w1) ->
     main SITE_URL s
     = (Normal tt, mk_Sys (db s) w1 (trace s ++ [ev_select])))
  /\ (forall w1 e s2,
       supabase (world s) = (fulfilled, w1) ->
       runCodexScan SITE_URL (map select_projection (db s))
         (mk_Sys (db s) w1 (trace s ++ [ev_select]))
       = (Throw e, s2) ->
       fst (main SITE_URL s) = Throw e
       /\ db (snd (main SITE_URL s)) = db s
       /\ inserts_of (trace (snd (main SITE_URL s))) = inserts_of (trace s)).
Proof.
  split.
  - intros err w1 H. unfold main, select_existing, bind, emit, ask.
    cbn [world db trace]. rewrite H. reflexivity.
  - intros w1 e s2 H Hscan.
    destruct (runCodexScan_trace SITE_URL (map select_projection (db s))
                (mk_Sys (db s) w1 (trace s ++ [ev_select]))) as [T2 D2].
    rewrite Hscan in T2, D2. cbn [snd trace db] in T2, D2.
    assert (Hmain : main SITE_URL s = (Throw e, s2)).
    { unfold main, select_existing.
      unfold bind at 1. unfold bind at 1. unfold bind at 1.
      unfold emit, ask. cbn [world db trace]. rewrite H.
      cbn [snd fst world db trace]. unfold bind at 1.
      rewrite Hscan. reflexivity. }
    rewrite Hmain. cbn [fst snd]. split; [reflexivity|]. split; [exact D2|].
    rewrite T2, !inserts_of_app. cbn. rewrite !app_nil_r. reflexivity.
Qed.

Lemma insert_issue_row f p (s : Sys World) :
  normalize f = inr p ->
  db (snd (insert_issue (to_payload p) s)) = db s
  \/ exists r, db (snd (insert_issue (to_payload p) s)) = db s ++ [r]
                /\ scanned_row [f] r.
Proof.
  intros Hf. unfold insert_issue, bind, emit, ask. cbn [world db trace].
  destruct (supabase (world s)) as [[|err|e] w1]; cbn [fst snd world db trace];
    try (left; reflexivity).
  destruct (gen_random_uuid w1) as [u w2]. cbn [fst snd world db trace].
  unfold insert. cbn [p_title to_payload].
  unfold set_issue_creator. cbn [created_by id set_created_by].
  destruct (existsb _ (db s)); cbn [snd db]; [left; reflexivity|].
  right. eexists. split; [reflexivity|].
  split; [reflexivity|]. split; [reflexivity|].
  exists f, p. split; [left; reflexivity|]. split; [exact Hf|]. repeat split.
Qed.

Lemma insert_findings_rows (fs : list finding) :
  (forall w e, fst (supabase w) <> rejected e) ->
  forall s : Sys World,
    exists rows,
      db (snd (insert_findings fs s)) = db s ++ rows
      /\ forall r, In r rows -> scanned_row fs r.
Proof.
  intros Hok. induction fs as [|f fs IH]; intros s.
  - exists []. cbn. rewrite app_nil_r. split; [reflexivity|intros r []].
  - cbn [insert_findings]. destruct (normalize f) as [e|p] eqn:Hf.
    { exists []. cbn. rewrite app_nil_r. split; [reflexivity|intros r []]. }
    unfold bind.
    destruct (insert_issue_sends (to_payload p) s) as (_ & _ & N).
    destruct (N (Hok (world s))) as [err Hn].
    pose proof (insert_issue_row f p s Hf) as R.
    destruct (insert_issue (to_payload p) s) as [c s1]. cbn [fst snd] in *.
    subst c. destruct (IH s1) as (rows & E & Hrows).
    assert (Wider : forall r, scanned_row fs r -> scanned_row (f :: fs) r).
    { intros r (A & B & g & q & Hg & G). split; [exact A|]. split; [exact B|].
      exists g, q. split; [right; exact Hg|exact G]. }
    destruct R as [R | (r & R & Hr)].
    + exists rows. rewrite E, R. split; [reflexivity|].
      intros x Hx. apply Wider, Hrows, Hx.
    + exists (r :: rows). rewrite E, R, <- app_assoc. split; [reflexivity|].
      intros x [<- | Hx].
      * destruct Hr as (A & B & g & q & [<- | []] & G).
        split; [exact A|]. split; [exact B|].
        exists f, q. split; [left; reflexivity|exact G].
      * apply Wider, Hrows, Hx.
Qed.

(** X20. A scan cycle only appends: the rows the table had stay as they
    were, in place, and every row added is made of the payload the loop
    built from a finding of the scan, with status ['reported'] and no pull
    request, error, claim or approval. *)
Theorem scan_cycle_only_appends_reported_rows
    (SITE_URL : string) (s s2 : Sys World) (w1 : World) (fs : list finding)
    (Hselect : supabase (world s) = (fulfilled, w1))
    (Hscan : runCodexScan SITE_URL (map select_projection (db s))
               (mk_Sys (db s) w1 (trace s ++ [ev_select]))
             = (Normal fs, s2))
    (Hstore : forall w e, fst (supabase w) <> rejected e) :
  exists rows,
    db (snd (main SITE_URL s)) = db s ++ rows
    /\ forall r, In r rows ->
         status r = reported
         /\ (pr_url r, error_message r, claimed_by r, approved_at r)
            = (None, None, None, None)
         /\ exists f p,
              In f fs
              /\ normalize f = inr p
              /\ p_title (to_payload p) = Some (title r)
              /\ source_url r = p_source_url (to_payload p)
              /\ description r = p_description (to_payload p)
              /\ manual_instructions r
                 = p_manual_instructions (to_payload p).
Proof.
  destruct (runCodexScan_trace SITE_URL (map select_projection (db s))
              (mk_Sys (db s) w1 (trace s ++ [ev_select]))) as [_ D2].
  rewrite Hscan in D2. cbn [snd db] in D2.
  assert (Hmain : main SITE_URL s
          = match fs with
            | [] => (Normal tt, s2)
            | _ => insert_findings fs s2
            end).
  { unfold main, select_existing.
    unfold bind at 1. unfold bind at 1. unfold bind at 1.
    unfold emit, ask. cbn [world db trace]. rewrite Hselect.
    cbn [snd fst world db trace]. unfold bind at 1.
    rewrite Hscan. destruct fs; reflexivity. }
  rewrite Hmain. destruct fs as [|f fs'].
  - exists []. cbn [snd]. rewrite D2, app_nil_r.
    split; [reflexivity|intros r []].
  - destruct (insert_findings_rows (f :: fs') Hstore s2) as (rows & E & Hr).
    exists rows. rewrite E, D2. split; [reflexivity|exact Hr].
Qed.

End Cycle.

Lemma failed_cycle_inserts_nothing_witness :
  fst (main (C := Samples.nothing_changes) (D := MoreSamples.extraction_fails)
         "https://example.com" (Samples.system [Samples.known_issue]))
  = Throw (mk_Error "Failed to extract issues via GPT-5-mini: rate limited")
  /\ db (snd (main (C := Samples.nothing_changes)
                (D := MoreSamples.extraction_fails)
                "https://example.com" (Samples.system [Samples.known_issue])))
     = [Samples.known_issue].
Proof.
  destruct (proj2 (failed_cycle_inserts_nothing
                     (C := Samples.nothing_changes)
                     (D := MoreSamples.extraction_fails)
                     "https://example.com"
                     (Samples.system [Samples.known_issue]))
              tt (mk_Error "Failed to extract issues via GPT-5-mini: rate limited")
              (snd (runCodexScan (D := MoreSamples.extraction_fails)
                      "https://example.com"
                      (map select_projection [Samples.known_issue])
                      (mk_Sys [Samples.known_issue] tt [ev_select])))
              eq_refl eq_refl) as (A & B & _).
  split; [exact A|exact B].
Defined.

Lemma scan_resolves_only_with_parsed_issues_witness :
  fst (runCodexScan (D := MoreSamples.exits_nonzero) "https://example.com" []
         (Samples.system []))
  = Normal [Samples.known_finding].
Proof.
  apply (proj2 (scan_resolves_only_with_parsed_issues
                  (D := MoreSamples.exits_nonzero) "https://example.com" []
                  (Samples.system []) [Samples.known_finding])).
  exists "done"%string, (Some 1%Z), tt, "{...}"%string, tt.
  repeat split.
Defined.

Lemma scan_cycle_only_appends_reported_rows_witness :
  exists rows,
    db (snd (main (C := Samples.nothing_changes)
               (D := Samples.reports_known_issue)
               "https://example.com" (Samples.system [Samples.known_issue])))
    = [Samples.known_issue] ++ rows
    /\ forall r, In r rows -> status r = reported.
Proof.
  destruct (scan_cycle_only_appends_reported_rows
              (C := Samples.nothing_changes)
              (D := Samples.reports_known_issue)
              "https://example.com" (Samples.system [Samples.known_issue])
              (snd (runCodexScan (D := Samples.reports_known_issue)
                      "https://example.com"
                      (map select_projection [Samples.known_issue])
                      (mk_Sys [Samples.known_issue] tt [ev_select])))
              tt [Samples.known_finding] eq_refl eq_refl)
    as (rows & E & H).
  - intros w e. simpl. discriminate.
  - exists rows. split; [exact E|]. intros r Hr. apply (H r Hr).
Defined.

End ScannerMore.

(* ================================================================== *)
(** * Properties of the board *)
(* ================================================================== *)

Module BoardFacts.
Import Schema Outside Lifecycle Board SchemaFacts LifecycleFacts.

Lemma insert_newest_first_In x y l :
  In y (insert_newest_first x l) <-> y = x \/ In y l.
Proof.
  induction l as [|z l IH]; simpl.
  - intuition.
  - destruct (created_at z <=? created_at x)%Z; simpl.
    + intuition.
    + rewrite IH. intuition.
Qed.

Lemma order_newest_first_In y l : In y (order_newest_first l) <-> In y l.
Proof.
  induction l as [|x l IH]; simpl.
  - reflexivity.
  - rewrite insert_newest_first_In, IH. intuition.
Qed.

Lemma insert_newest_first_length x l :
  List.length (insert_newest_first x l) = S (List.length l).
Proof.
  induction l as [|z l IH]; simpl; [reflexivity|].
  destruct (created_at z <=? created_at x)%Z; simpl; [reflexivity|].
  rewrite IH. reflexivity.
Qed.

Lemma order_newest_first_length l :
  List.length (order_newest_first l) = List.length l.
Proof.
  induction l as [|x l IH]; simpl; [reflexivity|].
  rewrite insert_newest_first_length, IH. reflexivity.
Qed.

Lemma insert_newest_first_sorted x l :
  newest_first (map select_columns l) ->
  newest_first (map select_columns (insert_newest_first x l)).
Proof.
  induction l as [|z l IH]; simpl; intros Hs.
  - split; [intros y []|exact I].
  - destruct Hs as [Hz Hl].
    destruct (created_at z <=? created_at x)%Z eqn:E.
    + apply Z.leb_le in E. simpl. split; [|split; assumption].
      intros y [<- | Hy]; [exact E|]. specialize (Hz y Hy). simpl in *. lia.
    + apply Z.leb_gt in E. simpl. split; [|apply IH; exact Hl].
      intros y Hy. apply in_map_iff in Hy. destruct Hy as (r & <- & Hr).
      apply insert_newest_first_In in Hr. destruct Hr as [-> | Hr].
      * simpl. lia.
      * apply Hz. apply in_map, Hr.
Qed.

Lemma order_newest_first_sorted l :
  newest_first (map select_columns (order_newest_first l)).
Proof.
  induction l as [|x l IH]; simpl; [exact I|].
  apply insert_newest_first_sorted, IH.
Qed.

(** X21. The board's query shows the issues it asked for, all of them,
    newest first: with a status filter, exactly the rows of that status,
    and with ["all"] every row, each once, in descending order of
    [created_at]; when the store answers with an error the list is
    emptied. *)
Theorem board_lists_matching_issues_newest_first
    (statusFilter : string) (t : table) (shown : list Issue) :
  (forall x, In x (loadIssues fulfilled statusFilter t shown) <->
     exists r, In r t /\ x = select_columns r
               /\ (statusFilter = "all"%string \/ status r = statusFilter))
  /\ List.length (loadIssues fulfilled statusFilter t shown)
     = List.length
         (filter (fun r => (statusFilter =? "all")%string
                           || (status r =? statusFilter)%string) t)
  /\ newest_first (loadIssues fulfilled statusFilter t shown)
  /\ (forall err, loadIssues (fulfilled_error err) statusFilter t shown = []).
Proof.
  cbn [loadIssues]. unfold query.
  split; [|split; [|split; [apply order_newest_first_sorted|reflexivity]]].
  - intros x. rewrite in_map_iff. split.
    + intros (r & <- & Hr). apply (proj1 (order_newest_first_In _ _)) in Hr.
      exists r. destruct (statusFilter =? "all")%string eqn:E.
      * apply String.eqb_eq in E. split; [exact Hr|].
        split; [reflexivity|left; exact E].
      * apply filter_In in Hr. destruct Hr as [Hr Hs].
        apply String.eqb_eq in Hs. split; [exact Hr|].
        split; [reflexivity|right; exact Hs].
    + intros (r & Hr & -> & Hf). exists r. split; [reflexivity|].
      apply order_newest_first_In.
      destruct (statusFilter =? "all")%string eqn:E; [exact Hr|].
      apply filter_In. split; [exact Hr|].
      destruct Hf as [Hf | Hf].
      * apply String.eqb_neq in E. contradiction.
      * apply String.eqb_eq. exact Hf.
  - rewrite length_map, order_newest_first_length.
    destruct (statusFilter =? "all")%string; cbn [orb]; [|reflexivity].
    clear. induction t as [|a t IH]; simpl; [reflexivity|].
    rewrite <- IH. reflexivity.
Qed.

Lemma handle_rewrites_one_row a ses l1 r l2 :
  NoDup (map id (l1 ++ r :: l2)) ->
  exists n,
    Portal.handle a (id r) ses (l1 ++ r :: l2) = l1 ++ n :: l2
    /\ id n = id r /\ status n = target a
    /\ title n = title r /\ created_at n = created_at r.
Proof.
  intros PK. destruct a; unfold Portal.handle, approve_issue, reject_issue;
    rewrite (sql_update_by_id ses _ l1 r l2 PK); cbn [snd fst];
    eexists; (split; [reflexivity|]); repeat split.
Qed.

Lemma offered_button_changes_status a st :
  In a (Portal.buttons st) -> st <> target a /\ st <> "all"%string.
Proof.
  unfold Portal.buttons.
  destruct (st =? "reported")%string eqn:E1.
  - apply String.eqb_eq in E1. subst st.
    intros [<- | [<- | []]]; split; discriminate.
  - destruct (st =? "failed")%string eqn:E2; [|intros []].
    apply String.eqb_eq in E2. subst st.
    intros [<- | []]; split; discriminate.
Qed.

(** X22. A click on a button of the board, followed by the reload that
    [handle] makes: the issue is then listed under the status the button
    asks for, with its id, title and creation time, and is no longer listed
    under the status it had; the unfiltered board shows as many issues as
    before. *)
Theorem clicked_issue_moves_to_its_new_list
    (a : Portal.action) (ses : session)
    (l1 : list issues) (r : issues) (l2 : list issues) (shown : list Issue)
    (PK : NoDup (map id (l1 ++ r :: l2)))
    (Offered : In a (Portal.buttons (status r))) :
  let t' := Portal.handle a (id r) ses (l1 ++ r :: l2) in
  (exists x, In x (loadIssues fulfilled (target a) t' shown)
             /\ i_id x = id r /\ i_title x = title r
             /\ i_created_at x = created_at r)
  /\ (forall x, In x (loadIssues fulfilled (status r) t' shown) ->
        i_id x <> id r)
  /\ List.length (loadIssues fulfilled "all" t' shown)
     = List.length (l1 ++ r :: l2).
Proof.
  intros t'. subst t'.
  destruct (handle_rewrites_one_row a ses l1 r l2 PK)
    as (n & -> & Hid & Hst & Hti & Hcr).
  destruct (offered_button_changes_status a (status r) Offered) as [Hne Hall].
  assert (PK' : NoDup (map id (l1 ++ n :: l2))).
  { rewrite map_app in *. cbn [map] in *. rewrite Hid. exact PK. }
  cbn [loadIssues]. unfold query. split; [|split].
  - exists (select_columns n). split; [|repeat split; assumption].
    apply in_map. apply order_newest_first_In.
    assert (Ht : (target a =? "all")%string = false)
      by (destruct a; reflexivity).
    rewrite Ht. apply filter_In. split; [apply in_elt|].
    apply String.eqb_eq. exact Hst.
  - intros x Hx. apply in_map_iff in Hx. destruct Hx as (q & <- & Hq).
    apply (proj1 (order_newest_first_In _ _)) in Hq.
    apply String.eqb_neq in Hall. rewrite Hall in Hq.
    apply filter_In in Hq. destruct Hq as [Hq Hs].
    apply String.eqb_eq in Hs. cbn [i_id select_columns]. intros E.
    pose proof (find_by_id_In _ q PK' Hq) as F1.
    pose proof (find_by_id_In _ n PK' (in_elt n l1 l2)) as F2.
    rewrite E, <- Hid, F2 in F1. injection F1 as <-.
    apply Hne. rewrite <- Hs. exact Hst.
  - rewrite length_map, order_newest_first_length. cbn.
    rewrite !length_app. reflexivity.
Qed.

Lemma clicked_issue_moves_to_its_new_list_witness :
  List.length
    (loadIssues fulfilled "all"%string
       (Portal.handle Portal.approve "f"%string (Samples.at_ 9)
          [MoreSamples.failed_issue]) [])
  = 1%nat.
Proof.
  assert (PK : NoDup (map id ([] ++ MoreSamples.failed_issue :: [])))
    by distinct_ids.
  assert (Offered : In Portal.approve
                      (Portal.buttons (status MoreSamples.failed_issue)))
    by (left; reflexivity).
  exact (proj2 (proj2 (clicked_issue_moves_to_its_new_list
                         Portal.approve (Samples.at_ 9)
                         [] MoreSamples.failed_issue [] [] PK Offered))).
Defined.

End BoardFacts.

(* ================================================================== *)
(** * Further properties of claim_issue under concurrent callers *)
(* ================================================================== *)

Module ConcurrentMore.
Import Schema Concurrent SchemaFacts ConcurrentFacts Keeping StoreMore.

Lemma start_kept callers t : calls_kept callers (start callers t).
Proof.
  unfold calls_kept, start. cbn [rows txns].
  induction callers as [|[w ses] callers IH]; constructor;
    [reflexivity|exact IH].
Qed.

(** A row that a call has returned is not the row another call updates:
    the one is in progress, the other approved. *)
Lemma call_kept_after_update t c x m1 r r' m2 :
  NoDup (map id t) -> t = m1 ++ r :: m2 ->
  status r = approved -> id r' = id r ->
  call_kept t c x -> call_kept (m1 ++ r' :: m2) c x.
Proof.
  intros PK Et Hs Hid. destruct x as [w ses | w ses i | [q|]]; cbn [call_kept];
    try (intros H; exact H).
  intros (F & Hq & Hrest). split; [|split; assumption].
  assert (Hne : id q <> id r).
  { intros E. rewrite E, Et in F.
    rewrite Et in PK.
    rewrite (LifecycleFacts.find_by_id_In _ r PK (in_elt r m1 m2)) in F.
    injection F as <-. rewrite Hs in Hq. discriminate. }
  rewrite (find_by_id_replaced (id q) m1 r r' m2 Hid Hne).
  rewrite <- Et. exact F.
Qed.

Lemma schedule_step_kept t0 callers k s :
  consistent t0 s -> calls_kept callers s ->
  calls_kept callers (schedule_step k s).
Proof.
  intros Hc Hk. unfold schedule_step.
  destruct (nth_error (txns s) k) as [x|] eqn:Ek; [|exact Hk].
  unfold calls_kept in *.
  destruct x as [w ses | w ses target | res].
  - cbn [advance].
    destruct (select_for_update_skip_locked (row_locks (txns s)) (rows s))
      as [|r rest] eqn:Sel.
    + destruct (nth_error_replace _ k _ (committed None) Ek)
        as (l1 & l2 & Et & ->).
      cbn [rows txns]. rewrite Et in Hk.
      apply Forall2_app_inv_r in Hk.
      destruct Hk as (c1 & c2' & H1 & H2 & ->).
      inversion H2 as [|c x c2 l2' Hx H3]; subst.
      apply Forall2_app; [exact H1|]. constructor; [exact I|exact H3].
    + destruct (nth_error_replace _ k _ (locked w ses (id r)) Ek)
        as (l1 & l2 & Et & ->).
      cbn [rows txns]. rewrite Et in Hk.
      apply Forall2_app_inv_r in Hk.
      destruct Hk as (c1 & c2' & H1 & H2 & ->).
      inversion H2 as [|c x c2 l2' Hx H3]; subst.
      apply Forall2_app; [exact H1|]. constructor; [exact Hx|exact H3].
  - pose proof Hc as (PK & _ & LA & _).
    destruct (LA target) as (r & Hr & Hid & Hs).
    { destruct (nth_error_replace _ k _ (committed None) Ek)
        as (l1 & l2 & Et & _).
      rewrite Et, row_locks_middle. apply in_or_app. right. left. reflexivity. }
    subst target. apply in_split in Hr. destruct Hr as (m1 & m2 & Er).
    cbn [advance]. pose proof PK as PK'. rewrite Er in PK' |- *.
    rewrite (sql_update_by_id ses _ m1 r m2 PK').
    cbn [returns_issues hd_error].
    fold (claimed w ses r).
    destruct (nth_error_replace _ k _ (committed (Some (claimed w ses r))) Ek)
      as (l1 & l2 & Et & ->).
    cbn [rows txns]. rewrite Et in Hk.
    apply Forall2_app_inv_r in Hk.
    destruct Hk as (c1 & c2' & H1 & H2 & ->).
    inversion H2 as [|c x c2 l2' Hx H3]; subst.
    assert (Keep : forall cs ys,
              Forall2 (call_kept (rows s)) cs ys ->
              Forall2 (call_kept (m1 ++ claimed w ses r :: m2)) cs ys).
    { intros cs ys HF. induction HF as [|c0 y cs ys Hy HF IH]; constructor.
      - apply (call_kept_after_update (rows s) c0 y m1 r (claimed w ses r) m2
                 PK Er Hs eq_refl Hy).
      - exact IH. }
    apply Forall2_app; [apply Keep, H1|]. constructor; [|apply Keep, H3].
    cbn [call_kept] in Hx |- *. subst c. cbn [fst snd].
    split; [|repeat split].
    apply (find_by_id_changed m1 r (claimed w ses r) m2 PK'). reflexivity.
  - cbn [advance].
    destruct (nth_error_replace _ k _ (committed res) Ek) as (l1 & l2 & Et & ->).
    cbn [rows txns]. rewrite <- Et. exact Hk.
Qed.

Lemma run_schedule_kept t0 callers schedule :
  forall s, consistent t0 s -> calls_kept callers s ->
            calls_kept callers (run_schedule schedule s).
Proof.
  induction schedule as [|k rest IH]; intros s Hc Hk; [exact Hk|].
  cbn [run_schedule]. apply IH.
  - apply schedule_step_consistent, Hc.
  - apply (schedule_step_kept t0), Hk. exact Hc.
Qed.

Lemma Forall2_nth_error {A B} (R : A -> B -> Prop) l1 l2 k a b :
  Forall2 R l1 l2 -> nth_error l1 k = Some a -> nth_error l2 k = Some b ->
  R a b.
Proof.
  intros HF. revert k. induction HF as [|x y l1 l2 Hxy HF IH]; intros k.
  - destruct k; discriminate.
  - destruct k as [|k]; cbn [nth_error].
    + intros [= <-] [= <-]. exact Hxy.
    + apply IH.
Qed.

(** X23. A claim that has been returned is not written over by another
    call: however the scheduler interleaves the calls of [claim_issue], and
    whether or not the others have finished, the table holds the row a call
    has returned exactly as that call returned it, in progress and with the
    name and the time of that caller and of no other. *)
Theorem returned_claim_is_not_overwritten
    (callers : list (string * session)) (t : table) (schedule : list nat)
    (k : nat) (w : string) (ses : session) (r : issues)
    (PK : NoDup (map id t))
    (Caller : nth_error callers k = Some (w, ses))
    (Returned : nth_error (txns (run_schedule schedule (start callers t))) k
                = Some (committed (Some r))) :
  find_by_id (id r) (rows (run_schedule schedule (start callers t))) = Some r
  /\ status r = in_progress
  /\ claimed_by r = Some w
  /\ claimed_at r = Some (now ses).
Proof.
  pose proof (run_schedule_kept t callers schedule (start callers t)
                (start_consistent callers t PK) (start_kept callers t)) as K.
  exact (Forall2_nth_error _ _ _ k _ _ K Caller Returned).
Qed.

Lemma returned_claim_is_not_overwritten_witness :
  find_by_id "a"%string
    (rows (run_schedule [0; 1; 0; 2; 1; 2]%nat
             (start Samples.three_callers Samples.backlog)))
  = Some (claimed "worker-1" (Samples.at_ 7) Samples.issue_a).
Proof.
  assert (PK : NoDup (map id Samples.backlog)) by distinct_ids.
  exact (proj1 (returned_claim_is_not_overwritten
                  Samples.three_callers Samples.backlog
                  [0; 1; 0; 2; 1; 2]%nat 0 "worker-1" (Samples.at_ 7)
                  (claimed "worker-1" (Samples.at_ 7) Samples.issue_a)
                  PK eq_refl eq_refl)).
Defined.

End ConcurrentMore.
